(** * MemGlance: process / network-connection graph

    A shallow embedding of [MemGlance.py].  The script reads two tables
    exported by a memory-forensics tool ([pslist.csv], [netscan.csv]),
    validates and converts their columns, filters the connection table,
    builds a directed graph of processes and foreign addresses, and hands
    that graph to a static and to an interactive renderer.

    What is modelled and how:
    - a table as pandas holds it after [read_csv]: column names and rows of
      cells; a cell is text, a finite number, an infinity or NaN.  A
      finite numeric cell carries the integer that [astype(int)] keeps,
      taken to fit in 64 bits, and is printed as that integer.  Outside
      the model are the fraction of a float, numbers beyond 64 bits, and
      the decimal point with which the script prints a float: a number in
      a float column of names, and every number of a row when all columns
      of the process table are numeric and one of them is a float column
      (the script then prints 4.0 where the model prints 4);
    - text as a sequence of characters with code points below 256, where
      the only decimal digits are 0..9;
    - the pattern of the address filter as a regular expression with a
      derivative matcher, related below to its language;
    - [networkx.DiGraph] as two dictionaries, node -> attributes and
      (source, target) -> attributes; the iteration order of those
      dictionaries is not modelled, only their contents;
    - exceptions as an error type, [exit(1)] and uncaught exceptions as the
      final status of a run, printed lines and written files as a trace;
    - what the script cannot decide by itself as its environment: whether
      an import raises, the two files as [read_csv] finds them, and
      whether a call into the file system or into a rendering library
      raises on what it is given.  Printing is taken to succeed, and
      an exception is an [Exception]: an interrupt is not modelled. *)

From Stdlib Require Import ZArith String Ascii List Lia.
From stdpp Require Import base gmap strings list fin_maps pretty.

Open Scope Z_scope.

(* ===================================================================== *)
(** * Regular expressions (the fragment used by the address filter)      *)
(* ===================================================================== *)

Module Regex.

Inductive regex :=
| Void
| Eps
| Chr (c : ascii)
| Digit
| Alt (r1 r2 : regex)
| Cat (r1 r2 : regex)
| Star (r : regex).

(** [r+] *)
Definition Plus (r : regex) : regex := Cat r (Star r).

(** [\d] on code points below 256: the characters 0..9. *)
Definition is_digit (c : ascii) : bool :=
  let n := nat_of_ascii c in (48 <=? n)%nat && (n <=? 57)%nat.

Fixpoint nullable (r : regex) : bool :=
  match r with
  | Void => false
  | Eps => true
  | Chr _ => false
  | Digit => false
  | Alt r1 r2 => nullable r1 || nullable r2
  | Cat r1 r2 => nullable r1 && nullable r2
  | Star _ => true
  end.

Fixpoint deriv (a : ascii) (r : regex) : regex :=
  match r with
  | Void => Void
  | Eps => Void
  | Chr c => if Ascii.eqb a c then Eps else Void
  | Digit => if is_digit a then Eps else Void
  | Alt r1 r2 => Alt (deriv a r1) (deriv a r2)
  | Cat r1 r2 =>
      if nullable r1 then Alt (Cat (deriv a r1) r2) (deriv a r2)
      else Cat (deriv a r1) r2
  | Star r1 => Cat (deriv a r1) (Star r1)
  end.

(** The whole word is in the language of [r]. *)
Fixpoint fullmatch (r : regex) (w : list ascii) : bool :=
  match w with
  | [] => nullable r
  | a :: w' => fullmatch (deriv a r) w'
  end.

(** The language of a regular expression. *)
Inductive Matches : regex → list ascii → Prop :=
| MEps : Matches Eps []
| MChr c : Matches (Chr c) [c]
| MDigit c : is_digit c = true → Matches Digit [c]
| MAltL r1 r2 w : Matches r1 w → Matches (Alt r1 r2) w
| MAltR r1 r2 w : Matches r2 w → Matches (Alt r1 r2) w
| MCat r1 r2 w1 w2 :
    Matches r1 w1 → Matches r2 w2 → Matches (Cat r1 r2) (w1 ++ w2)
| MStarNil r : Matches (Star r) []
| MStarApp r w1 w2 :
    Matches r w1 → Matches (Star r) w2 → Matches (Star r) (w1 ++ w2).

Definition newline : ascii := ascii_of_nat 10.

(** Python's [$] at the end of a pattern: the end of the text, or the
    position just before a newline that is the last character. *)
Fixpoint strip_final_newline (w : list ascii) : option (list ascii) :=
  match w with
  | [] => None
  | [c] => if Ascii.eqb c newline then Some [] else None
  | c :: w' => cons c <$> strip_final_newline w'
  end.

(** [re.match(r$, w)]: anchored at the start by [re.match] (so a leading
    [^] adds nothing), and at the end by [$]. *)
Definition match_dollar (r : regex) (w : list ascii) : bool :=
  fullmatch r w ||
  match strip_final_newline w with
  | Some w' => fullmatch r w'
  | None => false
  end.

(** The same, as a property of words. *)
Definition MatchesDollar (r : regex) (w : list ascii) : Prop :=
  ∃ u, Matches r u ∧ (w = u ∨ w = u ++ [newline]).

(** [\d+\.\d+\.\d+\.\d+] *)
Definition dot : regex := Chr "."%char.
Definition ipv4_body : regex :=
  Cat (Plus Digit) (Cat dot
  (Cat (Plus Digit) (Cat dot
  (Cat (Plus Digit) (Cat dot
  (Plus Digit)))))).

(** The words of the pattern, spelled out: four non-empty runs of digits
    separated by dots. *)
Definition digits (w : list ascii) : Prop :=
  w ≠ [] ∧ Forall (λ c, is_digit c = true) w.

Definition dotted_quad (w : list ascii) : Prop :=
  ∃ a b c d,
    w = a ++ "."%char :: b ++ "."%char :: c ++ "."%char :: d ∧
    digits a ∧ digits b ∧ digits c ∧ digits d.

End Regex.

Open Scope string_scope.
Open Scope list_scope.

(* ===================================================================== *)
(** * Tables                                                              *)
(* ===================================================================== *)

(** A value held in a table cell. *)
Inductive cell :=
| CStr (s : string)
| CNum (z : Z)
| CInf (negative : bool)
| CNaN.

#[global] Instance cell_eq_dec : EqDecision cell.
Proof. solve_decision. Defined.

(** A table: its column names and its rows, in file order. *)
Record Frame (R : Type) := {
  columns : list string;
  rows : list R
}.
Arguments columns {R} _.
Arguments rows {R} _.

(** A table as [read_csv] returns it; a row shorter than the header is
    padded with NaN. *)
Abbreviation DataFrame := (Frame (list cell)).

Fixpoint col_index (c : string) (cols : list string) : option nat :=
  match cols with
  | [] => None
  | c' :: cols' => if String.eqb c c' then Some 0%nat else S <$> col_index c cols'
  end.

Definition cell_at (cols : list string) (c : string) (r : list cell) : cell :=
  match col_index c cols with
  | Some i => nth i r CNaN
  | None => CNaN
  end.

(** Exceptions the script can meet: a missing file and any other
    failure of [read_csv]; the [ValueError] the script raises itself for
    missing columns; the [KeyError] of a lookup; the [AttributeError] of
    an accessor ([.str]) that a column refuses; the error of
    [astype(int)] on a non-finite value; an exception of [net.show]; an
    exception of any other call into a library or the file system. *)
Inductive exn :=
| FileNotFoundError
| ReadError (msg : string)
| ValueError (required found : list string)
| KeyError (key : string)
| AttributeError (name : string)
| IntCastingNaNError
| ShowError (msg : string)
| LibraryError (what : string).

#[global] Instance exn_eq_dec : EqDecision exn.
Proof. solve_decision. Defined.

Inductive result (A : Type) :=
| Ok (a : A)
| Raise (e : exn).
Arguments Ok {A} a.
Arguments Raise {A} e.

#[global] Instance result_ret : MRet result := λ A a, Ok a.
#[global] Instance result_bind : MBind result := λ A B k m,
  match m with
  | Ok a => k a
  | Raise e => Raise e
  end.

(** [df[c]] as a column of cells. *)
Definition column (df : DataFrame) (c : string) : list cell :=
  cell_at (columns df) c <$> rows df.

(** [df[c]]: a missing column is a [KeyError]. *)
Definition getitem (df : DataFrame) (c : string) : result (list cell) :=
  if bool_decide (c ∈ columns df) then Ok (column df c) else Raise (KeyError c).

(** [all(col in df.columns for col in required)] *)
Definition has_columns (df : DataFrame) (required : list string) : bool :=
  forallb (λ c, bool_decide (c ∈ columns df)) required.

(** A value of a numeric column: finite, kept as the integer that the
    cast to [int] leaves, or one of the two infinities. *)
Inductive number :=
| Finite (z : Z)
| Infinite.

#[global] Instance number_eq_dec : EqDecision number.
Proof. solve_decision. Defined.

(** [series.fillna(v)] on a numeric column; [None] is NaN. *)
Definition fillna (v : number) (col : list (option number)) : list number :=
  default v <$> col.

(** [series.astype(int)]: a non-finite value cannot be cast. *)
Definition astype_int (col : list number) : result (list Z) :=
  mapM (λ x, match x with
             | Finite z => Ok z
             | Infinite => Raise IntCastingNaNError
             end) col.

(** [series == s] against a text constant, cell by cell. *)
Definition series_eq (col : list cell) (s : string) : list bool :=
  (λ c, bool_decide (c = CStr s)) <$> col.

(** [series != s] *)
Definition series_ne (col : list cell) (s : string) : list bool :=
  (λ c, negb (bool_decide (c = CStr s))) <$> col.

(** The [.str] accessor is refused on a column that holds no text: a
    column read from a file has a numeric dtype as soon as it has a row
    and none of its cells is text.  The [AttributeError] is kept by the
    name of the accessor; the wording of its message depends on the
    version of pandas. *)
Definition is_text (c : cell) : bool :=
  match c with CStr _ => true | _ => false end.

Definition str_accessor (col : list cell) : result (list cell) :=
  match col with
  | [] => Ok col
  | _ => if existsb is_text col then Ok col
         else Raise (AttributeError "str")
  end.

(** [re.match(r'^\d+\.\d+\.\d+\.\d+$', s)] *)
Definition ipv4_match (s : string) : bool :=
  Regex.match_dollar Regex.ipv4_body (list_ascii_of_string s).

(** [series.str.match(pattern, na=False)]: a cell that is not text gives
    the [na] value. *)
Definition str_match_na (col : list cell) : list bool :=
  (λ c, match c with CStr s => ipv4_match s | _ => false end) <$> col.

(** [a & b] on boolean columns. *)
Definition series_and (a b : list bool) : list bool := zip_with andb a b.

(** [df[mask]]: the rows whose mask entry is true. *)
Fixpoint select {A} (mask : list bool) (xs : list A) : list A :=
  match mask, xs with
  | b :: mask', x :: xs' => if b then x :: select mask' xs' else select mask' xs'
  | _, _ => []
  end.

(** Rows as the loops of the script read them. *)
Module Pslist.
Record row := { PID : Z; PPID : Z; ImageFileName : cell }.
End Pslist.

Module Netscan.
Record row := { PID : Z; ForeignAddr : cell; ForeignPort : Z; Proto : cell }.
End Netscan.

Definition required_pslist_cols : list string := ["PID"; "PPID"; "ImageFileName"].
Definition required_netscan_cols : list string := ["PID"; "ForeignAddr"; "ForeignPort"].

(** What is printed when a load fails. *)
Inductive error_msg :=
| NotFound (file : string)
| LoadFailed (file : string) (e : exn).

Inductive event :=
| EvVersion (version : string)
| EvColumns (file : string) (cols : list string)
| EvError (msg : error_msg)
| EvSavePng
| EvShowHtml
| EvWarning (e : exn)
| EvWriteHtml
| EvSaved.

Inductive status :=
| Completed
| Exited (code : Z)
| Uncaught (e : exn).

#[global] Instance status_eq_dec : EqDecision status.
Proof. solve_decision. Defined.

Record run := { trace : list event; final : status }.

(** How a load ends: with the table, or in [exit(code)]. *)
Inductive loaded (A : Type) :=
| Loaded (a : A)
| ExitWith (code : Z).
Arguments Loaded {A} a.
Arguments ExitWith {A} code.


(* ===================================================================== *)
(** * The graph                                                           *)
(* ===================================================================== *)

(** Node keys: a process id (an integer) or a foreign address (text). *)
Inductive node :=
| NPid (pid : Z)
| NIp (ip : string).

#[global] Instance node_eq_dec : EqDecision node.
Proof. solve_decision. Defined.

#[global] Instance node_countable : Countable node :=
  inj_countable'
    (λ n, match n with NPid z => inl z | NIp s => inr s end)
    (λ x, match x with inl z => NPid z | inr s => NIp s end)
    (λ n, match n with NPid _ => eq_refl | NIp _ => eq_refl end).

Abbreviation attrs := (gmap string string).

Record DiGraph := {
  g_node : gmap node attrs;
  g_adj : gmap (node * node) attrs
}.

Definition empty_graph : DiGraph := {| g_node := ∅; g_adj := ∅ |}.

(** [G.add_node(n, **a)]: a new node gets [a]; an existing node has its
    attributes updated with [a]. *)
Definition add_node (G : DiGraph) (n : node) (a : attrs) : DiGraph :=
  {| g_node := <[n := a ∪ default ∅ (g_node G !! n)]> (g_node G);
     g_adj := g_adj G |}.

(** A node that [add_edge] meets for the first time is created without
    attributes; an existing one is left as it is. *)
Definition touch_node (n : node) (m : gmap node attrs) : gmap node attrs :=
  match m !! n with
  | Some _ => m
  | None => <[n := ∅]> m
  end.

(** [G.add_edge(u, v, **a)] *)
Definition add_edge (G : DiGraph) (u v : node) (a : attrs) : DiGraph :=
  {| g_node := touch_node v (touch_node u (g_node G));
     g_adj := <[(u, v) := a ∪ default ∅ (g_adj G !! (u, v))]> (g_adj G) |}.

(** [s.startswith(p)] *)
Fixpoint startswith (s p : string) : bool :=
  match p with
  | EmptyString => true
  | String a p' =>
      match s with
      | EmptyString => false
      | String b s' => Ascii.eqb a b && startswith s' p'
      end
  end.

(** Truth value of a cell, as [not ip] takes it. *)
Definition truthy (c : cell) : bool :=
  match c with
  | CStr s => negb (String.eqb s "")
  | CNum z => negb (z =? 0)%Z
  | CInf _ => true
  | CNaN => true
  end.

(** [f"{c}"], for a text or an integer; a float, which Python prints
    with its decimal point, is outside the model. *)
Definition cell_str (c : cell) : string :=
  match c with
  | CStr s => s
  | CNum z => pretty z
  | CInf negative => if negative then "-inf" else "inf"
  | CNaN => "nan"
  end.

(** ** Building the graph *)

(** [f"{name} ({pid})"] *)
Definition proc_label (name : cell) (pid : Z) : string :=
  cell_str name +:+ " (" +:+ pretty pid +:+ ")".

Definition proc_color (net_pids : list Z) (pid : Z) : string :=
  if bool_decide (pid ∈ net_pids) then "red" else "lightblue".

Definition proc_attrs (net_pids : list Z) (row : Pslist.row) : attrs :=
  {[ "label" := proc_label (Pslist.ImageFileName row) (Pslist.PID row);
     "color" := proc_color net_pids (Pslist.PID row);
     "shape" := "circle" ]}.

(** The test guarding [G.add_edge(row["PPID"], pid, style="solid")]. *)
Definition has_parent (ps_pids : list Z) (row : Pslist.row) : bool :=
  bool_decide (Pslist.PPID row ∈ ps_pids) && negb (Pslist.PPID row =? 0)%Z.

(** One iteration of the loop over [pslist_df]. *)
Definition ps_step (ps_pids net_pids : list Z) (G : DiGraph) (row : Pslist.row) : DiGraph :=
  let pid := Pslist.PID row in
  let G := add_node G (NPid pid) (proc_attrs net_pids row) in
  if has_parent ps_pids row
  then add_edge G (NPid (Pslist.PPID row)) (NPid pid) {[ "style" := "solid" ]}
  else G.

Definition ip_color (ip : string) : string :=
  if negb (startswith ip "192.168.") && negb (startswith ip "10.")
  then "orange" else "lightgreen".

Definition ip_attrs (ip : string) : attrs :=
  {[ "label" := ip; "color" := ip_color ip; "shape" := "box" ]}.

Definition conn_attrs (port : Z) : attrs :=
  {[ "style" := "dashed"; "label" := "Port: " +:+ pretty port ]}.

(** [pid == 0 or not ip] *)
Definition skip (row : Netscan.row) : bool :=
  (Netscan.PID row =? 0)%Z || negb (truthy (Netscan.ForeignAddr row)).

(** One iteration of the loop over [netscan_df]; [ip.startswith] exists
    only for text. *)
Definition conn_step (G : DiGraph) (row : Netscan.row) : result DiGraph :=
  let pid := Netscan.PID row in
  if skip row then Ok G
  else match Netscan.ForeignAddr row with
       | CStr ip =>
           let G := add_node G (NIp ip) (ip_attrs ip) in
           Ok (add_edge G (NPid pid) (NIp ip) (conn_attrs (Netscan.ForeignPort row)))
       | _ => Raise (AttributeError "startswith")
       end.

Fixpoint conn_loop (G : DiGraph) (ns : list Netscan.row) : result DiGraph :=
  match ns with
  | [] => Ok G
  | row :: ns' => G' ← conn_step G row; conn_loop G' ns'
  end.

Definition ps_loop (ps_pids net_pids : list Z) (G : DiGraph) (ps : list Pslist.row) : DiGraph :=
  foldl (ps_step ps_pids net_pids) G ps.

Definition build_graph (ps : list Pslist.row) (ns : list Netscan.row) : result DiGraph :=
  let ps_pids := Pslist.PID <$> ps in
  let net_pids := Netscan.PID <$> ns in
  conn_loop (ps_loop ps_pids net_pids empty_graph ps) ns.

(** ** Rendering *)

(** [d[k]] on an attribute dictionary. *)
Definition attr (a : attrs) (k : string) : result string :=
  match a !! k with
  | Some v => Ok v
  | None => Raise (KeyError k)
  end.

(** [[G.nodes[node]["color"] for node in G.nodes]] *)
Definition node_colors (G : DiGraph) : result (list string) :=
  mapM (λ na, attr na.2 "color") (map_to_list (g_node G)).

(** What the interactive renderer is given: the arguments of the calls
    of lines 104 and 106. *)
Record vis_node := { v_id : node; v_label : string; v_color : string; v_shape : string }.
Record vis_edge := { e_source : node; e_target : node; e_dashes : bool; e_title : string }.
Record Network := { net_nodes : list vis_node; net_edges : list vis_edge }.

(** [net.add_node(node, label=data["label"], color=data["color"], shape=data["shape"])] *)
Definition pyvis_node (na : node * attrs) : result vis_node :=
  l ← attr na.2 "label";
  c ← attr na.2 "color";
  s ← attr na.2 "shape";
  mret {| v_id := na.1; v_label := l; v_color := c; v_shape := s |}.

(** [net.add_edge(source, target, dashes=data["style"] == "dashed",
    title=data.get("label", ""))] *)
Definition pyvis_edge (ea : node * node * attrs) : result vis_edge :=
  st ← attr ea.2 "style";
  mret {| e_source := ea.1.1; e_target := ea.1.2;
          e_dashes := String.eqb st "dashed";
          e_title := default "" (ea.2 !! "label") |}.

(** The two loops of lines 103-106 as far as the script itself goes:
    the arguments it computes for every node and every edge, or the
    [KeyError] of a lookup in the attributes.  Whether pyvis takes these
    nodes and edges is not decided here; see [pyvis_raises] and
    [pyvis_fill] below. *)
Definition pyvis_export (G : DiGraph) : result Network :=
  ns ← mapM pyvis_node (map_to_list (g_node G));
  es ← mapM pyvis_edge (map_to_list (g_adj G));
  mret {| net_nodes := ns; net_edges := es |}.

(* ===================================================================== *)
(** * Tactics                                                             *)
(* ===================================================================== *)

(** Steps through a [bind] whose first computation is known. *)
Ltac step_bind := unfold mbind, result_bind; cbv beta iota.


(** Membership in, and absence from, a list that evaluates. *)
Ltac in_list := apply list_elem_of_In; vm_compute; tauto.
(** No element of a list that is written out has a property that
    evaluates to a falsehood. *)
Ltac not_exists :=
  let H := fresh in
  intros H;
  repeat (apply Exists_cons in H as [H | H]; [vm_compute in H; discriminate H|]);
  by apply Exists_nil in H.

Ltac not_in_list :=
  let H := fresh in
  intros H; apply list_elem_of_In in H; vm_compute in H;
  repeat destruct H as [H | H]; solve [discriminate H | exact H].

(** A reading of plain decimal integers, with an optional minus sign,
    and of a few spellings of the infinities; it stands in for pandas'
    numeric parser when the script is run on the examples below. *)
Fixpoint digits_value (acc : Z) (s : string) : option Z :=
  match s with
  | EmptyString => Some acc
  | String c s' =>
      if Regex.is_digit c
      then digits_value (10 * acc + (Z.of_nat (nat_of_ascii c) - 48)) s'
      else None
  end.

Definition decimal_to_int (s : string) : option Z :=
  match s with
  | EmptyString => None
  | String "-"%char EmptyString => None
  | String "-"%char s' => Z.opp <$> digits_value 0 s'
  | _ => digits_value 0 s
  end.

Definition decimal_to_num (s : string) : option number :=
  if bool_decide (s ∈ ["inf"; "-inf"; "Infinity"; "-Infinity"])
  then Some Infinite
  else Finite <$> decimal_to_int s.

(* ===================================================================== *)
(** * The script                                                          *)
(* ===================================================================== *)

Section Script.

(** How pandas reads a text cell as a number: a finite number, already
    truncated to an integer, or an infinity; [None] when the text is not
    numeric.  The script relies on [pd.to_numeric] for this and nothing
    below depends on which texts are numeric. *)
Variable str_to_num : string → option number.

(** The number in a cell, if any. *)
Definition to_number (c : cell) : option number :=
  match c with
  | CStr s => str_to_num s
  | CNum z => Some (Finite z)
  | CInf _ => Some Infinite
  | CNaN => None
  end.

(** [pd.to_numeric(series, errors="coerce")]: what cannot be read as a
    number becomes NaN ([None]). *)
Definition to_numeric_coerce (col : list cell) : list (option number) :=
  to_number <$> col.

(** [pd.to_numeric(df[c], errors="coerce").fillna(0).astype(int)]: the
    cast raises when an infinity is left in the column. *)
Definition int_column (df : DataFrame) (c : string) : result (list Z) :=
  astype_int (fillna (Finite 0) (to_numeric_coerce (column df c))).

(** ** Loading pslist.csv (the body of the first [try]) *)

(** The table with its two converted columns put back. *)
Definition pslist_table (pid ppid : list Z) (name : list cell) : list Pslist.row :=
  zip_with (λ '(pid, ppid) name, Pslist.Build_row pid ppid name) (zip pid ppid) name.

Definition load_pslist_body (read : result DataFrame) : result (Frame Pslist.row) :=
  df ← read;
  if negb (has_columns df required_pslist_cols)
  then Raise (ValueError required_pslist_cols (columns df))
  else
    pid ← int_column df "PID";
    ppid ← int_column df "PPID";
    Ok {| columns := columns df;
          rows := pslist_table pid ppid (column df "ImageFileName") |}.

(** ** Loading netscan.csv (the body of the second [try]) *)

(** The table with its two converted columns put back. *)
Definition netscan_table (pid port : list Z) (addr proto : list cell) : list Netscan.row :=
  zip_with (λ '(pid, addr) '(port, proto), Netscan.Build_row pid addr port proto)
    (zip pid addr) (zip port proto).

(** The two conversions come first, the filter after them. *)
Definition load_netscan_body (read : result DataFrame) : result (Frame Netscan.row) :=
  df ← read;
  if negb (has_columns df required_netscan_cols)
  then Raise (ValueError required_netscan_cols (columns df))
  else
    pid ← int_column df "PID";
    port ← int_column df "ForeignPort";
    proto ← getitem df "Proto";
    let is_tcp := series_eq proto "TCPv4" in
    addr ← getitem df "ForeignAddr";
    addr_str ← str_accessor addr;
    let is_ip := str_match_na addr_str in
    let not_any := series_ne addr "0.0.0.0" in
    let mask := series_and (series_and is_tcp is_ip) not_any in
    Ok {| columns := columns df;
          rows := select mask (netscan_table pid port addr proto) |}.

(** ** The two [except] clauses of a load: print and [exit(1)] *)

(** The debug line with the column names, printed once the file is read. *)
Definition debug_of (file : string) (read : result DataFrame) : list event :=
  match read with
  | Ok df => [EvColumns file (columns df)]
  | Raise _ => []
  end.

(** [except FileNotFoundError] comes first, [except Exception] takes the
    rest. *)
Definition error_of (file : string) (e : exn) : error_msg :=
  match e with
  | FileNotFoundError => NotFound file
  | _ => LoadFailed file e
  end.

Definition load {A} (file : string) (read : result DataFrame)
    (body : result DataFrame → result A) : list event * loaded A :=
  match body read with
  | Ok a => (debug_of file read, Loaded a)
  | Raise e => (debug_of file read ++ [EvError (error_of file e)], ExitWith 1)
  end.

Definition pslist_file : string := "volatility_output/pslist.csv".
Definition netscan_file : string := "volatility_output/netscan.csv".

Definition load_pslist (read : result DataFrame) : list event * loaded (Frame Pslist.row) :=
  load pslist_file read load_pslist_body.

Definition load_netscan (read : result DataFrame) : list event * loaded (Frame Netscan.row) :=
  load netscan_file read load_netscan_body.

(** ** The whole run *)

(** What the run depends on outside the script: whether the imports of
    lines 1-6 or the reading of [pyvis.__version__] raise, the version
    pyvis reports, whether [os.makedirs] raises, the two files as
    [read_csv] finds them, and whether a call into a rendering library
    raises on what it is given.  None of the calls of lines 86-106 is
    inside a [try].
    - [layout_raises G]: [plt.figure] and [nx.spring_layout(G)], lines
      86-87, before the colours are looked up;
    - [draw_raises G]: the drawing calls and [plt.savefig], lines 89-98
      (matplotlib reads a label with a dollar sign as mathtext, and
      raises on a malformed one);
    - [pyvis_raises net]: [plt.close], the creation of the pyvis network
      and its [add_node] and [add_edge] on the nodes and edges of [net],
      lines 99-106 (pyvis asserts that a node id is a [str] or an [int]);
    - [show_raises]: [net.show], line 109, any [Exception];
    - [fallback_raises]: [net.generate_html] and the writing of the file
      in the [except] clause, lines 112-114. *)
Record env := {
  import_raises : option exn;
  pyvis_version : string;
  makedirs_raises : option exn;
  read_csv : string → result DataFrame;
  layout_raises : DiGraph → option exn;
  draw_raises : DiGraph → option exn;
  pyvis_raises : Network → option exn;
  show_raises : option exn;
  fallback_raises : option exn
}.

Definition stop (t : list event) (s : status) : run := {| trace := t; final := s |}.

(** The last [try]: [net.show], and on any exception a warning followed
    by writing the generated HTML by hand.  The second component is the
    exception that escapes when the [except] clause raises itself. *)
Definition show_html (e : env) : list event * option exn :=
  match show_raises e with
  | None => ([EvShowHtml], None)
  | Some ex =>
      match fallback_raises e with
      | None => ([EvWarning ex; EvWriteHtml], None)
      | Some ex' => ([EvWarning ex], Some ex')
      end
  end.

(** Lines 102-106: the attribute lookups of [pyvis_export], and pyvis
    taking the nodes and edges.  In the source a lookup and the call
    that uses it alternate, node by node and edge by edge; which of a
    failing lookup and a refusal by pyvis comes first is not modelled.
    In [render] the question does not arise: the lookups cannot fail
    once the colour lookups of line 88 have succeeded. *)
Definition pyvis_fill (e : env) (G : DiGraph) : result Network :=
  net ← pyvis_export G;
  match pyvis_raises e net with
  | Some ex => Raise ex
  | None => Ok net
  end.

(** Lines 86-116, after [t] has been printed. *)
Definition render (e : env) (t : list event) (G : DiGraph) : run :=
  match layout_raises e G with
  | Some ex => stop t (Uncaught ex)
  | None =>
      match node_colors G with
      | Raise ex => stop t (Uncaught ex)
      | Ok _ =>
          match draw_raises e G with
          | Some ex => stop t (Uncaught ex)
          | None =>
              match pyvis_fill e G with
              | Raise ex => stop (t ++ [EvSavePng]) (Uncaught ex)
              | Ok _ =>
                  match show_html e with
                  | (t', Some ex) => stop (t ++ [EvSavePng] ++ t') (Uncaught ex)
                  | (t', None) => stop (t ++ [EvSavePng] ++ t' ++ [EvSaved]) Completed
                  end
              end
          end
      end
  end.

(** Lines 20-116: the two loads, the graph and the two renderings. *)
Definition main (e : env) : run :=
  let '(t1, ps) := load_pslist (read_csv e pslist_file) in
  match ps with
  | ExitWith code => stop t1 (Exited code)
  | Loaded pslist_df =>
      let '(t2, ns) := load_netscan (read_csv e netscan_file) in
      match ns with
      | ExitWith code => stop (t1 ++ t2) (Exited code)
      | Loaded netscan_df =>
          match build_graph (rows pslist_df) (rows netscan_df) with
          | Raise ex => stop (t1 ++ t2) (Uncaught ex)
          | Ok G => render e (t1 ++ t2) G
          end
      end
  end.

(** The script from its first line: the imports, the version line, the
    output directory, then [main]. *)
Definition script (e : env) : run :=
  match import_raises e with
  | Some ex => stop [] (Uncaught ex)
  | None =>
      match makedirs_raises e with
      | Some ex => stop [EvVersion (pyvis_version e)] (Uncaught ex)
      | None =>
          stop (EvVersion (pyvis_version e) :: trace (main e)) (final (main e))
      end
  end.

(** ** The rows, nodes and edges the properties speak about *)

(** The three conditions of the connection filter, on one row: the
    protocol is the text TCPv4, the foreign address is text matching
    [^\d+\.\d+\.\d+\.\d+$], and it is not the text 0.0.0.0. *)
Definition retained_row (r : Netscan.row) : Prop :=
  Netscan.Proto r = CStr "TCPv4" ∧
  (∃ s, Netscan.ForeignAddr r = CStr s ∧
        Regex.MatchesDollar Regex.ipv4_body (list_ascii_of_string s)) ∧
  Netscan.ForeignAddr r ≠ CStr "0.0.0.0".

(** Connection rows whose PID is not zero. *)
Definition nonzero_conns (ns : list Netscan.row) : list Netscan.row :=
  List.filter (λ r, negb (Netscan.PID r =? 0)%Z) ns.

(** The foreign address of a row, when it is text. *)
Definition addr_text (r : Netscan.row) : option string :=
  match Netscan.ForeignAddr r with
  | CStr s => Some s
  | _ => None
  end.

Definition pslist_pid_nodes (ps : list Pslist.row) : gset node :=
  list_to_set ((λ r, NPid (Pslist.PID r)) <$> ps).

Definition conn_ip_nodes (ns : list Netscan.row) : gset node :=
  list_to_set (omap (λ r, NIp <$> addr_text r) (nonzero_conns ns)).

Definition conn_pid_nodes (ns : list Netscan.row) : gset node :=
  list_to_set ((λ r, NPid (Netscan.PID r)) <$> nonzero_conns ns).

(** A row has a parent edge when its PPID is not zero and is the PID of
    some row of the table. *)
Definition parent_edges (ps : list Pslist.row) : gset (node * node) :=
  list_to_set
    ((λ r, (NPid (Pslist.PPID r), NPid (Pslist.PID r))) <$>
     List.filter (λ r, bool_decide (Pslist.PPID r ≠ 0 ∧ Pslist.PPID r ∈ Pslist.PID <$> ps)) ps).

Definition conn_edges (ns : list Netscan.row) : gset (node * node) :=
  list_to_set
    (omap (λ r, (λ s, (NPid (Netscan.PID r), NIp s)) <$> addr_text r) (nonzero_conns ns)).

(** ** Notions used in the statements and proofs *)

(** A node carries a given value for an attribute. *)
Definition has_attr (G : DiGraph) (n : node) (key v : string) : Prop :=
  ∃ a, g_node G !! n = Some a ∧ a !! key = Some v.

(** The foreign address of a row is a non-empty text. *)
Definition addr_ok (r : Netscan.row) : Prop :=
  ∃ s, Netscan.ForeignAddr r = CStr s ∧ s ≠ "".

(** The integer a cell of a converted column ends up as, when the
    conversion of the column goes through. *)
Definition coerce_int (c : cell) : Z :=
  match to_number c with
  | Some (Finite z) => z
  | _ => 0
  end.

Definition pslist_row_of (cols : list string) (raw : list cell) : Pslist.row :=
  {| Pslist.PID := coerce_int (cell_at cols "PID" raw);
     Pslist.PPID := coerce_int (cell_at cols "PPID" raw);
     Pslist.ImageFileName := cell_at cols "ImageFileName" raw |}.

Definition netscan_row_of (cols : list string) (raw : list cell) : Netscan.row :=
  {| Netscan.PID := coerce_int (cell_at cols "PID" raw);
     Netscan.ForeignAddr := cell_at cols "ForeignAddr" raw;
     Netscan.ForeignPort := coerce_int (cell_at cols "ForeignPort" raw);
     Netscan.Proto := cell_at cols "Proto" raw |}.

(** The rows of the connection table, PID and ForeignPort converted. *)
Definition netscan_rows (df : DataFrame) : list Netscan.row :=
  netscan_row_of (columns df) <$> rows df.

(** A cell that the cast to [int] refuses: an infinity, or a text that
    reads as one. *)
Definition non_finite (c : cell) : Prop := to_number c = Some Infinite.

(** A column with such a cell. *)
Definition has_non_finite (df : DataFrame) (c : string) : Prop :=
  Exists (λ raw, non_finite (cell_at (columns df) c raw)) (rows df).

#[local] Instance non_finite_decision c : Decision (non_finite c).
Proof. unfold non_finite. apply _. Defined.

#[local] Instance has_non_finite_decision df c : Decision (has_non_finite df c).
Proof. unfold has_non_finite. apply _. Defined.

(** The filter, row by row. *)
Definition keep_row (r : Netscan.row) : bool :=
  bool_decide (Netscan.Proto r = CStr "TCPv4") &&
  match Netscan.ForeignAddr r with CStr s => ipv4_match s | _ => false end &&
  negb (bool_decide (Netscan.ForeignAddr r = CStr "0.0.0.0")).

(** A column the [.str] accessor refuses: it has rows and none is text. *)
Definition no_text (col : list cell) : Prop :=
  col ≠ [] ∧ Forall (λ c, is_text c = false) col.

#[local] Instance no_text_decision col : Decision (no_text col).
Proof. unfold no_text. apply _. Defined.

(** Both loads got through. *)
Definition loads (read_ps read_ns : result DataFrame)
    (pslist_df : Frame Pslist.row) (netscan_df : Frame Netscan.row) : Prop :=
  load_pslist_body read_ps = Ok pslist_df ∧ load_netscan_body read_ns = Ok netscan_df.

(** Every edge is either the solid edge of a row with a parent, or a
    dashed edge from a process to an address. *)
Definition edge_sound (ps : list Pslist.row) (G : DiGraph) : Prop :=
  ∀ u v a, g_adj G !! (u, v) = Some a →
    (∃ r, r ∈ ps ∧ has_parent (Pslist.PID <$> ps) r = true ∧
          u = NPid (Pslist.PPID r) ∧ v = NPid (Pslist.PID r) ∧
          a !! "style" = Some "solid") ∨
    (∃ p s, u = NPid p ∧ v = NIp s ∧ a !! "style" = Some "dashed").

(** A cell that [pd.to_numeric(..., errors="coerce")] turns into NaN:
    a missing value, or a text that is not a number. *)
Definition not_numeric (c : cell) : Prop :=
  c = CNaN ∨ ∃ s, c = CStr s ∧ str_to_num s = None.


(** Connections from a nonzero PID all come from listed processes. *)
Definition all_listed (ps : list Pslist.row) (ns : list Netscan.row) : Prop :=
  ∀ r, r ∈ ns → Netscan.PID r ≠ 0 → Netscan.PID r ∈ Pslist.PID <$> ps.

(** The run gets as far as the static rendering: the imports and
    [os.makedirs] went through, both tables are loaded and the graph is
    built. *)
Definition graph_built (e : env)
    (pslist_df : Frame Pslist.row) (netscan_df : Frame Netscan.row) (G : DiGraph) : Prop :=
  import_raises e = None ∧ makedirs_raises e = None ∧
  loads (read_csv e pslist_file) (read_csv e netscan_file) pslist_df netscan_df ∧
  build_graph (rows pslist_df) (rows netscan_df) = Ok G.

(** The two column lines. *)
Definition columns_printed
    (pslist_df : Frame Pslist.row) (netscan_df : Frame Netscan.row) : list event :=
  [EvColumns pslist_file (columns pslist_df);
   EvColumns netscan_file (columns netscan_df)].

(** What has been printed by the time the graph is built. *)
Definition printed (e : env)
    (pslist_df : Frame Pslist.row) (netscan_df : Frame Netscan.row) : list event :=
  EvVersion (pyvis_version e) :: columns_printed pslist_df netscan_df.

(** The run gets as far as [net.show]: nothing before it raised.  [d]
    is what has been printed by then. *)
Definition reaches_show (e : env) (d : list event) : Prop :=
  ∃ pslist_df netscan_df G net,
    graph_built e pslist_df netscan_df G ∧
    d = printed e pslist_df netscan_df ∧
    layout_raises e G = None ∧
    all_listed (rows pslist_df) (rows netscan_df) ∧
    draw_raises e G = None ∧
    pyvis_export G = Ok net ∧
    pyvis_raises e net = None.

(** The ways the script can end, stage by stage. *)
Inductive outcome (e : env) : run → Prop :=
| out_import ex :
    import_raises e = Some ex →
    outcome e (stop [] (Uncaught ex))
| out_makedirs ex :
    import_raises e = None → makedirs_raises e = Some ex →
    outcome e (stop [EvVersion (pyvis_version e)] (Uncaught ex))
| out_pslist ex :
    import_raises e = None → makedirs_raises e = None →
    load_pslist_body (read_csv e pslist_file) = Raise ex →
    outcome e (stop (EvVersion (pyvis_version e) ::
                     debug_of pslist_file (read_csv e pslist_file) ++
                     [EvError (error_of pslist_file ex)]) (Exited 1))
| out_netscan pslist_df ex :
    import_raises e = None → makedirs_raises e = None →
    load_pslist_body (read_csv e pslist_file) = Ok pslist_df →
    load_netscan_body (read_csv e netscan_file) = Raise ex →
    outcome e (stop (EvVersion (pyvis_version e) ::
                     debug_of pslist_file (read_csv e pslist_file) ++
                     debug_of netscan_file (read_csv e netscan_file) ++
                     [EvError (error_of netscan_file ex)]) (Exited 1))
| out_layout pslist_df netscan_df G ex :
    graph_built e pslist_df netscan_df G →
    layout_raises e G = Some ex →
    outcome e (stop (printed e pslist_df netscan_df) (Uncaught ex))
| out_color pslist_df netscan_df G r :
    graph_built e pslist_df netscan_df G →
    layout_raises e G = None →
    r ∈ rows netscan_df → Netscan.PID r ≠ 0 →
    Netscan.PID r ∉ Pslist.PID <$> rows pslist_df →
    outcome e (stop (printed e pslist_df netscan_df) (Uncaught (KeyError "color")))
| out_draw pslist_df netscan_df G ex :
    graph_built e pslist_df netscan_df G →
    layout_raises e G = None →
    all_listed (rows pslist_df) (rows netscan_df) →
    draw_raises e G = Some ex →
    outcome e (stop (printed e pslist_df netscan_df) (Uncaught ex))
| out_pyvis pslist_df netscan_df G net ex :
    graph_built e pslist_df netscan_df G →
    layout_raises e G = None →
    all_listed (rows pslist_df) (rows netscan_df) →
    draw_raises e G = None →
    pyvis_export G = Ok net →
    pyvis_raises e net = Some ex →
    outcome e (stop (printed e pslist_df netscan_df ++ [EvSavePng]) (Uncaught ex))
| out_show d :
    reaches_show e d → show_raises e = None →
    outcome e (stop (d ++ [EvSavePng; EvShowHtml; EvSaved]) Completed)
| out_fallback d ex :
    reaches_show e d → show_raises e = Some ex → fallback_raises e = None →
    outcome e (stop (d ++ [EvSavePng; EvWarning ex; EvWriteHtml; EvSaved]) Completed)
| out_fallback_raises d ex ex' :
    reaches_show e d → show_raises e = Some ex → fallback_raises e = Some ex' →
    outcome e (stop (d ++ [EvSavePng; EvWarning ex]) (Uncaught ex')).

(** ** Reading attributes back, as the static rendering does *)

(** [nx.get_node_attributes(G, name)]: the nodes that have the attribute,
    with its value. *)
Definition get_node_attributes (G : DiGraph) (name : string) : gmap node string :=
  omap (λ a : attrs, a !! name) (g_node G).

(** [nx.get_edge_attributes(G, name)] *)
Definition get_edge_attributes (G : DiGraph) (name : string) : gmap (node * node) string :=
  omap (λ a : attrs, a !! name) (g_adj G).

(** [edge_styles.get(edge, "solid")] with
    [edge_styles = nx.get_edge_attributes(G, "style")]. *)
Definition drawn_style (G : DiGraph) (e : node * node) : string :=
  default "solid" (get_edge_attributes G "style" !! e).

(** The attributes of the solid edges. *)
Definition solid_attrs : attrs := {[ "style" := "solid" ]}.

(** [r] is the last row of [ps] with its PID. *)
Definition last_with_pid (ps : list Pslist.row) (r : Pslist.row) : Prop :=
  ∃ l1 l2, ps = l1 ++ r :: l2 ∧ Forall (λ r', Pslist.PID r' ≠ Pslist.PID r) l2.

(** The edge a connection row adds, when it is not skipped. *)
Definition conn_key (r : Netscan.row) : option (node * node) :=
  if skip r then None
  else (λ s, (NPid (Netscan.PID r), NIp s)) <$> addr_text r.

(** [r] is the last row of [ns] that adds its edge. *)
Definition last_with_edge (ns : list Netscan.row) (r : Netscan.row) : Prop :=
  ∃ l1 l2, ns = l1 ++ r :: l2 ∧ is_Some (conn_key r) ∧
           Forall (λ r', conn_key r' ≠ conn_key r) l2.

(** What the first loop can have put on a process node. *)
Definition proc_like (N : list Z) (a : attrs) : Prop :=
  a = ∅ ∨ ∃ r, a = proc_attrs N r.

Definition pid_nodes_proc_like (N : list Z) (G : DiGraph) : Prop :=
  ∀ p a, g_node G !! NPid p = Some a → proc_like N a.

(** The second loop leaves exactly [ip_attrs] on an address node. *)
Definition ip_nodes_exact (G : DiGraph) : Prop :=
  ∀ s a, g_node G !! NIp s = Some a → a = ip_attrs s.

(** What the loops leave on an edge: the solid attributes on an edge
    into a process, the attributes of some connection on an edge into an
    address. *)
Definition edge_exact (G : DiGraph) : Prop :=
  ∀ u v a, g_adj G !! (u, v) = Some a →
    match v with
    | NPid _ => a = solid_attrs
    | NIp _ => ∃ port, a = conn_attrs port
    end.

(** ** Example inputs *)

(** A process table with a repeated PID (700), a parent that is not
    listed (9999) and a row without PID and PPID. *)
Definition ex_pslist : DataFrame :=
  {| columns := ["PID"; "PPID"; "ImageFileName"; "Threads"];
     rows := [ [CNum 4; CNum 0; CStr "System"; CNum 120];
               [CNum 500; CNum 4; CStr "smss.exe"; CNum 2];
               [CNum 612; CNum 500; CStr "chrome.exe"; CNum 30];
               [CNum 700; CNum 4; CStr "svchost.exe"; CNum 8];
               [CNum 700; CNum 9999; CStr "evil.exe"; CNum 1];
               [CNaN; CNaN; CStr "ghost"; CNaN] ] |}.

(** A connection table whose PID column is text because of a dash. *)
Definition ex_netscan : DataFrame :=
  {| columns := ["Proto"; "ForeignAddr"; "ForeignPort"; "PID"];
     rows := [ [CStr "TCPv4"; CStr "93.184.216.34"; CNum 443; CStr "612"];
               [CStr "TCPv4"; CStr "192.168.1.10"; CNum 445; CStr "612"];
               [CStr "TCPv4"; CStr "10.0.0.5"; CNum 80; CStr "-"];
               [CStr "TCPv4"; CStr "0.0.0.0"; CNum 0; CStr "4"];
               [CStr "UDPv4"; CStr "*"; CNaN; CStr "700"];
               [CStr "TCPv6"; CStr "::"; CNum 0; CStr "4"];
               [CStr "TCPv4"; CStr "93.184.216.34"; CNum 80; CStr "612"] ] |}.

(** A connection from a process (999) that the process table does not
    list. *)
Definition ex_netscan_unlisted : DataFrame :=
  {| columns := ["Proto"; "ForeignAddr"; "ForeignPort"; "PID"];
     rows := [ [CStr "TCPv4"; CStr "8.8.8.8"; CNum 53; CNum 999] ] |}.

(** A connection table with the three required columns and no Proto. *)
Definition ex_netscan_no_proto : DataFrame :=
  {| columns := ["PID"; "ForeignAddr"; "ForeignPort"];
     rows := [ [CNum 612; CStr "93.184.216.34"; CNum 443] ] |}.

(** The two files of a run. *)
Definition ex_files (ps ns : result DataFrame) (path : string) : result DataFrame :=
  if String.eqb path pslist_file then ps
  else if String.eqb path netscan_file then ns
  else Raise FileNotFoundError.

(** An environment in which no import, directory or library call
    raises. *)
Definition ex_env (ps ns : result DataFrame) : env :=
  {| import_raises := None;
     pyvis_version := "0.3.2";
     makedirs_raises := None;
     read_csv := ex_files ps ns;
     layout_raises := λ _, None;
     draw_raises := λ _, None;
     pyvis_raises := λ _, None;
     show_raises := None;
     fallback_raises := None |}.

(** Both files are fine and [net.show] raises. *)
Definition ex_env_show_fails : env :=
  {| import_raises := None;
     pyvis_version := "0.3.2";
     makedirs_raises := None;
     read_csv := ex_files (Ok ex_pslist) (Ok ex_netscan);
     layout_raises := λ _, None;
     draw_raises := λ _, None;
     pyvis_raises := λ _, None;
     show_raises := Some (ShowError "no browser");
     fallback_raises := None |}.

(** The process table is missing. *)
Definition ex_env_no_pslist : env := ex_env (Raise FileNotFoundError) (Ok ex_netscan).

(** A connection from an unlisted process. *)
Definition ex_env_unlisted : env := ex_env (Ok ex_pslist) (Ok ex_netscan_unlisted).

(** Both files are fine and pyvis refuses a node. *)
Definition ex_env_pyvis_fails : env :=
  {| import_raises := None;
     pyvis_version := "0.3.2";
     makedirs_raises := None;
     read_csv := ex_files (Ok ex_pslist) (Ok ex_netscan);
     layout_raises := λ _, None;
     draw_raises := λ _, None;
     pyvis_raises := λ _, Some (LibraryError "pyvis add_node");
     show_raises := None;
     fallback_raises := None |}.

(** A process table whose PID column holds an infinity. *)
Definition ex_pslist_inf : DataFrame :=
  {| columns := ["PID"; "PPID"; "ImageFileName"];
     rows := [ [CNum 4; CNum 0; CStr "System"];
               [CStr "inf"; CNum 4; CStr "smss.exe"] ] |}.

(** A connection table without Proto whose port column holds an
    infinity. *)
Definition ex_netscan_inf : DataFrame :=
  {| columns := ["PID"; "ForeignAddr"; "ForeignPort"];
     rows := [ [CNum 612; CStr "93.184.216.34"; CInf false] ] |}.

(* ===================================================================== *)
(** * The matcher against the language of the pattern                     *)
(* ===================================================================== *)

Lemma cat_inv r1 r2 w :
  Regex.Matches (Regex.Cat r1 r2) w →
  ∃ w1 w2, w = w1 ++ w2 ∧ Regex.Matches r1 w1 ∧ Regex.Matches r2 w2.
Proof. inversion 1; subst; eauto. Qed.

Lemma alt_inv r1 r2 w :
  Regex.Matches (Regex.Alt r1 r2) w → Regex.Matches r1 w ∨ Regex.Matches r2 w.
Proof. inversion 1; subst; eauto. Qed.

Lemma chr_inv c w : Regex.Matches (Regex.Chr c) w → w = [c].
Proof. by inversion 1. Qed.

Lemma digit_inv w :
  Regex.Matches Regex.Digit w → ∃ c, w = [c] ∧ Regex.is_digit c = true.
Proof. inversion 1; subst; eauto. Qed.

Lemma nullable_spec r : Regex.nullable r = true ↔ Regex.Matches r [].
Proof.
  induction r; simpl.
  - split; [done | inversion 1].
  - split; [constructor | done].
  - split; [done | inversion 1].
  - split; [done | inversion 1].
  - rewrite orb_true_iff, IHr1, IHr2. split.
    + intros [H | H]; [by apply Regex.MAltL | by apply Regex.MAltR].
    + apply alt_inv.
  - rewrite andb_true_iff, IHr1, IHr2. split.
    + intros [H1 H2]. by apply (Regex.MCat _ _ [] []).
    + intros (w1 & w2 & Hw & H1 & H2)%cat_inv.
      symmetry in Hw. apply app_eq_nil in Hw as [-> ->]. done.
  - split; [constructor | done].
Qed.

Lemma star_cons_inv r a w :
  Regex.Matches (Regex.Star r) (a :: w) →
  ∃ w1 w2, w = w1 ++ w2 ∧ Regex.Matches r (a :: w1) ∧ Regex.Matches (Regex.Star r) w2.
Proof.
  intros H. remember (Regex.Star r) as s eqn:Hs. remember (a :: w) as v eqn:Hv.
  revert w Hv. induction H as [| | | | | | |r' u1 u2 H1 _ H2 IH2]; intros v' Hv; try discriminate.
  injection Hs as ->.
  destruct u1 as [|b u1]; simpl in Hv.
  - by apply IH2.
  - injection Hv as -> <-. by exists u1, u2.
Qed.

Lemma deriv_spec a r w :
  Regex.Matches (Regex.deriv a r) w ↔ Regex.Matches r (a :: w).
Proof.
  revert w. induction r as [| |c| |r1 IH1 r2 IH2|r1 IH1 r2 IH2|r IH]; intros w; simpl.
  - split; inversion 1.
  - split; inversion 1.
  - destruct (Ascii.eqb_spec a c) as [->|Hne].
    + split; inversion 1; subst; constructor.
    + split; inversion 1; subst; congruence.
  - destruct (Regex.is_digit a) eqn:Hd.
    + split; inversion 1; subst; by constructor.
    + split; inversion 1; subst; congruence.
  - split.
    + intros [H | H]%alt_inv; [apply Regex.MAltL, IH1 | apply Regex.MAltR, IH2]; done.
    + intros [H | H]%alt_inv; [apply Regex.MAltL, IH1 | apply Regex.MAltR, IH2]; done.
  - assert (Hcat : ∀ u, Regex.Matches (Regex.Cat (Regex.deriv a r1) r2) u →
                        Regex.Matches (Regex.Cat r1 r2) (a :: u)).
    { intros u (w1 & w2 & -> & H1 & H2)%cat_inv.
      apply IH1 in H1. by apply (Regex.MCat _ _ (a :: w1) w2). }
    assert (Hsplit : Regex.Matches (Regex.Cat r1 r2) (a :: w) →
                     Regex.Matches (Regex.Cat (Regex.deriv a r1) r2) w ∨
                     (Regex.Matches r1 [] ∧ Regex.Matches (Regex.deriv a r2) w)).
    { intros (w1 & w2 & Hw & H1 & H2)%cat_inv.
      destruct w1 as [|b w1]; simpl in Hw.
      - subst w2. right. split; [done | by apply IH2].
      - injection Hw as <- ->. left. constructor; [by apply IH1 | done]. }
    destruct (Regex.nullable r1) eqn:Hn.
    + split.
      * intros [H | H]%alt_inv; [by apply Hcat|].
        apply nullable_spec in Hn. apply IH2 in H.
        by apply (Regex.MCat _ _ [] (a :: w)).
      * intros [H | [_ H]]%Hsplit; [by apply Regex.MAltL | by apply Regex.MAltR].
    + split; [apply Hcat|].
      intros [H | [H _]]%Hsplit; [done|].
      apply nullable_spec in H. congruence.
  - split.
    + intros (w1 & w2 & -> & H1 & H2)%cat_inv.
      apply IH in H1. by apply (Regex.MStarApp _ (a :: w1) w2).
    + intros H. apply star_cons_inv in H as (w1 & w2 & -> & H1 & H2).
      constructor; [by apply IH | done].
Qed.

Lemma fullmatch_spec r w : Regex.fullmatch r w = true ↔ Regex.Matches r w.
Proof.
  revert r. induction w as [|a w IH]; intros r; simpl.
  - apply nullable_spec.
  - rewrite IH. apply deriv_spec.
Qed.

Lemma strip_final_newline_spec w u :
  Regex.strip_final_newline w = Some u ↔ w = u ++ [Regex.newline].
Proof.
  revert u. induction w as [|c w IH]; intros u.
  - split; [done | by destruct u].
  - destruct w as [|d w].
    + simpl. destruct (Ascii.eqb_spec c Regex.newline) as [->|Hne].
      * split; [by intros [= <-]|]. destruct u as [|? [|]]; by intros [=].
      * split; [done|]. destruct u as [|? [|]]; intros [=]; congruence.
    + change (Regex.strip_final_newline (c :: d :: w))
        with (cons c <$> Regex.strip_final_newline (d :: w)).
      split.
      * destruct (Regex.strip_final_newline (d :: w)) as [u'|] eqn:Hs; [|done].
        intros [= <-]. by rewrite (proj1 (IH u') eq_refl).
      * destruct u as [|c' u]; [by intros [=]|]. intros [= -> Hu].
        apply IH in Hu. by rewrite Hu.
Qed.

Lemma match_dollar_spec r w :
  Regex.match_dollar r w = true ↔ Regex.MatchesDollar r w.
Proof.
  unfold Regex.match_dollar, Regex.MatchesDollar. rewrite orb_true_iff. split.
  - intros [H | H].
    + exists w. split; [by apply fullmatch_spec | by left].
    + destruct (Regex.strip_final_newline w) as [u|] eqn:Hs; [|done].
      exists u. split; [by apply fullmatch_spec|]. right. by apply strip_final_newline_spec.
  - intros (u & Hu & [-> | ->]).
    + left. by apply fullmatch_spec.
    + right. assert (Hs : Regex.strip_final_newline (u ++ [Regex.newline]) = Some u)
        by by apply strip_final_newline_spec.
      rewrite Hs. by apply fullmatch_spec.
Qed.

Lemma star_digit_spec w :
  Regex.Matches (Regex.Star Regex.Digit) w ↔ Forall (λ c, Regex.is_digit c = true) w.
Proof.
  split.
  - intros H. remember (Regex.Star Regex.Digit) as r eqn:Hr.
    induction H as [| | | | | | |r' u1 u2 H1 _ H2 IH2]; try discriminate.
    + constructor.
    + injection Hr as ->. apply digit_inv in H1 as (c & -> & Hc).
      constructor; [done | by apply IH2].
  - induction 1 as [|c w Hc _ IH]; [constructor|].
    apply (Regex.MStarApp _ [c] w); [by constructor | done].
Qed.

Lemma plus_digit_spec w :
  Regex.Matches (Regex.Plus Regex.Digit) w ↔ Regex.digits w.
Proof.
  unfold Regex.Plus, Regex.digits. split.
  - intros (w1 & w2 & -> & (c & -> & Hc)%digit_inv & H2%star_digit_spec)%cat_inv.
    split; [done | by constructor].
  - intros [Hne Hall]. destruct Hall as [|c w Hc Hw]; [done|].
    apply (Regex.MCat _ _ [c] w); [by constructor | by apply star_digit_spec].
Qed.

(** The language of the pattern is the set of dotted quads. *)
Lemma ipv4_body_spec w : Regex.Matches Regex.ipv4_body w ↔ Regex.dotted_quad w.
Proof.
  unfold Regex.ipv4_body, Regex.dotted_quad, Regex.dot. split.
  - intros (a & ? & -> & Ha%plus_digit_spec &
            (? & ? & -> & ->%chr_inv &
            (b & ? & -> & Hb%plus_digit_spec &
            (? & ? & -> & ->%chr_inv &
            (c & ? & -> & Hc%plus_digit_spec &
            (? & d & -> & ->%chr_inv & Hd%plus_digit_spec
            )%cat_inv)%cat_inv)%cat_inv)%cat_inv)%cat_inv)%cat_inv.
    by exists a, b, c, d.
  - intros (a & b & c & d & -> & Ha & Hb & Hc & Hd).
    apply plus_digit_spec in Ha, Hb, Hc, Hd.
    repeat first [ apply Regex.MCat
                 | apply (Regex.MCat _ _ ["."%char]) ]; try done; constructor.
Qed.

(* ===================================================================== *)
(** * Graph operations                                                    *)
(* ===================================================================== *)

Lemma touch_node_dom n (m : gmap node attrs) :
  dom (touch_node n m) = {[n]} ∪ dom m.
Proof.
  unfold touch_node. destruct (m !! n) as [a|] eqn:Hn.
  - apply (elem_of_dom_2 m) in Hn. set_solver.
  - apply dom_insert_L.
Qed.

Lemma touch_node_keeps n k (m : gmap node attrs) a :
  m !! k = Some a → touch_node n m !! k = Some a.
Proof.
  intros Hk. unfold touch_node. destruct (m !! n) eqn:Hn; [done|].
  rewrite lookup_insert_ne; [done | congruence].
Qed.

Lemma touch_node_fresh n (m : gmap node attrs) :
  m !! n = None → touch_node n m !! n = Some ∅.
Proof. intros Hn. unfold touch_node. rewrite Hn. apply lookup_insert_eq. Qed.

Lemma touch_node_other n k (m : gmap node attrs) :
  n ≠ k → touch_node n m !! k = m !! k.
Proof.
  intros Hne. unfold touch_node. destruct (m !! n); [done|].
  by rewrite lookup_insert_ne.
Qed.

Lemma add_node_dom G n a : dom (g_node (add_node G n a)) = {[n]} ∪ dom (g_node G).
Proof. apply dom_insert_L. Qed.

Lemma add_node_other G n a k :
  n ≠ k → g_node (add_node G n a) !! k = g_node G !! k.
Proof. intros Hne. simpl. by rewrite lookup_insert_ne. Qed.

(** Updating a node overrides the attributes that are given. *)
Lemma add_node_attr G n (a : attrs) key v :
  a !! key = Some v →
  ∃ b, g_node (add_node G n a) !! n = Some b ∧ b !! key = Some v.
Proof.
  intros Ha. eexists. split; [apply lookup_insert_eq|].
  by apply lookup_union_Some_l.
Qed.

Lemma add_edge_node_dom G u v a :
  dom (g_node (add_edge G u v a)) = {[u; v]} ∪ dom (g_node G).
Proof. simpl. rewrite !touch_node_dom. set_solver. Qed.

Lemma add_edge_adj_dom G u v a :
  dom (g_adj (add_edge G u v a)) = {[(u, v)]} ∪ dom (g_adj G).
Proof. apply dom_insert_L. Qed.

(** [add_edge] never changes a node that is already there. *)
Lemma add_edge_keeps G u v a k b :
  g_node G !! k = Some b → g_node (add_edge G u v a) !! k = Some b.
Proof. intros Hk. simpl. by do 2 apply touch_node_keeps. Qed.

Lemma add_edge_other G u v a k :
  u ≠ k → v ≠ k → g_node (add_edge G u v a) !! k = g_node G !! k.
Proof. intros Hu Hv. simpl. by rewrite !touch_node_other. Qed.

(** A source that is new to the graph is created without attributes. *)
Lemma add_edge_fresh_source G u v a :
  g_node G !! u = None → u ≠ v → g_node (add_edge G u v a) !! u = Some ∅.
Proof.
  intros Hu Hne. simpl. rewrite touch_node_other by done.
  by apply touch_node_fresh.
Qed.

Lemma add_edge_attr G u v (a : attrs) key x :
  a !! key = Some x →
  ∃ b, g_adj (add_edge G u v a) !! (u, v) = Some b ∧ b !! key = Some x.
Proof.
  intros Ha. eexists. split; [apply lookup_insert_eq|].
  by apply lookup_union_Some_l.
Qed.

Lemma has_attr_add_edge G u v a n key x :
  has_attr G n key x → has_attr (add_edge G u v a) n key x.
Proof. intros (b & Hb & Hk). exists b. split; [by apply add_edge_keeps | done]. Qed.

Lemma has_attr_add_node_other G m a n key x :
  m ≠ n → has_attr G n key x → has_attr (add_node G m a) n key x.
Proof. intros Hne (b & Hb & Hk). exists b. by rewrite add_node_other. Qed.

Lemma has_attr_add_node G n (a : attrs) key x :
  a !! key = Some x → has_attr (add_node G n a) n key x.
Proof. apply add_node_attr. Qed.

(* ===================================================================== *)
(** * The loop over the process table                                     *)
(* ===================================================================== *)

Lemma has_parent_spec P r :
  has_parent P r = bool_decide (Pslist.PPID r ≠ 0 ∧ Pslist.PPID r ∈ P).
Proof.
  unfold has_parent. destruct (Z.eqb_spec (Pslist.PPID r) 0) as [Hz|Hz]; simpl.
  - rewrite andb_false_r. symmetry. apply bool_decide_eq_false. tauto.
  - rewrite andb_true_r. apply bool_decide_ext. tauto.
Qed.

Lemma has_parent_true P r :
  has_parent P r = true ↔ Pslist.PPID r ≠ 0 ∧ Pslist.PPID r ∈ P.
Proof. rewrite has_parent_spec. apply bool_decide_eq_true. Qed.

Lemma ps_loop_cons P N G r l :
  ps_loop P N G (r :: l) = ps_loop P N (ps_step P N G r) l.
Proof. done. Qed.

Lemma ps_loop_app P N G l1 l2 :
  ps_loop P N G (l1 ++ l2) = ps_loop P N (ps_loop P N G l1) l2.
Proof. apply foldl_app. Qed.

Lemma ps_step_node_dom P N G r :
  dom (g_node (ps_step P N G r)) =
  dom (g_node G) ∪ {[NPid (Pslist.PID r)]} ∪
  (if has_parent P r then {[NPid (Pslist.PPID r)]} else ∅).
Proof.
  unfold ps_step. destruct (has_parent P r).
  - rewrite add_edge_node_dom, add_node_dom. set_solver.
  - rewrite add_node_dom. set_solver.
Qed.

Lemma ps_step_adj_dom P N G r :
  dom (g_adj (ps_step P N G r)) =
  dom (g_adj G) ∪
  (if has_parent P r then {[(NPid (Pslist.PPID r), NPid (Pslist.PID r))]} else ∅).
Proof.
  unfold ps_step. destruct (has_parent P r).
  - rewrite add_edge_adj_dom. simpl. set_solver.
  - simpl. set_solver.
Qed.

Lemma ps_loop_node_dom P N l G :
  dom (g_node (ps_loop P N G l)) =
  dom (g_node G) ∪ list_to_set ((λ r, NPid (Pslist.PID r)) <$> l) ∪
  list_to_set ((λ r, NPid (Pslist.PPID r)) <$> List.filter (has_parent P) l).
Proof.
  revert G. induction l as [|r l IH]; intros G.
  - simpl. set_solver.
  - rewrite ps_loop_cons, IH, ps_step_node_dom. simpl.
    destruct (has_parent P r); simpl; set_solver.
Qed.

Lemma ps_loop_adj_dom P N l G :
  dom (g_adj (ps_loop P N G l)) =
  dom (g_adj G) ∪
  list_to_set ((λ r, (NPid (Pslist.PPID r), NPid (Pslist.PID r))) <$>
               List.filter (has_parent P) l).
Proof.
  revert G. induction l as [|r l IH]; intros G.
  - simpl. set_solver.
  - rewrite ps_loop_cons, IH, ps_step_adj_dom. simpl.
    destruct (has_parent P r); simpl; set_solver.
Qed.

Lemma filter_has_parent ps l :
  List.filter (has_parent (Pslist.PID <$> ps)) l =
  List.filter (λ r, bool_decide (Pslist.PPID r ≠ 0 ∧ Pslist.PPID r ∈ Pslist.PID <$> ps)) l.
Proof. apply List.filter_ext. intros r. apply has_parent_spec. Qed.

(** After the first loop the nodes are the PIDs of the table: a parent
    is only linked when it is one of them. *)
Lemma ps_loop_nodes ps N :
  dom (g_node (ps_loop (Pslist.PID <$> ps) N empty_graph ps)) = pslist_pid_nodes ps.
Proof.
  rewrite ps_loop_node_dom. unfold pslist_pid_nodes. simpl.
  apply set_eq. intros n. rewrite !elem_of_union, !elem_of_list_to_set, dom_empty_L.
  split; [|tauto]. intros [[H | H] | H]; [set_solver | done |].
  apply list_elem_of_fmap in H as (r & -> & Hr).
  apply list_elem_of_In, List.filter_In in Hr as [_ Hp].
  apply has_parent_true in Hp as [_ Hp].
  apply list_elem_of_fmap in Hp as (r' & -> & Hr').
  apply list_elem_of_fmap. by exists r'.
Qed.

Lemma ps_loop_edges ps N :
  dom (g_adj (ps_loop (Pslist.PID <$> ps) N empty_graph ps)) = parent_edges ps.
Proof.
  rewrite ps_loop_adj_dom, filter_has_parent. unfold parent_edges. simpl.
  rewrite dom_empty_L. set_solver.
Qed.

(** The first loop leaves a node alone unless a row has its PID. *)
Lemma ps_step_keeps P N G r p a :
  Pslist.PID r ≠ p →
  g_node G !! NPid p = Some a → g_node (ps_step P N G r) !! NPid p = Some a.
Proof.
  intros Hne Hp. unfold ps_step.
  assert (g_node (add_node G (NPid (Pslist.PID r)) (proc_attrs N r)) !! NPid p = Some a)
    by (rewrite add_node_other; [done | congruence]).
  destruct (has_parent P r); [by apply add_edge_keeps | done].
Qed.

Lemma ps_loop_keeps P N l G p a :
  Forall (λ r, Pslist.PID r ≠ p) l →
  g_node G !! NPid p = Some a → g_node (ps_loop P N G l) !! NPid p = Some a.
Proof.
  revert G. induction l as [|r l IH]; intros G Hl Hp; [done|].
  apply Forall_cons in Hl as [Hr Hl].
  rewrite ps_loop_cons. apply IH; [done|]. by apply ps_step_keeps.
Qed.

Lemma ps_step_ip P N G r s :
  g_node (ps_step P N G r) !! NIp s = g_node G !! NIp s.
Proof.
  unfold ps_step. destruct (has_parent P r).
  - rewrite add_edge_other by done. by rewrite add_node_other.
  - by rewrite add_node_other.
Qed.

(** What a row writes on the node of its PID. *)
Lemma ps_step_writes P N G r key v :
  proc_attrs N r !! key = Some v →
  has_attr (ps_step P N G r) (NPid (Pslist.PID r)) key v.
Proof.
  intros Hk. unfold ps_step.
  pose proof (has_attr_add_node G (NPid (Pslist.PID r)) _ key v Hk) as Hn.
  destruct (has_parent P r); [by apply has_attr_add_edge | done].
Qed.

Lemma proc_attrs_label N r :
  proc_attrs N r !! "label" = Some (proc_label (Pslist.ImageFileName r) (Pslist.PID r)).
Proof. done. Qed.

Lemma proc_attrs_color N r :
  proc_attrs N r !! "color" = Some (proc_color N (Pslist.PID r)).
Proof. done. Qed.

(** The colour of a process node only depends on its PID, so every row
    that rewrites the node writes the same colour. *)
Lemma ps_step_color_stable P N G r p :
  has_attr G (NPid p) "color" (proc_color N p) →
  has_attr (ps_step P N G r) (NPid p) "color" (proc_color N p).
Proof.
  intros Hc. destruct (decide (Pslist.PID r = p)) as [<-|Hne].
  - apply ps_step_writes, proc_attrs_color.
  - destruct Hc as (a & Ha & Hk). exists a. split; [by apply ps_step_keeps | done].
Qed.

Lemma ps_loop_color_stable P N l G p :
  has_attr G (NPid p) "color" (proc_color N p) →
  has_attr (ps_loop P N G l) (NPid p) "color" (proc_color N p).
Proof.
  revert G. induction l as [|r l IH]; intros G Hc; [done|].
  rewrite ps_loop_cons. by apply IH, ps_step_color_stable.
Qed.

Lemma ps_loop_color P N l G r :
  r ∈ l →
  has_attr (ps_loop P N G l) (NPid (Pslist.PID r)) "color" (proc_color N (Pslist.PID r)).
Proof.
  revert G. induction l as [|r' l IH]; intros G Hr; [by apply not_elem_of_nil in Hr|].
  rewrite ps_loop_cons. apply elem_of_cons in Hr as [<- | Hr].
  - apply ps_loop_color_stable, ps_step_writes, proc_attrs_color.
  - by apply IH.
Qed.

(** The last row with a given PID decides every attribute it writes. *)
Lemma ps_loop_last_row P N G l1 r l2 key v :
  Forall (λ r', Pslist.PID r' ≠ Pslist.PID r) l2 →
  proc_attrs N r !! key = Some v →
  has_attr (ps_loop P N G (l1 ++ r :: l2)) (NPid (Pslist.PID r)) key v.
Proof.
  intros Hl2 Hk. rewrite ps_loop_app, ps_loop_cons.
  destruct (ps_step_writes P N (ps_loop P N G l1) r key v Hk) as (a & Ha & Hv).
  exists a. split; [by apply ps_loop_keeps | done].
Qed.

(* ===================================================================== *)
(** * The loop over the connection table                                  *)
(* ===================================================================== *)

Lemma addr_text_Some r s : Netscan.ForeignAddr r = CStr s → addr_text r = Some s.
Proof. intros Hs. unfold addr_text. by rewrite Hs. Qed.

Lemma truthy_text s : s ≠ "" → truthy (CStr s) = true.
Proof.
  intros Hs. simpl. destruct (String.eqb_spec s ""); [done | done].
Qed.

Lemma skip_addr_ok r : addr_ok r → skip r = (Netscan.PID r =? 0)%Z.
Proof.
  intros (s & Hs & Hne). unfold skip. rewrite Hs, truthy_text by done.
  apply orb_false_r.
Qed.

Lemma conn_step_text G r s :
  Netscan.ForeignAddr r = CStr s → s ≠ "" →
  conn_step G r =
  Ok (if (Netscan.PID r =? 0)%Z then G
      else add_edge (add_node G (NIp s) (ip_attrs s))
             (NPid (Netscan.PID r)) (NIp s) (conn_attrs (Netscan.ForeignPort r))).
Proof.
  intros Hs Hne. unfold conn_step. rewrite skip_addr_ok by by exists s.
  destruct (Netscan.PID r =? 0)%Z; [done|]. by rewrite Hs.
Qed.

Lemma conn_loop_cons G r ns :
  conn_loop G (r :: ns) = (G' ← conn_step G r; conn_loop G' ns).
Proof. done. Qed.

(** On rows with a text address the loop runs to its end. *)
Lemma conn_loop_total ns G :
  Forall addr_ok ns → ∃ G', conn_loop G ns = Ok G'.
Proof.
  revert G. induction ns as [|r ns IH]; intros G Hns; [by exists G|].
  apply Forall_cons in Hns as [(s & Hs & Hne) Hns].
  rewrite conn_loop_cons, (conn_step_text G r s) by done. simpl. by apply IH.
Qed.

Lemma nonzero_conns_cons r ns :
  nonzero_conns (r :: ns) =
  if (Netscan.PID r =? 0)%Z then nonzero_conns ns else r :: nonzero_conns ns.
Proof. unfold nonzero_conns. simpl. by destruct (Netscan.PID r =? 0)%Z. Qed.

Lemma conn_loop_node_dom ns G G' :
  Forall addr_ok ns → conn_loop G ns = Ok G' →
  dom (g_node G') = dom (g_node G) ∪ conn_ip_nodes ns ∪ conn_pid_nodes ns.
Proof.
  revert G. induction ns as [|r ns IH]; intros G Hns Hrun.
  - injection Hrun as <-. unfold conn_ip_nodes, conn_pid_nodes. simpl. set_solver.
  - apply Forall_cons in Hns as [(s & Hs & Hne) Hns].
    rewrite conn_loop_cons, (conn_step_text G r s) in Hrun by done. simpl in Hrun.
    apply IH in Hrun; [|done]. rewrite Hrun.
    unfold conn_ip_nodes, conn_pid_nodes. rewrite nonzero_conns_cons.
    destruct (Netscan.PID r =? 0)%Z; [done|].
    rewrite add_edge_node_dom, add_node_dom. simpl.
    rewrite (addr_text_Some r s Hs). simpl. set_solver.
Qed.

Lemma conn_loop_adj_dom ns G G' :
  Forall addr_ok ns → conn_loop G ns = Ok G' →
  dom (g_adj G') = dom (g_adj G) ∪ conn_edges ns.
Proof.
  revert G. induction ns as [|r ns IH]; intros G Hns Hrun.
  - injection Hrun as <-. unfold conn_edges. simpl. set_solver.
  - apply Forall_cons in Hns as [(s & Hs & Hne) Hns].
    rewrite conn_loop_cons, (conn_step_text G r s) in Hrun by done. simpl in Hrun.
    apply IH in Hrun; [|done]. rewrite Hrun.
    unfold conn_edges. rewrite nonzero_conns_cons.
    destruct (Netscan.PID r =? 0)%Z; [done|].
    rewrite add_edge_adj_dom. simpl.
    rewrite (addr_text_Some r s Hs). simpl. set_solver.
Qed.

(** The second loop only calls [add_node] on addresses, so a process
    node that exists keeps its attributes. *)
Lemma conn_step_keeps_pid G G' r p a :
  conn_step G r = Ok G' →
  g_node G !! NPid p = Some a → g_node G' !! NPid p = Some a.
Proof.
  unfold conn_step. intros Hrun Hp. destruct (skip r); [by injection Hrun as <-|].
  destruct (Netscan.ForeignAddr r) as [s| | |]; try discriminate.
  injection Hrun as <-. apply add_edge_keeps. by rewrite add_node_other.
Qed.

Lemma conn_loop_keeps_pid ns G G' p a :
  conn_loop G ns = Ok G' →
  g_node G !! NPid p = Some a → g_node G' !! NPid p = Some a.
Proof.
  revert G. induction ns as [|r ns IH]; intros G Hrun Hp.
  - by injection Hrun as <-.
  - rewrite conn_loop_cons in Hrun.
    destruct (conn_step G r) as [G1|] eqn:Hstep; [|discriminate]. simpl in Hrun.
    eapply IH; [done|]. by eapply conn_step_keeps_pid.
Qed.

(** The colour of an address node only depends on the address. *)
Lemma ip_attrs_color s : ip_attrs s !! "color" = Some (ip_color s).
Proof. done. Qed.

Lemma conn_step_ip_color_stable G G' r s :
  conn_step G r = Ok G' →
  has_attr G (NIp s) "color" (ip_color s) → has_attr G' (NIp s) "color" (ip_color s).
Proof.
  unfold conn_step. intros Hrun Hc. destruct (skip r); [by injection Hrun as <-|].
  destruct (Netscan.ForeignAddr r) as [s'| | |]; try discriminate.
  injection Hrun as <-. apply has_attr_add_edge.
  destruct (decide (s' = s)) as [->|Hne].
  - apply has_attr_add_node, ip_attrs_color.
  - apply has_attr_add_node_other; [congruence | done].
Qed.

Lemma conn_loop_ip_color_stable ns G G' s :
  conn_loop G ns = Ok G' →
  has_attr G (NIp s) "color" (ip_color s) → has_attr G' (NIp s) "color" (ip_color s).
Proof.
  revert G. induction ns as [|r ns IH]; intros G Hrun Hc.
  - by injection Hrun as <-.
  - rewrite conn_loop_cons in Hrun.
    destruct (conn_step G r) as [G1|] eqn:Hstep; [|discriminate]. simpl in Hrun.
    eapply IH; [done|]. by eapply conn_step_ip_color_stable.
Qed.

Lemma conn_loop_ip_color ns G G' r s :
  conn_loop G ns = Ok G' →
  r ∈ ns → skip r = false → Netscan.ForeignAddr r = CStr s →
  has_attr G' (NIp s) "color" (ip_color s).
Proof.
  revert G. induction ns as [|r' ns IH]; intros G Hrun Hr Hskip Hs.
  - by apply not_elem_of_nil in Hr.
  - rewrite conn_loop_cons in Hrun.
    destruct (conn_step G r') as [G1|] eqn:Hstep; [|discriminate]. simpl in Hrun.
    apply elem_of_cons in Hr as [<- | Hr]; [|by eapply IH].
    eapply conn_loop_ip_color_stable; [done|].
    unfold conn_step in Hstep. rewrite Hskip, Hs in Hstep. injection Hstep as <-.
    apply has_attr_add_edge, has_attr_add_node, ip_attrs_color.
Qed.

(** A connection whose PID is not yet a node creates that node without
    attributes, and nothing in the loop gives it any afterwards. *)
Lemma conn_step_pid_absent G G' r p :
  conn_step G r = Ok G' → g_node G !! NPid p = None →
  g_node G' !! NPid p = if bool_decide (skip r = false ∧ Netscan.PID r = p)
                        then Some ∅ else None.
Proof.
  unfold conn_step. intros Hrun Hp. destruct (skip r).
  - injection Hrun as <-. rewrite bool_decide_eq_false_2 by (intros [? _]; done). done.
  - destruct (Netscan.ForeignAddr r) as [s| | |]; try discriminate.
    injection Hrun as <-. case_bool_decide as Hd.
    + destruct Hd as [_ <-]. apply add_edge_fresh_source; [|done].
      by rewrite add_node_other.
    + rewrite add_edge_other; [by rewrite add_node_other | | done].
      intros [= ?]. apply Hd. done.
Qed.

Lemma conn_loop_pid_absent ns G G' r :
  conn_loop G ns = Ok G' →
  r ∈ ns → skip r = false → g_node G !! NPid (Netscan.PID r) = None →
  g_node G' !! NPid (Netscan.PID r) = Some ∅.
Proof.
  revert G. induction ns as [|r' ns IH]; intros G Hrun Hr Hskip Hp.
  - by apply not_elem_of_nil in Hr.
  - rewrite conn_loop_cons in Hrun.
    destruct (conn_step G r') as [G1|] eqn:Hstep; [|discriminate]. simpl in Hrun.
    pose proof (conn_step_pid_absent _ _ _ _ Hstep Hp) as H1.
    case_bool_decide as Hd.
    + by eapply conn_loop_keeps_pid.
    + apply elem_of_cons in Hr as [-> | Hr]; [by destruct Hd | by eapply IH].
Qed.

(* ===================================================================== *)
(** * Loading                                                             *)
(* ===================================================================== *)

Lemma mapM_cons_result {A B} (f : A → result B) x l :
  mapM f (x :: l) = (y ← f x; k ← mapM f l; mret (y :: k)).
Proof. done. Qed.

(** The conversion of a column, cell by cell: it goes through when no
    cell is an infinity, and raises otherwise. *)
Lemma convert_cases {A} (g : A → cell) (l : list A) :
  (Forall (λ x, ¬ non_finite (g x)) l ∧
   astype_int (fillna (Finite 0) (to_numeric_coerce (g <$> l))) =
   Ok ((λ x, coerce_int (g x)) <$> l)) ∨
  (Exists (λ x, non_finite (g x)) l ∧
   astype_int (fillna (Finite 0) (to_numeric_coerce (g <$> l))) =
   Raise IntCastingNaNError).
Proof.
  unfold astype_int, fillna, to_numeric_coerce, non_finite, coerce_int.
  induction l as [|x l IH]; [by left|].
  rewrite !fmap_cons, mapM_cons_result.
  destruct (to_number (g x)) as [[z|]|] eqn:Hx; simpl.
  - destruct IH as [[Hall ->] | [Hex ->]]; [left | right]; simpl.
    + split; [|done]. constructor; [congruence | done].
    + split; [by right | done].
  - right. split; [by left | done].
  - destruct IH as [[Hall ->] | [Hex ->]]; [left | right]; simpl.
    + split; [|done]. constructor; [congruence | done].
    + split; [by right | done].
Qed.

Lemma int_column_cases df c :
  (¬ has_non_finite df c ∧
   int_column df c = Ok ((λ raw, coerce_int (cell_at (columns df) c raw)) <$> rows df)) ∨
  (has_non_finite df c ∧ int_column df c = Raise IntCastingNaNError).
Proof.
  unfold int_column, column, has_non_finite.
  destruct (convert_cases (cell_at (columns df) c) (rows df)) as [[Hall H] | [Hex H]].
  - left. split; [|done]. intros Hex%Exists_exists. rewrite Forall_forall in Hall.
    destruct Hex as (raw & Hraw & Hnf). by apply (Hall raw).
  - by right.
Qed.

Lemma int_column_Ok df c :
  ¬ has_non_finite df c →
  int_column df c = Ok ((λ raw, coerce_int (cell_at (columns df) c raw)) <$> rows df).
Proof. by destruct (int_column_cases df c) as [[_ ->] | [? _]]. Qed.

Lemma int_column_Raise df c :
  has_non_finite df c → int_column df c = Raise IntCastingNaNError.
Proof. by destruct (int_column_cases df c) as [[? _] | [_ ->]]. Qed.

Lemma zip_with_fmap_same {A B C D} (f : B → C → D) (g : A → B) (h : A → C) l :
  zip_with f (g <$> l) (h <$> l) = (λ x, f (g x) (h x)) <$> l.
Proof. induction l as [|x l IH]; [done|]. simpl. f_equal. exact IH. Qed.

Lemma pslist_table_spec df :
  pslist_table ((λ raw, coerce_int (cell_at (columns df) "PID" raw)) <$> rows df)
               ((λ raw, coerce_int (cell_at (columns df) "PPID" raw)) <$> rows df)
               (column df "ImageFileName")
  = pslist_row_of (columns df) <$> rows df.
Proof.
  unfold pslist_table, column.
  rewrite !(zip_with_fmap_same pair). by rewrite zip_with_fmap_same.
Qed.

Lemma netscan_table_spec df :
  netscan_table ((λ raw, coerce_int (cell_at (columns df) "PID" raw)) <$> rows df)
                ((λ raw, coerce_int (cell_at (columns df) "ForeignPort" raw)) <$> rows df)
                (column df "ForeignAddr") (column df "Proto")
  = netscan_rows df.
Proof.
  unfold netscan_table, netscan_rows, column.
  rewrite !(zip_with_fmap_same pair). by rewrite zip_with_fmap_same.
Qed.

Lemma select_fmap {A B} (k : B → bool) (g : A → B) l :
  select ((λ x, k (g x)) <$> l) (g <$> l) = List.filter k (g <$> l).
Proof.
  induction l as [|x l IH]; [done|]. simpl.
  destruct (k (g x)); [f_equal|]; exact IH.
Qed.

(** The mask computed column by column selects the rows that pass the
    filter row by row. *)
Lemma mask_select df :
  select
    (series_and
       (series_and (series_eq (column df "Proto") "TCPv4")
                   (str_match_na (column df "ForeignAddr")))
       (series_ne (column df "ForeignAddr") "0.0.0.0"))
    (netscan_rows df)
  = List.filter keep_row (netscan_rows df).
Proof.
  unfold netscan_rows, series_and, series_eq, series_ne, str_match_na, column.
  rewrite <- !list_fmap_compose, !zip_with_fmap_same.
  apply (select_fmap keep_row (netscan_row_of (columns df))).
Qed.

Lemma ipv4_match_spec s :
  ipv4_match s = true ↔ Regex.MatchesDollar Regex.ipv4_body (list_ascii_of_string s).
Proof. apply match_dollar_spec. Qed.

Lemma keep_row_spec r : keep_row r = true ↔ retained_row r.
Proof.
  unfold keep_row, retained_row.
  rewrite !andb_true_iff, negb_true_iff, bool_decide_eq_true, bool_decide_eq_false.
  split.
  - intros [[Hp Hm] Hz]. split; [done|]. split; [|done].
    destruct (Netscan.ForeignAddr r) as [s| | |]; try discriminate.
    exists s. split; [done | by apply ipv4_match_spec].
  - intros (Hp & (s & Hs & Hm) & Hz). split; [split; [done|] | done].
    rewrite Hs. by apply ipv4_match_spec.
Qed.

Lemma has_columns_spec (df : DataFrame) required :
  has_columns df required = true ↔ required ⊆ columns df.
Proof.
  unfold has_columns. rewrite forallb_forall. split.
  - intros H c Hc. apply list_elem_of_In, H in Hc. by apply bool_decide_eq_true in Hc.
  - intros H c Hc. apply bool_decide_eq_true, H, list_elem_of_In, Hc.
Qed.

Lemma str_accessor_Ok col : ¬ no_text col → str_accessor col = Ok col.
Proof.
  intros Hn. unfold str_accessor. destruct col as [|c col]; [done|].
  destruct (existsb is_text (c :: col)) eqn:He; [done|].
  exfalso. apply Hn. split; [done|].
  apply Forall_forall. intros x Hx. apply list_elem_of_In in Hx.
  destruct (is_text x) eqn:Hx'; [|done].
  assert (existsb is_text (c :: col) = true) by (apply existsb_exists; eauto).
  congruence.
Qed.

Lemma str_accessor_Raise col :
  no_text col →
  str_accessor col = Raise (AttributeError "str").
Proof.
  intros [Hne Hall]. unfold str_accessor. destruct col as [|c col]; [done|].
  destruct (existsb is_text (c :: col)) eqn:He; [|done].
  apply existsb_exists in He as (x & Hx & Ht).
  rewrite Forall_forall in Hall. apply list_elem_of_In, Hall in Hx. congruence.
Qed.

(** When the second [try] body succeeds, and with what. *)
Lemma load_netscan_body_Ok df :
  required_netscan_cols ⊆ columns df →
  ¬ has_non_finite df "PID" → ¬ has_non_finite df "ForeignPort" →
  "Proto" ∈ columns df → ¬ no_text (column df "ForeignAddr") →
  load_netscan_body (Ok df) =
  Ok {| columns := columns df; rows := List.filter keep_row (netscan_rows df) |}.
Proof.
  intros Hreq Hpid Hport Hproto Htext. unfold load_netscan_body. step_bind.
  assert ("ForeignAddr" ∈ columns df) as Haddr by (apply Hreq; set_solver).
  apply has_columns_spec in Hreq. rewrite Hreq. cbv beta iota delta [negb].
  rewrite (int_column_Ok _ _ Hpid), (int_column_Ok _ _ Hport). step_bind.
  unfold getitem. rewrite !bool_decide_eq_true_2 by done. step_bind.
  rewrite str_accessor_Ok by done. step_bind.
  by rewrite netscan_table_spec, mask_select.
Qed.

(** The checks of the second [try] body, in the order in which they are
    made. *)
Lemma load_netscan_body_checks df :
  load_netscan_body (Ok df) =
  if negb (has_columns df required_netscan_cols)
  then Raise (ValueError required_netscan_cols (columns df))
  else if bool_decide (has_non_finite df "PID") then Raise IntCastingNaNError
  else if bool_decide (has_non_finite df "ForeignPort") then Raise IntCastingNaNError
  else if bool_decide ("Proto" ∉ columns df) then Raise (KeyError "Proto")
  else if bool_decide (no_text (column df "ForeignAddr")) then Raise (AttributeError "str")
  else Ok {| columns := columns df; rows := List.filter keep_row (netscan_rows df) |}.
Proof.
  destruct (has_columns df required_netscan_cols) eqn:Hreq;
    [|unfold load_netscan_body; step_bind; by rewrite Hreq].
  cbv beta iota delta [negb].
  pose proof Hreq as Hsub. apply has_columns_spec in Hsub.
  assert ("ForeignAddr" ∈ columns df) as Haddr by (apply Hsub; set_solver).
  case_bool_decide as Hpid.
  { unfold load_netscan_body. step_bind. rewrite Hreq. cbv beta iota delta [negb].
    by rewrite (int_column_Raise _ _ Hpid). }
  case_bool_decide as Hport.
  { unfold load_netscan_body. step_bind. rewrite Hreq. cbv beta iota delta [negb].
    rewrite (int_column_Ok _ _ Hpid). step_bind.
    by rewrite (int_column_Raise _ _ Hport). }
  case_bool_decide as Hproto.
  { unfold load_netscan_body. step_bind. rewrite Hreq. cbv beta iota delta [negb].
    rewrite (int_column_Ok _ _ Hpid), (int_column_Ok _ _ Hport). step_bind.
    unfold getitem at 1. by rewrite bool_decide_eq_false_2. }
  assert ("Proto" ∈ columns df) as Hp by (by destruct (decide ("Proto" ∈ columns df))).
  case_bool_decide as Htext.
  { unfold load_netscan_body. step_bind. rewrite Hreq. cbv beta iota delta [negb].
    rewrite (int_column_Ok _ _ Hpid), (int_column_Ok _ _ Hport). step_bind.
    unfold getitem. rewrite !bool_decide_eq_true_2 by done. step_bind.
    by rewrite (str_accessor_Raise _ Htext). }
  by apply load_netscan_body_Ok.
Qed.

Lemma load_netscan_body_inv read t :
  load_netscan_body read = Ok t →
  ∃ df, read = Ok df ∧ required_netscan_cols ⊆ columns df ∧ "Proto" ∈ columns df ∧
        ¬ no_text (column df "ForeignAddr") ∧
        t = {| columns := columns df; rows := List.filter keep_row (netscan_rows df) |}.
Proof.
  destruct read as [df|e]; [|done]. rewrite load_netscan_body_checks.
  intros H. exists df. split; [done|].
  destruct (has_columns df required_netscan_cols) eqn:Hreq; [|done].
  apply has_columns_spec in Hreq. cbv beta iota delta [negb] in H.
  repeat case_bool_decide; try done.
  injection H as <-. repeat split; done.
Qed.

(** When the first [try] body succeeds, and with what. *)
Lemma load_pslist_body_checks df :
  load_pslist_body (Ok df) =
  if negb (has_columns df required_pslist_cols)
  then Raise (ValueError required_pslist_cols (columns df))
  else if bool_decide (has_non_finite df "PID") then Raise IntCastingNaNError
  else if bool_decide (has_non_finite df "PPID") then Raise IntCastingNaNError
  else Ok {| columns := columns df; rows := pslist_row_of (columns df) <$> rows df |}.
Proof.
  unfold load_pslist_body. step_bind.
  destruct (has_columns df required_pslist_cols) eqn:Hreq; [|done].
  cbv beta iota delta [negb].
  case_bool_decide as Hpid; [by rewrite (int_column_Raise _ _ Hpid)|].
  rewrite (int_column_Ok _ _ Hpid). step_bind.
  case_bool_decide as Hppid; [by rewrite (int_column_Raise _ _ Hppid)|].
  rewrite (int_column_Ok _ _ Hppid). step_bind.
  by rewrite pslist_table_spec.
Qed.

Lemma load_pslist_body_Ok df :
  required_pslist_cols ⊆ columns df →
  ¬ has_non_finite df "PID" → ¬ has_non_finite df "PPID" →
  load_pslist_body (Ok df) =
  Ok {| columns := columns df; rows := pslist_row_of (columns df) <$> rows df |}.
Proof.
  intros Hreq%has_columns_spec Hpid Hppid. rewrite load_pslist_body_checks, Hreq.
  cbv beta iota delta [negb]. by rewrite !bool_decide_eq_false_2.
Qed.

Lemma load_pslist_body_inv read t :
  load_pslist_body read = Ok t →
  ∃ df, read = Ok df ∧ required_pslist_cols ⊆ columns df ∧
        t = {| columns := columns df; rows := pslist_row_of (columns df) <$> rows df |}.
Proof.
  destruct read as [df|e]; [|done]. rewrite load_pslist_body_checks.
  intros H. exists df. split; [done|].
  destruct (has_columns df required_pslist_cols) eqn:Hreq; [|done].
  apply has_columns_spec in Hreq. cbv beta iota delta [negb] in H.
  repeat case_bool_decide; try done.
  by injection H as <-.
Qed.

Lemma ipv4_match_nonempty s : ipv4_match s = true → s ≠ "".
Proof. intros H ->. vm_compute in H. discriminate. Qed.

Lemma keep_row_addr_ok r : keep_row r = true → addr_ok r.
Proof.
  unfold keep_row. rewrite !andb_true_iff. intros [[_ Hm] _].
  destruct (Netscan.ForeignAddr r) as [s| | |] eqn:Hs; try discriminate.
  exists s. split; [done | by apply ipv4_match_nonempty].
Qed.

Lemma retained_rows_addr_ok read t :
  load_netscan_body read = Ok t → Forall addr_ok (rows t).
Proof.
  intros (df & _ & _ & _ & _ & ->)%load_netscan_body_inv. simpl.
  apply Forall_forall. intros r Hr.
  apply list_elem_of_In, List.filter_In in Hr as [_ Hk]. by apply keep_row_addr_ok.
Qed.

(** After two successful loads the graph is built without an exception. *)
Lemma loaded_graph read_ps read_ns pslist_df netscan_df :
  loads read_ps read_ns pslist_df netscan_df →
  ∃ G, build_graph (rows pslist_df) (rows netscan_df) = Ok G.
Proof.
  intros [_ Hns]. unfold build_graph. apply conn_loop_total.
  by eapply retained_rows_addr_ok.
Qed.

(* ===================================================================== *)
(** * The graph as a whole                                                *)
(* ===================================================================== *)

Lemma build_graph_node_dom ps ns G :
  Forall addr_ok ns → build_graph ps ns = Ok G →
  dom (g_node G) = pslist_pid_nodes ps ∪ conn_ip_nodes ns ∪ conn_pid_nodes ns.
Proof.
  intros Hns Hrun. unfold build_graph in Hrun.
  rewrite (conn_loop_node_dom _ _ _ Hns Hrun). by rewrite ps_loop_nodes.
Qed.

Lemma build_graph_adj_dom ps ns G :
  Forall addr_ok ns → build_graph ps ns = Ok G →
  dom (g_adj G) = parent_edges ps ∪ conn_edges ns.
Proof.
  intros Hns Hrun. unfold build_graph in Hrun.
  rewrite (conn_loop_adj_dom _ _ _ Hns Hrun). by rewrite ps_loop_edges.
Qed.

Lemma build_graph_proc_color ps ns G r :
  build_graph ps ns = Ok G → r ∈ ps →
  has_attr G (NPid (Pslist.PID r)) "color" (proc_color (Netscan.PID <$> ns) (Pslist.PID r)).
Proof.
  intros Hrun Hr. unfold build_graph in Hrun.
  destruct (ps_loop_color (Pslist.PID <$> ps) (Netscan.PID <$> ns) ps empty_graph r Hr)
    as (a & Ha & Hc).
  exists a. split; [by eapply conn_loop_keeps_pid | done].
Qed.

Lemma build_graph_last_row ps ns G l1 r l2 key v :
  build_graph ps ns = Ok G → ps = l1 ++ r :: l2 →
  Forall (λ r', Pslist.PID r' ≠ Pslist.PID r) l2 →
  proc_attrs (Netscan.PID <$> ns) r !! key = Some v →
  has_attr G (NPid (Pslist.PID r)) key v.
Proof.
  intros Hrun Hps Hl2 Hk. unfold build_graph in Hrun.
  destruct (ps_loop_last_row (Pslist.PID <$> ps) (Netscan.PID <$> ns) empty_graph
              l1 r l2 key v Hl2 Hk) as (a & Ha & Hv).
  rewrite <- Hps in Ha.
  exists a. split; [by eapply conn_loop_keeps_pid | done].
Qed.

Lemma has_attr_unique G n key v1 v2 :
  has_attr G n key v1 → has_attr G n key v2 → v1 = v2.
Proof. intros (a & Ha & H1) (b & Hb & H2). congruence. Qed.

Lemma attr_Some (a : attrs) k v : a !! k = Some v → attr a k = Ok v.
Proof. intros H. unfold attr. by rewrite H. Qed.

Lemma attr_None (a : attrs) k : a !! k = None → attr a k = Raise (KeyError k).
Proof. intros H. unfold attr. by rewrite H. Qed.

(** The comprehension over the node attributes. *)
Lemma collect_colors_Ok (l : list (node * attrs)) :
  Forall (λ na, is_Some (na.2 !! "color")) l →
  ∃ cols, mapM (λ na, attr na.2 "color") l = Ok cols.
Proof.
  induction 1 as [|na l [c Hc] _ [cols IH]]; [by exists []|].
  exists (c :: cols). rewrite mapM_cons_result, (attr_Some _ _ _ Hc), IH. done.
Qed.

Lemma collect_colors_Raise (l : list (node * attrs)) na :
  na ∈ l → na.2 !! "color" = None →
  mapM (λ na, attr na.2 "color") l = Raise (KeyError "color").
Proof.
  intros Hin Hnone. induction l as [|x l IH]; [by apply not_elem_of_nil in Hin|].
  rewrite mapM_cons_result.
  destruct (x.2 !! "color") as [c|] eqn:Hx.
  - apply elem_of_cons in Hin as [-> | Hin]; [congruence|].
    rewrite (attr_Some _ _ _ Hx), IH by done. done.
  - by rewrite (attr_None _ _ Hx).
Qed.

Lemma node_colors_Ok G :
  (∃ cols, node_colors G = Ok cols) ↔
  ∀ n a, g_node G !! n = Some a → is_Some (a !! "color").
Proof.
  unfold node_colors. split.
  - intros [cols Hok] n a Hn.
    destruct (a !! "color") as [c|] eqn:Hc; [by exists c|].
    rewrite (collect_colors_Raise _ (n, a)) in Hok; [done | | done].
    by apply elem_of_map_to_list.
  - intros H. apply collect_colors_Ok, Forall_forall. intros [n a] Hin.
    apply elem_of_map_to_list in Hin. by apply (H n).
Qed.

Lemma node_colors_KeyError G n a :
  g_node G !! n = Some a → a !! "color" = None →
  node_colors G = Raise (KeyError "color").
Proof.
  intros Hn Hc. apply (collect_colors_Raise _ (n, a)); [|done].
  by apply elem_of_map_to_list.
Qed.

Lemma ps_step_edge_sound ps N G r :
  r ∈ ps → edge_sound ps G → edge_sound ps (ps_step (Pslist.PID <$> ps) N G r).
Proof.
  intros Hr HG u v a. unfold ps_step.
  destruct (has_parent (Pslist.PID <$> ps) r) eqn:Hp; [|apply HG].
  simpl. destruct (decide ((NPid (Pslist.PPID r), NPid (Pslist.PID r)) = (u, v))) as [He|He].
  - injection He as <- <-. rewrite lookup_insert_eq. intros [= <-].
    left. exists r. repeat split; try done. by apply lookup_union_Some_l.
  - rewrite lookup_insert_ne by done. apply HG.
Qed.

Lemma ps_loop_edge_sound ps N l G :
  (∀ r, r ∈ l → r ∈ ps) → edge_sound ps G →
  edge_sound ps (ps_loop (Pslist.PID <$> ps) N G l).
Proof.
  revert G. induction l as [|r l IH]; intros G Hl HG; [done|].
  rewrite ps_loop_cons. apply IH.
  - intros r' Hr'. apply Hl. by right.
  - apply ps_step_edge_sound; [|done]. apply Hl. by left.
Qed.

Lemma conn_step_edge_sound ps G G' r :
  conn_step G r = Ok G' → edge_sound ps G → edge_sound ps G'.
Proof.
  unfold conn_step. intros Hrun HG. destruct (skip r); [by injection Hrun as <-|].
  destruct (Netscan.ForeignAddr r) as [s| | |]; try discriminate.
  injection Hrun as <-. intros u v a. simpl.
  destruct (decide ((NPid (Netscan.PID r), NIp s) = (u, v))) as [He|He].
  - injection He as <- <-. rewrite lookup_insert_eq. intros [= <-].
    right. exists (Netscan.PID r), s. repeat split. by apply lookup_union_Some_l.
  - rewrite lookup_insert_ne by done. apply HG.
Qed.

Lemma conn_loop_edge_sound ps ns G G' :
  conn_loop G ns = Ok G' → edge_sound ps G → edge_sound ps G'.
Proof.
  revert G. induction ns as [|r ns IH]; intros G Hrun HG.
  - by injection Hrun as <-.
  - rewrite conn_loop_cons in Hrun.
    destruct (conn_step G r) as [G1|] eqn:Hstep; [|discriminate]. simpl in Hrun.
    eapply IH; [done|]. by eapply conn_step_edge_sound.
Qed.

Lemma build_graph_edge_sound ps ns G :
  build_graph ps ns = Ok G → edge_sound ps G.
Proof.
  unfold build_graph. intros Hrun. eapply conn_loop_edge_sound; [done|].
  apply ps_loop_edge_sound; [done|]. intros u v a Ha.
  change ((∅ : gmap (node * node) attrs) !! (u, v) = Some a) in Ha.
  by rewrite lookup_empty in Ha.
Qed.

Lemma elem_of_nonzero_conns ns r :
  r ∈ nonzero_conns ns ↔ r ∈ ns ∧ Netscan.PID r ≠ 0.
Proof.
  unfold nonzero_conns. rewrite !list_elem_of_In, List.filter_In, negb_true_iff.
  by rewrite Z.eqb_neq.
Qed.

Lemma skip_false r : addr_ok r → Netscan.PID r ≠ 0 → skip r = false.
Proof. intros Hok Hp. rewrite skip_addr_ok by done. by apply Z.eqb_neq. Qed.

(** A connection from a process that the process table does not list
    leaves a node without attributes in the graph. *)
Lemma build_graph_unlisted ps ns G r :
  Forall addr_ok ns → build_graph ps ns = Ok G →
  r ∈ ns → Netscan.PID r ≠ 0 → Netscan.PID r ∉ Pslist.PID <$> ps →
  g_node G !! NPid (Netscan.PID r) = Some ∅.
Proof.
  intros Hns Hrun Hr Hp Hnot. unfold build_graph in Hrun.
  eapply conn_loop_pid_absent; [done | done | |].
  - apply skip_false; [|done]. rewrite Forall_forall in Hns. by apply Hns.
  - apply not_elem_of_dom. rewrite ps_loop_nodes. unfold pslist_pid_nodes.
    rewrite elem_of_list_to_set, list_elem_of_fmap.
    intros (r' & [= Heq] & Hr'). apply Hnot. rewrite Heq. by apply list_elem_of_fmap_2.
Qed.

(** The colour lookups of the static rendering all succeed exactly when
    every connection with a nonzero PID comes from a listed process. *)
Lemma build_graph_colors ps ns G :
  Forall addr_ok ns → build_graph ps ns = Ok G →
  (∃ cols, node_colors G = Ok cols) ↔
  (∀ r, r ∈ ns → Netscan.PID r ≠ 0 → Netscan.PID r ∈ Pslist.PID <$> ps).
Proof.
  intros Hns Hrun. split.
  - intros [cols Hok] r Hr Hp.
    destruct (decide (Netscan.PID r ∈ Pslist.PID <$> ps)) as [|Hnot]; [done|].
    pose proof (build_graph_unlisted ps ns G r Hns Hrun Hr Hp Hnot) as Hempty.
    rewrite (node_colors_KeyError G _ _ Hempty) in Hok; done.
  - intros Hall. apply node_colors_Ok. intros n a Hn.
    assert (Hpid : ∀ r', r' ∈ ps → n = NPid (Pslist.PID r') → is_Some (a !! "color")).
    { intros r' Hr' ->.
      destruct (build_graph_proc_color ps ns G r' Hrun Hr') as (b & Hb & Hc).
      rewrite Hn in Hb. injection Hb as <-. eauto. }
    pose proof (elem_of_dom_2 _ _ _ Hn) as Hdom.
    rewrite (build_graph_node_dom ps ns G Hns Hrun) in Hdom.
    unfold pslist_pid_nodes, conn_ip_nodes, conn_pid_nodes in Hdom.
    rewrite !elem_of_union, !elem_of_list_to_set in Hdom.
    destruct Hdom as [[Hd | Hd] | Hd].
    + apply list_elem_of_fmap in Hd as (r' & -> & Hr'). by eapply Hpid.
    + apply list_elem_of_omap in Hd as (r & Hr & Hs).
      apply elem_of_nonzero_conns in Hr as [Hr Hp].
      unfold addr_text in Hs.
      destruct (Netscan.ForeignAddr r) as [s| | |] eqn:Haddr; try discriminate.
      injection Hs as <-.
      assert (addr_ok r) as Hok by (rewrite Forall_forall in Hns; by apply Hns).
      unfold build_graph in Hrun.
      destruct (conn_loop_ip_color ns _ G r s Hrun Hr (skip_false r Hok Hp) Haddr)
        as (b & Hb & Hc).
      rewrite Hn in Hb. injection Hb as <-. eauto.
    + apply list_elem_of_fmap in Hd as (r & -> & Hr).
      apply elem_of_nonzero_conns in Hr as [Hr Hp].
      apply Hall, list_elem_of_fmap in Hr as (r' & Heq & Hr'); [|done].
      apply (Hpid r' Hr'). by rewrite Heq.
Qed.

(* ===================================================================== *)
(** * Properties of the script                                            *)
(* ===================================================================== *)

(** C1: for every row of the process table, the node of its PID is
    coloured red exactly when the PID occurs among the PIDs of the
    connection rows kept by the filter, and lightblue exactly when it
    does not. *)
Theorem C1_process_color read_ps read_ns pslist_df netscan_df :
  loads read_ps read_ns pslist_df netscan_df →
  ∃ G, build_graph (rows pslist_df) (rows netscan_df) = Ok G ∧
    ∀ r, r ∈ rows pslist_df →
      let n := NPid (Pslist.PID r) in
      let active := Pslist.PID r ∈ Netscan.PID <$> rows netscan_df in
      (has_attr G n "color" "red" ↔ active) ∧
      (has_attr G n "color" "lightblue" ↔ ¬ active).
Proof.
  intros Hl. destruct (loaded_graph _ _ _ _ Hl) as [G HG]. exists G. split; [done|].
  intros r Hr n active.
  pose proof (build_graph_proc_color _ _ _ r HG Hr) as Hc. fold n in Hc.
  unfold proc_color in Hc. subst active.
  case_bool_decide as Ha; split; split; intros H; try done;
    by pose proof (has_attr_unique _ _ _ _ _ Hc H).
Qed.

(** C2: after a successful load the connection rows that remain are
    exactly the rows of the table (PID and ForeignPort converted) that
    meet the three conditions of the filter, in file order and as often
    as they occur; nothing else is removed. *)
Theorem C2_netscan_filter read netscan_df :
  load_netscan_body read = Ok netscan_df →
  ∃ df keep,
    read = Ok df ∧
    (∀ r, keep r = true ↔ retained_row r) ∧
    rows netscan_df = List.filter keep (netscan_rows df) ∧
    (∀ r, r ∈ rows netscan_df ↔ r ∈ netscan_rows df ∧ retained_row r).
Proof.
  intros (df & -> & _ & _ & _ & ->)%load_netscan_body_inv.
  exists df, keep_row. split; [done|]. split; [apply keep_row_spec|]. split; [done|].
  intros r. simpl. rewrite !list_elem_of_In, List.filter_In, keep_row_spec. done.
Qed.

(** C4: the nodes of the graph are the PIDs of the process table, the
    foreign addresses of the kept connection rows whose PID is not zero,
    and the PIDs of those rows; the edges are the parent-to-child edges
    together with the edge from PID to foreign address of each such
    connection row. *)
Theorem C4_graph_shape read_ps read_ns pslist_df netscan_df :
  loads read_ps read_ns pslist_df netscan_df →
  ∃ G, build_graph (rows pslist_df) (rows netscan_df) = Ok G ∧
    dom (g_node G) =
      pslist_pid_nodes (rows pslist_df) ∪ conn_ip_nodes (rows netscan_df) ∪
      conn_pid_nodes (rows netscan_df) ∧
    dom (g_adj G) = parent_edges (rows pslist_df) ∪ conn_edges (rows netscan_df).
Proof.
  intros Hl. destruct (loaded_graph _ _ _ _ Hl) as [G HG]. exists G. split; [done|].
  destruct Hl as [_ Hns]. apply retained_rows_addr_ok in Hns.
  split; [by apply build_graph_node_dom | by apply build_graph_adj_dom].
Qed.

(** C6: for every kept connection row with a nonzero PID, the node of its
    foreign address is coloured lightgreen when the address starts with
    192.168. or with 10., and orange otherwise. *)
Theorem C6_ip_color read_ps read_ns pslist_df netscan_df :
  loads read_ps read_ns pslist_df netscan_df →
  ∃ G, build_graph (rows pslist_df) (rows netscan_df) = Ok G ∧
    ∀ r, r ∈ rows netscan_df → Netscan.PID r ≠ 0 →
      ∃ ip, Netscan.ForeignAddr r = CStr ip ∧
        has_attr G (NIp ip) "color"
          (if startswith ip "192.168." || startswith ip "10."
           then "lightgreen" else "orange").
Proof.
  intros Hl. destruct (loaded_graph _ _ _ _ Hl) as [G HG]. exists G. split; [done|].
  destruct Hl as [_ Hns]. apply retained_rows_addr_ok in Hns.
  intros r Hr Hp. rewrite Forall_forall in Hns.
  pose proof (Hns r Hr) as Hok. destruct (Hok) as (ip & Hip & Hne).
  exists ip. split; [done|]. unfold build_graph in HG.
  pose proof (conn_loop_ip_color _ _ _ r ip HG Hr (skip_false r Hok Hp) Hip) as Hc.
  unfold ip_color in Hc.
  by destruct (startswith ip "192.168."), (startswith ip "10.").
Qed.

(** C7: rows are taken in file order and a later row overwrites an
    earlier one: when two rows of the process table have the same PID,
    the label and the colour of the node are those of the later row (the
    last row with that PID). *)
Theorem C7_last_row_wins read_ps read_ns pslist_df netscan_df l1 r1 l2 r2 l3 :
  loads read_ps read_ns pslist_df netscan_df →
  rows pslist_df = l1 ++ r1 :: l2 ++ r2 :: l3 →
  Pslist.PID r1 = Pslist.PID r2 →
  Forall (λ r, Pslist.PID r ≠ Pslist.PID r2) l3 →
  ∃ G, build_graph (rows pslist_df) (rows netscan_df) = Ok G ∧
    has_attr G (NPid (Pslist.PID r2)) "label"
      (proc_label (Pslist.ImageFileName r2) (Pslist.PID r2)) ∧
    has_attr G (NPid (Pslist.PID r2)) "color"
      (proc_color (Netscan.PID <$> rows netscan_df) (Pslist.PID r2)).
Proof.
  intros Hl Hrows _ Hl3. destruct (loaded_graph _ _ _ _ Hl) as [G HG].
  exists G. split; [done|].
  assert (Hsplit : rows pslist_df = (l1 ++ r1 :: l2) ++ r2 :: l3)
    by (rewrite Hrows, <- app_assoc; done).
  split; eapply build_graph_last_row; eauto.
Qed.

(** C9: every kept connection row has a foreign address that is a
    non-empty text, so [not ip] is never true in the loop and the test
    that skips a row amounts to [pid == 0]. *)
Theorem C9_skip_is_pid_zero read netscan_df :
  load_netscan_body read = Ok netscan_df →
  ∀ r, r ∈ rows netscan_df →
    (∃ ip, Netscan.ForeignAddr r = CStr ip ∧ ip ≠ "") ∧
    truthy (Netscan.ForeignAddr r) = true ∧
    skip r = (Netscan.PID r =? 0)%Z.
Proof.
  intros Hns r Hr. apply retained_rows_addr_ok in Hns.
  rewrite Forall_forall in Hns. pose proof (Hns r Hr) as Hok.
  split; [done|]. split; [|by apply skip_addr_ok].
  destruct Hok as (ip & -> & Hne). by apply truthy_text.
Qed.


Lemma coerce_not_numeric c : not_numeric c → coerce_int c = 0.
Proof.
  intros [-> | (s & -> & Hs)]; [done|]. unfold coerce_int, to_number. by rewrite Hs.
Qed.

Lemma has_parent_zero P r : Pslist.PPID r = 0 → has_parent P r = false.
Proof. intros Hz. unfold has_parent. rewrite Hz. apply andb_false_r. Qed.

Lemma ps_step_adj P N G r :
  g_adj (ps_step P N G r) =
  if has_parent P r
  then <[(NPid (Pslist.PPID r), NPid (Pslist.PID r)) :=
           {[ "style" := "solid" ]} ∪
           default ∅ (g_adj G !! (NPid (Pslist.PPID r), NPid (Pslist.PID r)))]> (g_adj G)
  else g_adj G.
Proof. unfold ps_step. by destruct (has_parent P r). Qed.

Lemma elem_of_parent_edges ps u v :
  (u, v) ∈ parent_edges ps ↔
  ∃ r, r ∈ ps ∧ u = NPid (Pslist.PPID r) ∧ v = NPid (Pslist.PID r) ∧
       Pslist.PPID r ≠ 0 ∧ Pslist.PPID r ∈ Pslist.PID <$> ps.
Proof.
  unfold parent_edges. rewrite elem_of_list_to_set, list_elem_of_fmap. split.
  - intros (r & [= -> ->] & Hr).
    apply list_elem_of_In, List.filter_In in Hr as [Hr Hp].
    apply bool_decide_eq_true in Hp as [Hz Hin].
    exists r. by rewrite list_elem_of_In.
  - intros (r & Hr & -> & -> & Hz & Hin). exists r. split; [done|].
    apply list_elem_of_In, List.filter_In. split; [by apply list_elem_of_In|].
    by apply bool_decide_eq_true.
Qed.

Lemma conn_edges_target ns u v : (u, v) ∈ conn_edges ns → ∃ s, v = NIp s.
Proof.
  unfold conn_edges. rewrite elem_of_list_to_set, list_elem_of_omap.
  intros (r & _ & Hs). destruct (addr_text r) as [s|]; [|done].
  injection Hs as <- <-. by exists s.
Qed.

(** C10: the loop over the process table adds the edge (PPID, PID) for a
    row exactly when the converted PPID is not zero and is the PID of
    some row.  Hence both ends of every solid edge are PIDs of the
    process table, zero is never the parent of such an edge, and a row
    whose PPID is missing or not numeric, coerced to zero, adds no
    edge. *)
Theorem C10_parent_edges read_ps read_ns pslist_df netscan_df :
  loads read_ps read_ns pslist_df netscan_df →
  let ps := rows pslist_df in
  let P := Pslist.PID <$> ps in
  ∃ G, build_graph ps (rows netscan_df) = Ok G ∧
    (∀ r, has_parent P r = true ↔ Pslist.PPID r ≠ 0 ∧ Pslist.PPID r ∈ P) ∧
    (∀ N G0 r,
       g_adj (ps_step P N G0 r) =
       if has_parent P r
       then <[(NPid (Pslist.PPID r), NPid (Pslist.PID r)) :=
                {[ "style" := "solid" ]} ∪
                default ∅ (g_adj G0 !! (NPid (Pslist.PPID r), NPid (Pslist.PID r)))]>
              (g_adj G0)
       else g_adj G0) ∧
    (∀ p c, (NPid p, NPid c) ∈ dom (g_adj G) ↔
            ∃ r, r ∈ ps ∧ Pslist.PPID r = p ∧ Pslist.PID r = c ∧ p ≠ 0 ∧ p ∈ P) ∧
    (∀ u v a, g_adj G !! (u, v) = Some a → a !! "style" = Some "solid" →
              u ∈ pslist_pid_nodes ps ∧ v ∈ pslist_pid_nodes ps ∧ u ≠ NPid 0) ∧
    (∀ df raw, read_ps = Ok df → raw ∈ rows df →
               not_numeric (cell_at (columns df) "PPID" raw) →
               pslist_row_of (columns df) raw ∈ ps ∧
               Pslist.PPID (pslist_row_of (columns df) raw) = 0 ∧
               has_parent P (pslist_row_of (columns df) raw) = false).
Proof.
  intros Hl ps P. destruct (loaded_graph _ _ _ _ Hl) as [G HG]. exists G.
  split; [done|]. destruct Hl as [Hps Hns]. apply retained_rows_addr_ok in Hns.
  split; [apply has_parent_true|]. split; [apply ps_step_adj|].
  split; [|split].
  - intros p c. rewrite (build_graph_adj_dom _ _ _ Hns HG), elem_of_union. split.
    + intros [H | H].
      * apply elem_of_parent_edges in H as (r & Hr & [= ->] & [= ->] & Hz & Hin).
        by exists r.
      * by apply conn_edges_target in H as (s & ?).
    + intros (r & Hr & <- & <- & Hz & Hin). left. apply elem_of_parent_edges.
      by exists r.
  - intros u v a Ha Hsolid.
    destruct (build_graph_edge_sound _ _ _ HG u v a Ha)
      as [(r & Hr & Hp & -> & -> & _) | (p & s & _ & _ & Hd)]; [|congruence].
    apply has_parent_true in Hp as [Hz Hin]. unfold pslist_pid_nodes.
    rewrite !elem_of_list_to_set. split; [|split].
    + apply list_elem_of_fmap in Hin as (r' & -> & Hr').
      apply list_elem_of_fmap. by exists r'.
    + apply list_elem_of_fmap. by exists r.
    + congruence.
  - intros df raw -> Hraw Hnn.
    apply load_pslist_body_inv in Hps as (df' & [= <-] & _ & Ht).
    assert (Pslist.PPID (pslist_row_of (columns df) raw) = 0) as Hz
      by by apply coerce_not_numeric.
    split; [|split; [done | by apply has_parent_zero]].
    subst ps. rewrite Ht. simpl. by apply list_elem_of_fmap_2.
Qed.

(* ===================================================================== *)
(** * Failures                                                            *)
(* ===================================================================== *)

Lemma load_netscan_body_Raise df :
  (∃ e, load_netscan_body (Ok df) = Raise e) ↔
  ¬ required_netscan_cols ⊆ columns df ∨
  has_non_finite df "PID" ∨ has_non_finite df "ForeignPort" ∨
  "Proto" ∉ columns df ∨ no_text (column df "ForeignAddr").
Proof.
  rewrite load_netscan_body_checks.
  destruct (has_columns df required_netscan_cols) eqn:Hreq; cbv beta iota delta [negb].
  2:{ split; [|eauto]. intros _. left. intros H%has_columns_spec. congruence. }
  apply has_columns_spec in Hreq.
  repeat case_bool_decide; (split; [intros [e He]; try discriminate; tauto|]);
    eauto; tauto.
Qed.

Lemma load_pslist_body_Raise df :
  (∃ e, load_pslist_body (Ok df) = Raise e) ↔
  ¬ required_pslist_cols ⊆ columns df ∨
  has_non_finite df "PID" ∨ has_non_finite df "PPID".
Proof.
  rewrite load_pslist_body_checks.
  destruct (has_columns df required_pslist_cols) eqn:Hreq; cbv beta iota delta [negb].
  2:{ split; [|eauto]. intros _. left. intros H%has_columns_spec. congruence. }
  apply has_columns_spec in Hreq.
  repeat case_bool_decide; (split; [intros [e He]; try discriminate; tauto|]);
    eauto; tauto.
Qed.

Lemma load_exit {A} file read (body : result DataFrame → result A) c :
  (load file read body).2 = ExitWith c ↔ c = 1 ∧ ∃ e, body read = Raise e.
Proof.
  unfold load. destruct (body read) as [a|e]; simpl.
  - split; [done | by intros [_ [? ?]]].
  - split; [intros [= <-]; eauto | by intros [-> _]].
Qed.

Lemma load_loaded {A} file read (body : result DataFrame → result A) a :
  (load file read body).2 = Loaded a ↔ body read = Ok a.
Proof.
  unfold load. destruct (body read) as [a'|e]; simpl.
  - split; by intros [= ->].
  - split; done.
Qed.

Lemma load_exit_prints {A} file read (body : result DataFrame → result A) c :
  (load file read body).2 = ExitWith c →
  ∃ e, body read = Raise e ∧
       last (load file read body).1 = Some (EvError (error_of file e)).
Proof.
  unfold load. destruct (body read) as [a|e]; simpl; [done|].
  intros _. exists e. split; [done|]. apply last_snoc.
Qed.

(** C5 (as the code has it): a load prints an error and exits with
    status 1 exactly when reading the file raises (the file is missing
    or cannot be parsed), a required column is absent, a column that is
    converted to integers (PID and PPID of the process table, PID and
    ForeignPort of the connection table) holds an infinity, so that the
    cast raises, or, for the connection table, the filter itself raises:
    the Proto column is absent or the ForeignAddr column holds no text.
    After a successful load both tables have their required columns,
    and the connection table has Proto as well. *)
Theorem C5_load_exit read :
  ((load_pslist read).2 = ExitWith 1 ↔
     (∃ e, read = Raise e) ∨
     (∃ df, read = Ok df ∧
        (¬ required_pslist_cols ⊆ columns df ∨
         has_non_finite df "PID" ∨ has_non_finite df "PPID"))) ∧
  ((load_netscan read).2 = ExitWith 1 ↔
     (∃ e, read = Raise e) ∨
     (∃ df, read = Ok df ∧
        (¬ required_netscan_cols ⊆ columns df ∨
         has_non_finite df "PID" ∨ has_non_finite df "ForeignPort" ∨
         "Proto" ∉ columns df ∨ no_text (column df "ForeignAddr")))) ∧
  (∀ c, (load_pslist read).2 = ExitWith c →
        c = 1 ∧ ∃ msg, last (load_pslist read).1 = Some (EvError msg)) ∧
  (∀ c, (load_netscan read).2 = ExitWith c →
        c = 1 ∧ ∃ msg, last (load_netscan read).1 = Some (EvError msg)) ∧
  (∀ t, (load_pslist read).2 = Loaded t → required_pslist_cols ⊆ columns t) ∧
  (∀ t, (load_netscan read).2 = Loaded t →
        required_netscan_cols ⊆ columns t ∧ "Proto" ∈ columns t).
Proof.
  unfold load_pslist, load_netscan.
  split; [|split; [|split; [|split; [|split]]]].
  - split.
    + intros [_ [e He]]%load_exit. destruct read as [df|e']; [|by left; eauto].
      right. exists df. split; [done|]. apply load_pslist_body_Raise. eauto.
    + intros H. apply load_exit. split; [done|].
      destruct H as [[e ->] | (df & -> & H)]; [by exists e|].
      by apply load_pslist_body_Raise.
  - split.
    + intros [_ [e He]]%load_exit. destruct read as [df|e']; [|by left; eauto].
      right. exists df. split; [done|]. apply load_netscan_body_Raise. eauto.
    + intros H. apply load_exit. split; [done|].
      destruct H as [[e ->] | (df & -> & H)]; [by exists e|].
      by apply load_netscan_body_Raise.
  - intros c H. split; [by apply load_exit in H as [-> _]|].
    apply load_exit_prints in H as (e & _ & Hlast). eauto.
  - intros c H. split; [by apply load_exit in H as [-> _]|].
    apply load_exit_prints in H as (e & _ & Hlast). eauto.
  - intros t H.
    apply load_loaded, load_pslist_body_inv in H as (df & _ & Hreq & ->). done.
  - intros t H.
    apply load_loaded, load_netscan_body_inv in H as (df & _ & Hreq & Hp & _ & ->). done.
Qed.

(* ===================================================================== *)
(** * Attributes, exactly                                                 *)
(* ===================================================================== *)

(** Updating with attributes that cover the old ones replaces them. *)
Lemma union_covering (a b : attrs) : dom b ⊆ dom a → a ∪ b = a.
Proof.
  intros Hsub. apply map_eq. intros k. rewrite lookup_union.
  destruct (a !! k) as [x|] eqn:Ha; [by destruct (b !! k)|].
  assert (b !! k = None) as ->; [|done].
  apply not_elem_of_dom. intros Hk%Hsub. by apply not_elem_of_dom in Ha.
Qed.

Lemma proc_attrs_dom N r : dom (proc_attrs N r) = {["label"; "color"; "shape"]}.
Proof.
  unfold proc_attrs. rewrite !dom_insert_L, dom_singleton_L. set_solver.
Qed.

Lemma conn_attrs_dom port : dom (conn_attrs port) = {["style"; "label"]}.
Proof. unfold conn_attrs. rewrite dom_insert_L, dom_singleton_L. set_solver. Qed.

Lemma proc_attrs_over N r a : proc_like N a → proc_attrs N r ∪ a = proc_attrs N r.
Proof.
  intros [-> | [r' ->]]; apply union_covering.
  - rewrite dom_empty_L. set_solver.
  - by rewrite !proc_attrs_dom.
Qed.

Lemma touch_node_lookup n k (m : gmap node attrs) a :
  touch_node n m !! k = Some a →
  m !! k = Some a ∨ (k = n ∧ a = ∅ ∧ m !! n = None).
Proof.
  unfold touch_node. destruct (m !! n) eqn:Hn; [by left|].
  destruct (decide (n = k)) as [->|Hne].
  - rewrite lookup_insert_eq. intros [= <-]. by right.
  - rewrite lookup_insert_ne by done. by left.
Qed.

Lemma add_edge_lookup G u v b k a :
  g_node (add_edge G u v b) !! k = Some a → g_node G !! k = Some a ∨ a = ∅.
Proof.
  simpl. intros [[H | (_ & -> & _)]%touch_node_lookup | (_ & -> & _)]%touch_node_lookup; auto.
Qed.

Lemma ps_step_proc_like P N G r :
  pid_nodes_proc_like N G → pid_nodes_proc_like N (ps_step P N G r).
Proof.
  intros HG p a. unfold ps_step.
  assert (Hadd : ∀ a', g_node (add_node G (NPid (Pslist.PID r)) (proc_attrs N r)) !! NPid p
                       = Some a' → proc_like N a').
  { intros a'. simpl. destruct (decide (Pslist.PID r = p)) as [->|Hne].
    - rewrite lookup_insert_eq. intros [= <-]. right. exists r.
      apply proc_attrs_over. destruct (g_node G !! NPid p) as [b|] eqn:Hb; simpl.
      + by eapply HG.
      + by left.
    - rewrite lookup_insert_ne by congruence. apply HG. }
  destruct (has_parent P r); [|apply Hadd].
  intros [H | ->]%add_edge_lookup; [by apply Hadd | by left].
Qed.

Lemma ps_loop_proc_like P N l G :
  pid_nodes_proc_like N G → pid_nodes_proc_like N (ps_loop P N G l).
Proof.
  revert G. induction l as [|r l IH]; intros G HG; [done|].
  rewrite ps_loop_cons. by apply IH, ps_step_proc_like.
Qed.

(** A row leaves exactly its own attributes on the node of its PID. *)
Lemma ps_step_exact P N G r :
  pid_nodes_proc_like N G →
  g_node (ps_step P N G r) !! NPid (Pslist.PID r) = Some (proc_attrs N r).
Proof.
  intros HG. unfold ps_step.
  assert (g_node (add_node G (NPid (Pslist.PID r)) (proc_attrs N r))
            !! NPid (Pslist.PID r) = Some (proc_attrs N r)) as Hadd.
  { simpl. rewrite lookup_insert_eq. f_equal. apply proc_attrs_over.
    destruct (g_node G !! NPid (Pslist.PID r)) as [b|] eqn:Hb; simpl.
    - by eapply HG.
    - by left. }
  destruct (has_parent P r); [by apply add_edge_keeps | done].
Qed.

Lemma empty_graph_proc_like N : pid_nodes_proc_like N empty_graph.
Proof. intros p a Ha. change ((∅ : gmap node attrs) !! NPid p = Some a) in Ha.
  by rewrite lookup_empty in Ha. Qed.

Lemma ps_loop_exact ps N r :
  last_with_pid ps r →
  g_node (ps_loop (Pslist.PID <$> ps) N empty_graph ps) !! NPid (Pslist.PID r)
  = Some (proc_attrs N r).
Proof.
  intros (l1 & l2 & Hps & Hl2). rewrite Hps at 2.
  rewrite ps_loop_app, ps_loop_cons. apply ps_loop_keeps; [done|].
  apply ps_step_exact, ps_loop_proc_like, empty_graph_proc_like.
Qed.

(** Every listed PID has a last row. *)
Lemma last_with_pid_exists ps r :
  r ∈ ps → ∃ r', last_with_pid ps r' ∧ Pslist.PID r' = Pslist.PID r.
Proof.
  revert r. induction ps as [|x ps IH]; intros r Hr; [by apply not_elem_of_nil in Hr|].
  destruct (decide (Pslist.PID r ∈ Pslist.PID <$> ps)) as [Hin|Hnot].
  - apply list_elem_of_fmap in Hin as (y & Hy & Hin).
    destruct (IH y Hin) as (r' & (l1 & l2 & -> & Hl2) & Heq).
    exists r'. split; [|congruence]. by exists (x :: l1), l2.
  - apply elem_of_cons in Hr as [-> | Hr];
      [|by exfalso; apply Hnot, list_elem_of_fmap_2].
    exists x. split; [|done]. exists [], ps. split; [done|].
    apply Forall_forall. intros y Hy Heq. apply Hnot. rewrite <- Heq.
    by apply list_elem_of_fmap_2.
Qed.

Lemma last_with_pid_elem ps r : last_with_pid ps r → r ∈ ps.
Proof. intros (l1 & l2 & -> & _). apply elem_of_app. right. by left. Qed.

Lemma conn_step_ip_exact G G' r :
  conn_step G r = Ok G' → ip_nodes_exact G → ip_nodes_exact G'.
Proof.
  unfold conn_step. intros Hrun HG. destruct (skip r); [by injection Hrun as <-|].
  destruct (Netscan.ForeignAddr r) as [s'| | |]; try discriminate.
  injection Hrun as <-. intros s a. simpl.
  set (m := <[NIp s' := ip_attrs s' ∪ default ∅ (g_node G !! NIp s')]> (g_node G)).
  assert (Hins : m !! NIp s = Some a → a = ip_attrs s).
  { subst m. destruct (decide (s' = s)) as [->|Hne].
    - rewrite lookup_insert_eq. intros [= <-].
      destruct (g_node G !! NIp s) as [b|] eqn:Hb; simpl.
      + rewrite (HG s b Hb). by apply union_covering.
      + apply union_covering. rewrite dom_empty_L. set_solver.
    - rewrite lookup_insert_ne by congruence. apply HG. }
  intros [[H | (? & _)]%touch_node_lookup | ([= <-] & _ & Hnone)]%touch_node_lookup;
    [by apply Hins | done |].
  exfalso. rewrite touch_node_other in Hnone by done.
  subst m. by rewrite lookup_insert_eq in Hnone.
Qed.


Lemma conn_loop_ip_exact ns G G' :
  conn_loop G ns = Ok G' → ip_nodes_exact G → ip_nodes_exact G'.
Proof.
  revert G. induction ns as [|r ns IH]; intros G Hrun HG.
  - by injection Hrun as <-.
  - rewrite conn_loop_cons in Hrun.
    destruct (conn_step G r) as [G1|] eqn:Hstep; [|discriminate]. simpl in Hrun.
    eapply IH; [done|]. by eapply conn_step_ip_exact.
Qed.

Lemma ps_loop_ip P N l G s :
  g_node (ps_loop P N G l) !! NIp s = g_node G !! NIp s.
Proof.
  revert G. induction l as [|r l IH]; intros G; [done|].
  by rewrite ps_loop_cons, IH, ps_step_ip.
Qed.

Lemma build_graph_ip_exact ps ns G :
  build_graph ps ns = Ok G → ip_nodes_exact G.
Proof.
  unfold build_graph. intros Hrun. eapply conn_loop_ip_exact; [done|].
  intros s a Ha. rewrite ps_loop_ip in Ha.
  change ((∅ : gmap node attrs) !! NIp s = Some a) in Ha. by rewrite lookup_empty in Ha.
Qed.

Lemma build_graph_listed ps ns G r :
  build_graph ps ns = Ok G → last_with_pid ps r →
  g_node G !! NPid (Pslist.PID r) = Some (proc_attrs (Netscan.PID <$> ns) r).
Proof.
  unfold build_graph. intros Hrun Hlast.
  eapply conn_loop_keeps_pid; [done|]. by apply ps_loop_exact.
Qed.

Lemma elem_of_conn_ip_nodes ns n :
  n ∈ conn_ip_nodes ns ↔
  ∃ r s, r ∈ ns ∧ Netscan.PID r ≠ 0 ∧ Netscan.ForeignAddr r = CStr s ∧ n = NIp s.
Proof.
  unfold conn_ip_nodes. rewrite elem_of_list_to_set, list_elem_of_omap. split.
  - intros (r & [Hr Hp]%elem_of_nonzero_conns & Hs). unfold addr_text in Hs.
    destruct (Netscan.ForeignAddr r) as [s| | |] eqn:Ha; try discriminate.
    injection Hs as <-. by exists r, s.
  - intros (r & s & Hr & Hp & Ha & ->). exists r.
    split; [by apply elem_of_nonzero_conns|]. by rewrite (addr_text_Some r s Ha).
Qed.

Lemma elem_of_conn_pid_nodes ns n :
  n ∈ conn_pid_nodes ns ↔ ∃ r, r ∈ ns ∧ Netscan.PID r ≠ 0 ∧ n = NPid (Netscan.PID r).
Proof.
  unfold conn_pid_nodes. rewrite elem_of_list_to_set, list_elem_of_fmap. split.
  - intros (r & -> & [Hr Hp]%elem_of_nonzero_conns). by exists r.
  - intros (r & Hr & Hp & ->). exists r. split; [done|]. by apply elem_of_nonzero_conns.
Qed.

Lemma elem_of_pslist_pid_nodes ps n :
  n ∈ pslist_pid_nodes ps ↔ ∃ r, r ∈ ps ∧ n = NPid (Pslist.PID r).
Proof.
  unfold pslist_pid_nodes. rewrite elem_of_list_to_set, list_elem_of_fmap.
  split; intros (r & ? & ?); by exists r.
Qed.

(** The attributes of every node of the graph. *)
Lemma build_graph_node_attrs ps ns G n a :
  Forall addr_ok ns → build_graph ps ns = Ok G →
  g_node G !! n = Some a ↔
  (∃ r, last_with_pid ps r ∧ n = NPid (Pslist.PID r) ∧
        a = proc_attrs (Netscan.PID <$> ns) r) ∨
  (∃ r s, r ∈ ns ∧ Netscan.PID r ≠ 0 ∧ Netscan.ForeignAddr r = CStr s ∧
          n = NIp s ∧ a = ip_attrs s) ∨
  (∃ r, r ∈ ns ∧ Netscan.PID r ≠ 0 ∧ (Netscan.PID r ∉ Pslist.PID <$> ps) ∧
        n = NPid (Netscan.PID r) ∧ a = ∅).
Proof.
  intros Hns Hrun.
  assert (Hlisted : ∀ r, r ∈ ps → g_node G !! NPid (Pslist.PID r) = Some a →
            ∃ r', last_with_pid ps r' ∧ NPid (Pslist.PID r) = NPid (Pslist.PID r') ∧
                  a = proc_attrs (Netscan.PID <$> ns) r').
  { intros r Hr Ha. destruct (last_with_pid_exists ps r Hr) as (r' & Hlast & Heq).
    exists r'. split; [done|]. split; [by rewrite Heq|].
    pose proof (build_graph_listed _ _ _ _ Hrun Hlast) as Hx.
    rewrite Heq in Hx. congruence. }
  split.
  - intros Ha. pose proof (elem_of_dom_2 _ _ _ Ha) as Hdom.
    rewrite (build_graph_node_dom _ _ _ Hns Hrun), !elem_of_union in Hdom.
    destruct Hdom as [[Hd | Hd] | Hd].
    + apply elem_of_pslist_pid_nodes in Hd as (r & Hr & ->). left. by apply Hlisted.
    + apply elem_of_conn_ip_nodes in Hd as (r & s & Hr & Hp & Hs & ->).
      right. left. exists r, s. repeat split; try done.
      by apply (build_graph_ip_exact ps ns G Hrun).
    + apply elem_of_conn_pid_nodes in Hd as (r & Hr & Hp & ->).
      destruct (decide (Netscan.PID r ∈ Pslist.PID <$> ps)) as [Hin|Hnot].
      * apply list_elem_of_fmap in Hin as (r' & Heq & Hr'). left.
        rewrite Heq in Ha |- *. by apply Hlisted.
      * right. right. exists r. repeat split; try done.
        pose proof (build_graph_unlisted _ _ _ _ Hns Hrun Hr Hp Hnot). congruence.
  - intros [(r & Hlast & -> & ->) | [(r & s & Hr & Hp & Hs & -> & ->) |
                                     (r & Hr & Hp & Hnot & -> & ->)]].
    + by apply (build_graph_listed ps ns G r).
    + assert (NIp s ∈ dom (g_node G)) as [b Hb]%elem_of_dom.
      { rewrite (build_graph_node_dom _ _ _ Hns Hrun), !elem_of_union. left. right.
        apply elem_of_conn_ip_nodes. by exists r, s. }
      by rewrite Hb, (build_graph_ip_exact ps ns G Hrun s b Hb).
    + by apply (build_graph_unlisted ps ns G r).
Qed.


Lemma ps_step_edge_exact P N G r : edge_exact G → edge_exact (ps_step P N G r).
Proof.
  intros HG u v a. rewrite ps_step_adj. destruct (has_parent P r); [|apply HG].
  destruct (decide ((NPid (Pslist.PPID r), NPid (Pslist.PID r)) = (u, v))) as [He|He].
  - injection He as <- <-. rewrite lookup_insert_eq. intros [= <-].
    destruct (g_adj G !! (NPid (Pslist.PPID r), NPid (Pslist.PID r))) as [b|] eqn:Hb; simpl.
    + rewrite (HG _ _ _ Hb). by apply union_covering.
    + apply union_covering. rewrite dom_empty_L. set_solver.
  - rewrite lookup_insert_ne by done. apply HG.
Qed.

Lemma ps_loop_edge_exact P N l G : edge_exact G → edge_exact (ps_loop P N G l).
Proof.
  revert G. induction l as [|r l IH]; intros G HG; [done|].
  rewrite ps_loop_cons. by apply IH, ps_step_edge_exact.
Qed.

(** The edge dictionary after one connection row. *)
Lemma conn_step_adj G G' r :
  conn_step G r = Ok G' →
  g_adj G' =
  match conn_key r with
  | Some k => <[k := conn_attrs (Netscan.ForeignPort r) ∪ default ∅ (g_adj G !! k)]> (g_adj G)
  | None => g_adj G
  end.
Proof.
  unfold conn_step, conn_key, addr_text. destruct (skip r); [by intros [= <-]|].
  destruct (Netscan.ForeignAddr r) as [s| | |]; try discriminate. by intros [= <-].
Qed.

Lemma conn_key_target r k : conn_key r = Some k → ∃ s, k = (NPid (Netscan.PID r), NIp s).
Proof.
  unfold conn_key. destruct (skip r); [done|].
  destruct (addr_text r) as [s|]; [|done]. intros [= <-]. by exists s.
Qed.

Lemma conn_step_edge_exact G G' r :
  conn_step G r = Ok G' → edge_exact G → edge_exact G'.
Proof.
  intros Hstep HG u v a. rewrite (conn_step_adj _ _ _ Hstep).
  destruct (conn_key r) as [k|] eqn:Hk; [|apply HG].
  destruct (conn_key_target r k Hk) as [s ->].
  destruct (decide ((NPid (Netscan.PID r), NIp s) = (u, v))) as [He|He].
  - injection He as <- <-. rewrite lookup_insert_eq. intros [= <-].
    exists (Netscan.ForeignPort r).
    destruct (g_adj G !! (NPid (Netscan.PID r), NIp s)) as [b|] eqn:Hb; simpl.
    + destruct (HG _ _ _ Hb) as [port ->]. apply union_covering.
      by rewrite !conn_attrs_dom.
    + apply union_covering. rewrite dom_empty_L. set_solver.
  - rewrite lookup_insert_ne by done. apply HG.
Qed.

Lemma conn_loop_edge_exact ns G G' :
  conn_loop G ns = Ok G' → edge_exact G → edge_exact G'.
Proof.
  revert G. induction ns as [|r ns IH]; intros G Hrun HG.
  - by injection Hrun as <-.
  - rewrite conn_loop_cons in Hrun.
    destruct (conn_step G r) as [G1|] eqn:Hstep; [|discriminate]. simpl in Hrun.
    eapply IH; [done|]. by eapply conn_step_edge_exact.
Qed.

Lemma conn_loop_app G l1 l2 :
  conn_loop G (l1 ++ l2) = (G1 ← conn_loop G l1; conn_loop G1 l2).
Proof.
  revert G. induction l1 as [|r l1 IH]; intros G; [done|].
  simpl. destruct (conn_step G r) as [G1|]; [apply IH | done].
Qed.

(** Rows that add another edge leave an edge as it is. *)
Lemma conn_loop_adj_other ns G G' k :
  conn_loop G ns = Ok G' → Forall (λ r, conn_key r ≠ Some k) ns →
  g_adj G' !! k = g_adj G !! k.
Proof.
  revert G. induction ns as [|r ns IH]; intros G Hrun Hns.
  - by injection Hrun as <-.
  - apply Forall_cons in Hns as [Hr Hns]. rewrite conn_loop_cons in Hrun.
    destruct (conn_step G r) as [G1|] eqn:Hstep; [|discriminate]. simpl in Hrun.
    rewrite (IH G1 Hrun Hns), (conn_step_adj _ _ _ Hstep).
    destruct (conn_key r) as [k'|]; [|done].
    rewrite lookup_insert_ne; [done | congruence].
Qed.

(** The last row that adds an edge decides its attributes. *)
Lemma conn_loop_last_row G0 G ns r k :
  conn_loop G0 ns = Ok G → edge_exact G0 →
  last_with_edge ns r → conn_key r = Some k →
  g_adj G !! k = Some (conn_attrs (Netscan.ForeignPort r)).
Proof.
  intros Hrun HG0 (l1 & l2 & -> & _ & Hl2) Hk.
  rewrite conn_loop_app in Hrun.
  destruct (conn_loop G0 l1) as [G1|] eqn:H1; [|discriminate].
  change (conn_loop G1 (r :: l2) = Ok G) in Hrun. rewrite conn_loop_cons in Hrun.
  destruct (conn_step G1 r) as [G2|] eqn:Hstep; [|discriminate].
  change (conn_loop G2 l2 = Ok G) in Hrun.
  rewrite (conn_loop_adj_other l2 G2 G k Hrun) by (by rewrite <- Hk).
  rewrite (conn_step_adj _ _ _ Hstep), Hk, lookup_insert_eq. f_equal.
  pose proof (conn_loop_edge_exact _ _ _ H1 HG0) as HG1.
  destruct (conn_key_target r k Hk) as [s ->].
  destruct (g_adj G1 !! (NPid (Netscan.PID r), NIp s)) as [b|] eqn:Hb; simpl.
  - destruct (HG1 _ _ _ Hb) as [port ->]. apply union_covering.
    by rewrite !conn_attrs_dom.
  - apply union_covering. rewrite dom_empty_L. set_solver.
Qed.

(** In a list, every key has a last element carrying it. *)
Lemma last_with_key {A K} `{EqDecision K} (key : A → K) (l : list A) x :
  x ∈ l →
  ∃ l1 y l2, l = l1 ++ y :: l2 ∧ key y = key x ∧ Forall (λ z, key z ≠ key y) l2.
Proof.
  revert x. induction l as [|h l IH]; intros x Hx; [by apply not_elem_of_nil in Hx|].
  destruct (decide (key x ∈ key <$> l)) as [Hin|Hnot].
  - apply list_elem_of_fmap in Hin as (y & Hy & Hin).
    destruct (IH y Hin) as (l1 & y' & l2 & -> & Heq & Hl2).
    exists (h :: l1), y', l2. split; [done|]. split; [congruence | done].
  - apply elem_of_cons in Hx as [-> | Hx];
      [|by exfalso; apply Hnot, list_elem_of_fmap_2].
    exists [], h, l. split; [done|]. split; [done|].
    apply Forall_forall. intros z Hz Heq. apply Hnot. rewrite <- Heq.
    by apply list_elem_of_fmap_2.
Qed.

Lemma elem_of_conn_edges ns e :
  Forall addr_ok ns →
  e ∈ conn_edges ns ↔ ∃ r, r ∈ ns ∧ conn_key r = Some e.
Proof.
  intros Hns. rewrite Forall_forall in Hns.
  unfold conn_edges. rewrite elem_of_list_to_set, list_elem_of_omap. split.
  - intros (r & [Hr Hp]%elem_of_nonzero_conns & He). exists r. split; [done|].
    unfold conn_key. by rewrite (skip_false r (Hns r Hr) Hp).
  - intros (r & Hr & He). exists r. unfold conn_key in He.
    destruct (skip r) eqn:Hs; [done|]. split; [|done].
    apply elem_of_nonzero_conns. split; [done|].
    rewrite (skip_addr_ok r (Hns r Hr)) in Hs. by apply Z.eqb_neq.
Qed.

Lemma build_graph_edge_exact ps ns G : build_graph ps ns = Ok G → edge_exact G.
Proof.
  unfold build_graph. intros Hrun. eapply conn_loop_edge_exact; [done|].
  apply ps_loop_edge_exact. intros u v a Ha.
  change ((∅ : gmap (node * node) attrs) !! (u, v) = Some a) in Ha.
  by rewrite lookup_empty in Ha.
Qed.

(** The attributes of every edge of the graph. *)
Lemma build_graph_edge_attrs ps ns G e a :
  Forall addr_ok ns → build_graph ps ns = Ok G →
  g_adj G !! e = Some a ↔
  (e ∈ parent_edges ps ∧ a = solid_attrs) ∨
  (∃ r, last_with_edge ns r ∧ conn_key r = Some e ∧
        a = conn_attrs (Netscan.ForeignPort r)).
Proof.
  intros Hns Hrun.
  assert (Hlast : ∀ r, last_with_edge ns r → conn_key r = Some e →
                       g_adj G !! e = Some (conn_attrs (Netscan.ForeignPort r))).
  { intros r Hr Hk. unfold build_graph in Hrun.
    eapply conn_loop_last_row; [done | | done | done].
    apply ps_loop_edge_exact. intros u v b Hb.
    change ((∅ : gmap (node * node) attrs) !! (u, v) = Some b) in Hb.
    by rewrite lookup_empty in Hb. }
  split.
  - intros Ha. pose proof (elem_of_dom_2 _ _ _ Ha) as Hdom.
    rewrite (build_graph_adj_dom _ _ _ Hns Hrun), elem_of_union in Hdom.
    destruct Hdom as [Hd | Hd].
    + left. split; [done|]. destruct e as [u v].
      apply elem_of_parent_edges in Hd as (r & _ & _ & -> & _).
      exact (build_graph_edge_exact ps ns G Hrun u (NPid (Pslist.PID r)) a Ha).
    + right. apply (elem_of_conn_edges ns e Hns) in Hd as (r & Hr & Hk).
      destruct (last_with_key conn_key ns r Hr) as (l1 & r' & l2 & Hsplit & Heq & Hl2).
      assert (last_with_edge ns r') as Hl.
      { exists l1, l2. split; [done|]. split; [|done]. rewrite Heq, Hk. eauto. }
      exists r'. split; [done|]. split; [congruence|].
      rewrite (Hlast r' Hl) in Ha by congruence. congruence.
  - intros [[Hd ->] | (r & Hl & Hk & ->)]; [|by apply Hlast].
    assert (e ∈ dom (g_adj G)) as [b Hb]%elem_of_dom
      by (rewrite (build_graph_adj_dom _ _ _ Hns Hrun); set_solver).
    rewrite Hb. f_equal. destruct e as [u v].
    apply elem_of_parent_edges in Hd as (r & _ & _ & -> & _).
    exact (build_graph_edge_exact ps ns G Hrun u (NPid (Pslist.PID r)) b Hb).
Qed.


(* ===================================================================== *)
(** * Further properties of the graph                                     *)
(* ===================================================================== *)

Lemma loaded_build read_ps read_ns pslist_df netscan_df :
  loads read_ps read_ns pslist_df netscan_df →
  ∃ G, build_graph (rows pslist_df) (rows netscan_df) = Ok G ∧
       Forall addr_ok (rows netscan_df).
Proof.
  intros Hl. destruct (loaded_graph _ _ _ _ Hl) as [G HG]. exists G. split; [done|].
  destruct Hl as [_ Hns]. by eapply retained_rows_addr_ok.
Qed.

(** X1: a node of the graph carries exactly the three attributes written
    by the last process row with its PID, or exactly the three
    attributes of an address, or, for the PID of a connection that the
    process table does not list, no attribute at all; nothing written by
    an earlier row survives. *)
Theorem X1_node_attributes read_ps read_ns pslist_df netscan_df :
  loads read_ps read_ns pslist_df netscan_df →
  let ps := rows pslist_df in
  let ns := rows netscan_df in
  ∃ G, build_graph ps ns = Ok G ∧
    ∀ n a, g_node G !! n = Some a ↔
      (∃ r, last_with_pid ps r ∧ n = NPid (Pslist.PID r) ∧
            a = {[ "label" := proc_label (Pslist.ImageFileName r) (Pslist.PID r);
                   "color" := proc_color (Netscan.PID <$> ns) (Pslist.PID r);
                   "shape" := "circle" ]}) ∨
      (∃ r ip, r ∈ ns ∧ Netscan.PID r ≠ 0 ∧ Netscan.ForeignAddr r = CStr ip ∧
               n = NIp ip ∧
               a = {[ "label" := ip; "color" := ip_color ip; "shape" := "box" ]}) ∨
      (∃ r, r ∈ ns ∧ Netscan.PID r ≠ 0 ∧ (Netscan.PID r ∉ Pslist.PID <$> ps) ∧
            n = NPid (Netscan.PID r) ∧ a = ∅).
Proof.
  intros Hl ps ns. destruct (loaded_build _ _ _ _ Hl) as (G & HG & Hns).
  exists G. split; [done|]. intros n a. by apply build_graph_node_attrs.
Qed.

(** X2: an edge of the graph carries exactly the solid style when it is a
    parent-to-child edge, and otherwise exactly the dashed style with the
    port of the last connection row that has its PID and its foreign
    address; the ports of earlier rows for the same pair are gone. *)
Theorem X2_edge_attributes read_ps read_ns pslist_df netscan_df :
  loads read_ps read_ns pslist_df netscan_df →
  let ps := rows pslist_df in
  let ns := rows netscan_df in
  ∃ G, build_graph ps ns = Ok G ∧
    ∀ e a, g_adj G !! e = Some a ↔
      (e ∈ parent_edges ps ∧ a = {[ "style" := "solid" ]}) ∨
      (∃ r, last_with_edge ns r ∧ conn_key r = Some e ∧
            a = {[ "style" := "dashed";
                   "label" := "Port: " +:+ pretty (Netscan.ForeignPort r) ]}).
Proof.
  intros Hl ps ns. destruct (loaded_build _ _ _ _ Hl) as (G & HG & Hns).
  exists G. split; [done|]. intros e a. by apply build_graph_edge_attrs.
Qed.

(** X3: both ends of every edge are nodes of the graph, and every edge
    leaves a process node: an address node has no outgoing edge. *)
Theorem X3_edges_closed read_ps read_ns pslist_df netscan_df :
  loads read_ps read_ns pslist_df netscan_df →
  ∃ G, build_graph (rows pslist_df) (rows netscan_df) = Ok G ∧
    ∀ u v, (u, v) ∈ dom (g_adj G) →
      u ∈ dom (g_node G) ∧ v ∈ dom (g_node G) ∧ ∃ pid, u = NPid pid.
Proof.
  intros Hl. destruct (loaded_build _ _ _ _ Hl) as (G & HG & Hns).
  exists G. split; [done|]. intros u v.
  rewrite (build_graph_adj_dom _ _ _ Hns HG), (build_graph_node_dom _ _ _ Hns HG).
  rewrite !elem_of_union. intros [He | He].
  - apply elem_of_parent_edges in He as (r & Hr & -> & -> & _ & Hin).
    apply list_elem_of_fmap in Hin as (r' & Heq & Hr').
    split; [|split; [|eauto]]; left; left; apply elem_of_pslist_pid_nodes.
    + exists r'. by rewrite Heq.
    + by exists r.
  - apply (elem_of_conn_edges _ _ Hns) in He as (r & Hr & Hk).
    unfold conn_key in Hk. destruct (skip r) eqn:Hs; [done|].
    unfold addr_text in Hk.
    destruct (Netscan.ForeignAddr r) as [s| | |] eqn:Ha; try discriminate.
    injection Hk as <- <-.
    assert (Netscan.PID r ≠ 0) as Hp.
    { rewrite Forall_forall in Hns. rewrite (skip_addr_ok r (Hns r Hr)) in Hs.
      by apply Z.eqb_neq. }
    split; [|split; [|eauto]].
    + right. apply elem_of_conn_pid_nodes. by exists r.
    + left. right. apply elem_of_conn_ip_nodes. by exists r, s.
Qed.

(** X4: a listed process with a nonzero PID is red exactly when a dashed
    edge leaves its node; the node of PID 0 never has such an edge,
    whatever its colour. *)
Theorem X4_red_iff_connected read_ps read_ns pslist_df netscan_df :
  loads read_ps read_ns pslist_df netscan_df →
  ∃ G, build_graph (rows pslist_df) (rows netscan_df) = Ok G ∧
    (∀ r, r ∈ rows pslist_df → Pslist.PID r ≠ 0 →
       has_attr G (NPid (Pslist.PID r)) "color" "red" ↔
       ∃ ip, (NPid (Pslist.PID r), NIp ip) ∈ dom (g_adj G)) ∧
    (∀ ip, (NPid 0, NIp ip) ∉ dom (g_adj G)).
Proof.
  intros Hl. destruct (loaded_build _ _ _ _ Hl) as (G & HG & Hns).
  exists G. split; [done|].
  assert (Hconn : ∀ p ip, (NPid p, NIp ip) ∈ dom (g_adj G) ↔
            ∃ r, r ∈ rows netscan_df ∧ Netscan.PID r = p ∧ p ≠ 0 ∧
                 Netscan.ForeignAddr r = CStr ip).
  { intros p ip. rewrite (build_graph_adj_dom _ _ _ Hns HG), elem_of_union. split.
    - intros [He | He].
      + by apply elem_of_parent_edges in He as (r & _ & _ & ? & _).
      + apply (elem_of_conn_edges _ _ Hns) in He as (r & Hr & Hk).
        unfold conn_key in Hk. destruct (skip r) eqn:Hs; [done|].
        unfold addr_text in Hk.
        destruct (Netscan.ForeignAddr r) as [s| | |] eqn:Ha; try discriminate.
        injection Hk as <- <-. exists r. repeat split; try done.
        rewrite Forall_forall in Hns. rewrite (skip_addr_ok r (Hns r Hr)) in Hs.
        by apply Z.eqb_neq.
    - intros (r & Hr & <- & Hp & Ha). right. apply (elem_of_conn_edges _ _ Hns).
      exists r. split; [done|]. unfold conn_key.
      rewrite Forall_forall in Hns. rewrite (skip_false r (Hns r Hr) Hp).
      by rewrite (addr_text_Some r ip Ha). }
  split.
  - intros r Hr Hp.
    pose proof (build_graph_proc_color _ _ _ r HG Hr) as Hc. unfold proc_color in Hc.
    rewrite Forall_forall in Hns. split.
    + intros Hred. case_bool_decide as Hin;
        [|by pose proof (has_attr_unique _ _ _ _ _ Hc Hred)].
      apply list_elem_of_fmap in Hin as (r' & Heq & Hr').
      destruct (Hns r' Hr') as (ip & Hip & _). exists ip. apply Hconn.
      exists r'. split; [done|]. split; [by symmetry|]. split; done.
    + intros [ip (r' & Hr' & Heq & _ & _)%Hconn].
      rewrite bool_decide_eq_true_2 in Hc; [done|].
      rewrite <- Heq. by apply list_elem_of_fmap_2.
  - intros ip (r & _ & _ & Hp & _)%Hconn. done.
Qed.


(** The colour of every node, without regard to the order of the rows. *)
Lemma build_graph_color_spec ps ns G n c :
  Forall addr_ok ns → build_graph ps ns = Ok G →
  has_attr G n "color" c ↔
  (∃ r, r ∈ ps ∧ n = NPid (Pslist.PID r) ∧
        c = proc_color (Netscan.PID <$> ns) (Pslist.PID r)) ∨
  (∃ r s, r ∈ ns ∧ Netscan.PID r ≠ 0 ∧ Netscan.ForeignAddr r = CStr s ∧
          n = NIp s ∧ c = ip_color s).
Proof.
  intros Hns Hrun. unfold has_attr. split.
  - intros (a & Ha & Hc).
    apply (build_graph_node_attrs ps ns G n a Hns Hrun) in Ha
      as [(r & Hlast & -> & ->) | [(r & s & Hr & Hp & Hs & -> & ->) |
                                   (r & _ & _ & _ & _ & ->)]].
    + left. exists r. split; [by apply last_with_pid_elem|]. split; [done|].
      rewrite proc_attrs_color in Hc. congruence.
    + right. exists r, s. repeat split; try done.
      rewrite ip_attrs_color in Hc. congruence.
    + by rewrite lookup_empty in Hc.
  - intros [(r & Hr & -> & ->) | (r & s & Hr & Hp & Hs & -> & ->)].
    + exact (build_graph_proc_color ps ns G r Hrun Hr).
    + exists (ip_attrs s). split; [|apply ip_attrs_color].
      apply (build_graph_node_attrs ps ns G _ _ Hns Hrun). right. left.
      by exists r, s.
Qed.

Lemma proc_color_ext N N' p :
  (∀ x, x ∈ N ↔ x ∈ N') → proc_color N p = proc_color N' p.
Proof. intros H. unfold proc_color. by rewrite (bool_decide_ext _ _ (H p)). Qed.

Lemma fmap_perm_elem {A B} (f : A → B) (l l' : list A) y :
  l ≡ₚ l' → y ∈ f <$> l ↔ y ∈ f <$> l'.
Proof. intros H. by rewrite H. Qed.

(** X5: the set of nodes, the set of edges and the colour of every node
    do not depend on the order of the rows of either table (labels do:
    see the last-row properties). *)
Theorem X5_order_independent ps ps' ns ns' G G' :
  ps ≡ₚ ps' → ns ≡ₚ ns' → Forall addr_ok ns →
  build_graph ps ns = Ok G → build_graph ps' ns' = Ok G' →
  dom (g_node G) = dom (g_node G') ∧
  dom (g_adj G) = dom (g_adj G') ∧
  ∀ n c, has_attr G n "color" c ↔ has_attr G' n "color" c.
Proof.
  intros Hps Hnsp Hns HG HG'.
  assert (Forall addr_ok ns') as Hns' by by rewrite <- Hnsp.
  assert (Hpm : ∀ r, r ∈ ps ↔ r ∈ ps') by (intros r; by rewrite Hps).
  assert (Hnm : ∀ r, r ∈ ns ↔ r ∈ ns') by (intros r; by rewrite Hnsp).
  assert (HP : ∀ p, p ∈ Pslist.PID <$> ps ↔ p ∈ Pslist.PID <$> ps')
    by (intros p; by apply fmap_perm_elem).
  assert (HN : ∀ p, p ∈ Netscan.PID <$> ns ↔ p ∈ Netscan.PID <$> ns')
    by (intros p; by apply fmap_perm_elem).
  split; [|split].
  - rewrite (build_graph_node_dom _ _ _ Hns HG), (build_graph_node_dom _ _ _ Hns' HG').
    apply set_eq. intros n.
    rewrite !elem_of_union, !elem_of_pslist_pid_nodes, !elem_of_conn_ip_nodes,
      !elem_of_conn_pid_nodes.
    by setoid_rewrite Hpm; setoid_rewrite Hnm.
  - rewrite (build_graph_adj_dom _ _ _ Hns HG), (build_graph_adj_dom _ _ _ Hns' HG').
    apply set_eq. intros [u v].
    rewrite !elem_of_union, !elem_of_parent_edges,
      (elem_of_conn_edges ns _ Hns), (elem_of_conn_edges ns' _ Hns').
    by setoid_rewrite Hpm; setoid_rewrite Hnm; setoid_rewrite HP.
  - intros n c.
    rewrite (build_graph_color_spec _ _ _ n c Hns HG),
      (build_graph_color_spec _ _ _ n c Hns' HG').
    setoid_rewrite Hpm. setoid_rewrite Hnm.
    by setoid_rewrite (proc_color_ext _ _ _ HN).
Qed.

Lemma size_union_le_gset {A} `{Countable A} (X Y : gset A) :
  (size (X ∪ Y) ≤ size X + size Y)%nat.
Proof.
  rewrite size_union_alt. apply Nat.add_le_mono_l, subseteq_size. set_solver.
Qed.

Lemma size_list_to_set_le {A} `{Countable A} (l : list A) :
  (size (list_to_set l : gset A) ≤ length l)%nat.
Proof.
  induction l as [|x l IH].
  - change (list_to_set [] : gset A) with (∅ : gset A). by rewrite size_empty.
  - rewrite list_to_set_cons. etrans; [apply size_union_le_gset|].
    rewrite size_singleton. simpl. lia.
Qed.

Lemma nonzero_conns_length ns : (length (nonzero_conns ns) ≤ length ns)%nat.
Proof. apply List.filter_length_le. Qed.

Lemma omap_length_le {A B} (f : A → option B) (l : list A) :
  (length (omap f l) ≤ length l)%nat.
Proof.
  induction l as [|x l IH]; [done|].
  change (omap f (x :: l))
    with (match f x with Some y => y :: omap f l | None => omap f l end).
  destruct (f x); simpl; lia.
Qed.

(** X6: the graph is never larger than its input: at most one node per
    process row and two per connection row, at most one edge per row of
    either table. *)
Theorem X6_graph_size read_ps read_ns pslist_df netscan_df :
  loads read_ps read_ns pslist_df netscan_df →
  ∃ G, build_graph (rows pslist_df) (rows netscan_df) = Ok G ∧
    (size (dom (g_node G)) ≤ length (rows pslist_df) + 2 * length (rows netscan_df))%nat ∧
    (size (dom (g_adj G)) ≤ length (rows pslist_df) + length (rows netscan_df))%nat.
Proof.
  intros Hl. destruct (loaded_build _ _ _ _ Hl) as (G & HG & Hns).
  exists G. split; [done|].
  rewrite (build_graph_node_dom _ _ _ Hns HG), (build_graph_adj_dom _ _ _ Hns HG).
  pose proof (nonzero_conns_length (rows netscan_df)) as Hnz.
  assert (Hfmap : ∀ {A B} `{Countable B} (f : A → B) (l : list A),
            (size (list_to_set (f <$> l) : gset B) ≤ length l)%nat).
  { intros A B ? ? f l. etrans; [apply size_list_to_set_le|]. by rewrite length_fmap. }
  assert (Homap : ∀ {A B} `{Countable B} (f : A → option B) (l : list A),
            (size (list_to_set (omap f l) : gset B) ≤ length l)%nat).
  { intros A B ? ? f l. etrans; [apply size_list_to_set_le | apply omap_length_le]. }
  split.
  - etrans; [apply size_union_le_gset|].
    etrans; [apply Nat.add_le_mono_r, size_union_le_gset|].
    unfold pslist_pid_nodes, conn_ip_nodes, conn_pid_nodes.
    pose proof (Hfmap _ _ _ _ (λ r, NPid (Pslist.PID r)) (rows pslist_df)) as H1.
    pose proof (Homap _ _ _ _ (λ r, NIp <$> addr_text r)
                  (nonzero_conns (rows netscan_df))) as H2.
    pose proof (Hfmap _ _ _ _ (λ r, NPid (Netscan.PID r))
                  (nonzero_conns (rows netscan_df))) as H3.
    lia.
  - etrans; [apply size_union_le_gset|].
    unfold parent_edges, conn_edges.
    pose proof (Hfmap _ _ _ _ (λ r, (NPid (Pslist.PPID r), NPid (Pslist.PID r)))
      (List.filter (λ r, bool_decide (Pslist.PPID r ≠ 0 ∧
                                      Pslist.PPID r ∈ Pslist.PID <$> rows pslist_df))
         (rows pslist_df))) as H1.
    pose proof (Homap _ _ _ _
      (λ r, (λ s, (NPid (Netscan.PID r), NIp s)) <$> addr_text r)
      (nonzero_conns (rows netscan_df))) as H2.
    pose proof (List.filter_length_le
      (λ r, bool_decide (Pslist.PPID r ≠ 0 ∧ Pslist.PPID r ∈ Pslist.PID <$> rows pslist_df))
      (rows pslist_df)) as H4.
    lia.
Qed.


(* ===================================================================== *)
(** * Rendering                                                           *)
(* ===================================================================== *)

Lemma mapM_Ok {A B} (f : A → result B) l k :
  mapM f l = Ok k ↔ Forall2 (λ x y, f x = Ok y) l k.
Proof.
  revert k. induction l as [|x l IH]; intros k.
  - split; [intros [= <-]; constructor | by inversion 1].
  - rewrite mapM_cons_result. destruct (f x) as [y|e] eqn:Hx; step_bind.
    + destruct (mapM f l) as [k'|e] eqn:Hl.
      * split.
        -- intros [= <-]. constructor; [done | by apply IH].
        -- inversion 1 as [|? y' ? k'' Hy Hk]; subst.
           apply IH in Hk. injection Hk as ->. unfold mret, result_ret. congruence.
      * split; [done|]. inversion 1 as [|? y' ? k'' Hy Hk]; subst.
        by apply IH in Hk.
    + split; [done|]. inversion 1; congruence.
Qed.

Lemma mapM_total {A B} (f : A → result B) l :
  Forall (λ x, ∃ y, f x = Ok y) l → ∃ k, mapM f l = Ok k.
Proof.
  induction 1 as [|x l [y Hy] _ [k IH]]; [by exists []|].
  exists (y :: k). by rewrite mapM_cons_result, Hy, IH.
Qed.

Lemma Forall2_elem_r {A B} (P : A → B → Prop) l k y :
  Forall2 P l k → y ∈ k → ∃ x, x ∈ l ∧ P x y.
Proof.
  induction 1 as [|x y' l k Hxy _ IH]; [by intros ?%not_elem_of_nil|].
  intros [-> | Hy]%elem_of_cons.
  - exists x. split; [by left | done].
  - destruct (IH Hy) as (x' & Hx' & HP). exists x'. split; [by right | done].
Qed.

Lemma Forall2_elem_l {A B} (P : A → B → Prop) l k x :
  Forall2 P l k → x ∈ l → ∃ y, y ∈ k ∧ P x y.
Proof.
  induction 1 as [|x' y l k Hxy _ IH]; [by intros ?%not_elem_of_nil|].
  intros [-> | Hx]%elem_of_cons.
  - exists y. split; [by left | done].
  - destruct (IH Hx) as (y' & Hy' & HP). exists y'. split; [by right | done].
Qed.

Lemma Forall2_fmap_keys {A B K} (P : A → B → Prop) (ka : A → K) (kb : B → K) l k :
  (∀ x y, P x y → kb y = ka x) → Forall2 P l k → kb <$> k = ka <$> l.
Proof.
  intros Hkey. induction 1 as [|x y l k Hxy _ IH]; [done|].
  csimpl. by rewrite (Hkey x y Hxy), IH.
Qed.

Lemma pyvis_node_Ok na v :
  pyvis_node na = Ok v ↔
  v_id v = na.1 ∧ na.2 !! "label" = Some (v_label v) ∧
  na.2 !! "color" = Some (v_color v) ∧ na.2 !! "shape" = Some (v_shape v).
Proof.
  unfold pyvis_node, attr.
  destruct (na.2 !! "label") as [l|]; step_bind; [|split; [done | by intros (_ & ? & _)]].
  destruct (na.2 !! "color") as [c|]; step_bind; [|split; [done | by intros (_ & _ & ? & _)]].
  destruct (na.2 !! "shape") as [s|]; step_bind; [|split; [done | by intros (_ & _ & _ & ?)]].
  split.
  - by intros [= <-].
  - destruct v as [i l' c' s']. simpl. intros (-> & [= ->] & [= ->] & [= ->]). done.
Qed.

Lemma pyvis_edge_Ok ea e :
  pyvis_edge ea = Ok e ↔
  ∃ st, ea.2 !! "style" = Some st ∧
        e_source e = ea.1.1 ∧ e_target e = ea.1.2 ∧
        e_dashes e = String.eqb st "dashed" ∧
        e_title e = default "" (ea.2 !! "label").
Proof.
  unfold pyvis_edge, attr.
  destruct (ea.2 !! "style") as [st|]; step_bind; [|split; [done | by intros (? & ? & _)]].
  split.
  - intros [= <-]. by exists st.
  - destruct e as [a b d t]. simpl. intros (st' & [= <-] & -> & -> & -> & ->). done.
Qed.

Lemma pyvis_export_Ok G net :
  pyvis_export G = Ok net ↔
  mapM pyvis_node (map_to_list (g_node G)) = Ok (net_nodes net) ∧
  mapM pyvis_edge (map_to_list (g_adj G)) = Ok (net_edges net).
Proof.
  unfold pyvis_export.
  destruct (mapM pyvis_node (map_to_list (g_node G))) as [ns|e]; step_bind;
    [|split; [done | by intros [? _]]].
  destruct (mapM pyvis_edge (map_to_list (g_adj G))) as [es|e]; step_bind;
    [|split; [done | by intros [_ ?]]].
  split.
  - by intros [= <-].
  - destruct net as [ns' es']. simpl. by intros [[= ->] [= ->]].
Qed.

Lemma solid_attrs_style : solid_attrs !! "style" = Some "solid".
Proof. done. Qed.

Lemma conn_attrs_style port : conn_attrs port !! "style" = Some "dashed".
Proof. done. Qed.

Lemma conn_attrs_label port :
  conn_attrs port !! "label" = Some ("Port: " +:+ pretty port).
Proof. done. Qed.

Lemma edge_exact_style G u v a :
  edge_exact G → g_adj G !! (u, v) = Some a →
  a !! "style" = Some (match v with NPid _ => "solid" | NIp _ => "dashed" end).
Proof.
  intros HG Ha. specialize (HG u v a Ha). destruct v as [c|s].
  - by rewrite HG.
  - destruct HG as [port ->]. apply conn_attrs_style.
Qed.

(** The export succeeds exactly when the colour lookups do. *)
Lemma build_graph_export_iff ps ns G :
  Forall addr_ok ns → build_graph ps ns = Ok G →
  (∃ cols, node_colors G = Ok cols) ↔ (∃ net, pyvis_export G = Ok net).
Proof.
  intros Hns HG. rewrite node_colors_Ok. split.
  - intros Hcol.
    destruct (mapM_total pyvis_node (map_to_list (g_node G))) as [vs Hvs].
    { apply Forall_forall. intros [n a] Hna%elem_of_map_to_list.
      destruct (Hcol n a Hna) as [c Hc].
      apply (build_graph_node_attrs _ _ _ n a Hns HG) in Hna
        as [(r & _ & _ & ->) | [(r & s & _ & _ & _ & _ & ->) | (r & _ & _ & _ & _ & ->)]].
      - eexists {| v_id := n |}. apply pyvis_node_Ok. simpl. by repeat split.
      - eexists {| v_id := n |}. apply pyvis_node_Ok. simpl. by repeat split.
      - by rewrite lookup_empty in Hc. }
    destruct (mapM_total pyvis_edge (map_to_list (g_adj G))) as [es Hes].
    { apply Forall_forall. intros [[u v] a] Ha%elem_of_map_to_list.
      pose proof (edge_exact_style G u v a (build_graph_edge_exact _ _ _ HG) Ha) as Hst.
      eexists {| e_source := u |}. apply pyvis_edge_Ok. eexists. simpl.
      by repeat split. }
    exists {| net_nodes := vs; net_edges := es |}. by apply pyvis_export_Ok.
  - intros [net [Hvs _]%pyvis_export_Ok] n a Hna.
    apply mapM_Ok in Hvs.
    destruct (Forall2_elem_l _ _ _ (n, a) Hvs) as (v & _ & Hv);
      [by apply elem_of_map_to_list|].
    apply pyvis_node_Ok in Hv as (_ & _ & Hc & _). eauto.
Qed.

(** X7: once the colour lookups of line 88 have succeeded, none of the
    attribute lookups of lines 103-106 can raise a [KeyError]: every
    node then has a label, a colour and a shape, and every edge has a
    style.  Conversely those lookups fail whenever the colour lookups
    do.  Whether pyvis then accepts the nodes and edges is another
    matter, which [pyvis_export] does not decide. *)
Theorem X7_export_safe read_ps read_ns pslist_df netscan_df :
  loads read_ps read_ns pslist_df netscan_df →
  ∃ G, build_graph (rows pslist_df) (rows netscan_df) = Ok G ∧
    ((∃ cols, node_colors G = Ok cols) ↔ (∃ net, pyvis_export G = Ok net)).
Proof.
  intros Hl. destruct (loaded_build _ _ _ _ Hl) as (G & HG & Hns).
  exists G. split; [done|]. exact (build_graph_export_iff _ _ G Hns HG).
Qed.


(** What a comprehension over the items of a dictionary collects. *)
Lemma mapM_items `{Countable K} {V B} (m : gmap K V) (f : K * V → result B) k :
  mapM f (map_to_list m) = Ok k →
  ∀ y, y ∈ k ↔ ∃ i x, m !! i = Some x ∧ f (i, x) = Ok y.
Proof.
  intros Hk%mapM_Ok y. split.
  - intros Hy. destruct (Forall2_elem_r _ _ _ y Hk Hy) as ([i x] & Hix & Hf).
    exists i, x. split; [by apply elem_of_map_to_list | done].
  - intros (i & x & Hix & Hf).
    destruct (Forall2_elem_l _ _ _ (i, x) Hk) as (y' & Hy' & Hf');
      [by apply elem_of_map_to_list|].
    congruence.
Qed.

Lemma mapM_items_NoDup `{Countable K} {V B} (m : gmap K V) (f : K * V → result B)
    (key : B → K) k :
  (∀ ix y, f ix = Ok y → key y = ix.1) →
  mapM f (map_to_list m) = Ok k → NoDup (key <$> k).
Proof.
  intros Hkey Hk%mapM_Ok.
  rewrite (Forall2_fmap_keys _ fst key _ _ Hkey Hk). apply NoDup_fst_map_to_list.
Qed.

(** X8: the network handed to the interactive renderer has one node for
    every node of the graph, with its label, colour and shape, and one
    edge for every edge of the graph; a parent-to-child edge is exported
    plain with an empty title, a connection edge dashed with the port of
    the last row for that pair as its title. *)
Theorem X8_export_content read_ps read_ns pslist_df netscan_df :
  loads read_ps read_ns pslist_df netscan_df →
  let ps := rows pslist_df in
  let ns := rows netscan_df in
  ∃ G, build_graph ps ns = Ok G ∧
    ∀ net, pyvis_export G = Ok net →
      NoDup (v_id <$> net_nodes net) ∧
      (∀ v, v ∈ net_nodes net ↔
         g_node G !! v_id v =
         Some {[ "label" := v_label v; "color" := v_color v; "shape" := v_shape v ]}) ∧
      NoDup ((λ e, (e_source e, e_target e)) <$> net_edges net) ∧
      (∀ e, e ∈ net_edges net ↔
         ((e_source e, e_target e) ∈ parent_edges ps ∧
          e_dashes e = false ∧ e_title e = "") ∨
         (∃ r, last_with_edge ns r ∧ conn_key r = Some (e_source e, e_target e) ∧
               e_dashes e = true ∧
               e_title e = "Port: " +:+ pretty (Netscan.ForeignPort r))).
Proof.
  intros Hl ps ns. destruct (loaded_build _ _ _ _ Hl) as (G & HG & Hns).
  subst ps ns.
  exists G. split; [done|]. intros net [Hvs Hes]%pyvis_export_Ok.
  split; [|split; [|split]].
  - apply (mapM_items_NoDup (g_node G) pyvis_node v_id _); [|done].
    by intros ix y (? & _)%pyvis_node_Ok.
  - intros v. rewrite (mapM_items (g_node G) _ _ Hvs v). split.
    + intros (n & a & Hna & (Hid & Hlab & Hcol & Hsh)%pyvis_node_Ok).
      simpl in *. rewrite Hid, Hna. f_equal.
      apply (build_graph_node_attrs _ _ _ n a Hns HG) in Hna
        as [(r & _ & _ & ->) | [(r & s & _ & _ & _ & _ & ->) | (r & _ & _ & _ & _ & ->)]].
      * rewrite proc_attrs_label in Hlab. rewrite proc_attrs_color in Hcol.
        assert (∀ N, proc_attrs N r !! "shape" = Some "circle") as Hs by done.
        rewrite Hs in Hsh. injection Hlab as <-. injection Hcol as <-.
        by injection Hsh as <-.
      * assert (ip_attrs s !! "label" = Some s) as Hl' by done.
        assert (ip_attrs s !! "shape" = Some "box") as Hs' by done.
        rewrite Hl' in Hlab. rewrite ip_attrs_color in Hcol. rewrite Hs' in Hsh.
        injection Hlab as <-. injection Hcol as <-. by injection Hsh as <-.
      * by rewrite lookup_empty in Hlab.
    + intros Hv. eexists (v_id v), _. split; [exact Hv|]. by apply pyvis_node_Ok.
  - apply (mapM_items_NoDup (g_adj G) pyvis_edge (λ e, (e_source e, e_target e)) _); [|done].
    intros [[u v] a] y (st & _ & -> & -> & _)%pyvis_edge_Ok. done.
  - intros e. rewrite (mapM_items (g_adj G) _ _ Hes e). split.
    + intros ([u v] & a & Ha & (st & Hst & Hu & Hv & Hd & Ht)%pyvis_edge_Ok).
      simpl in *. rewrite Hu, Hv.
      apply (build_graph_edge_attrs _ _ _ _ a Hns HG) in Ha
        as [[Hp ->] | (r & Hlast & Hk & ->)].
      * left. rewrite solid_attrs_style in Hst. injection Hst as <-.
        by rewrite Hd, Ht.
      * right. exists r. rewrite conn_attrs_style in Hst. injection Hst as <-.
        rewrite Hd, Ht, conn_attrs_label. done.
    + intros [(Hp & Hd & Ht) | (r & Hlast & Hk & Hd & Ht)].
      * exists (e_source e, e_target e), solid_attrs. split.
        -- apply (build_graph_edge_attrs _ _ G _ _ Hns HG). by left.
        -- apply pyvis_edge_Ok. exists "solid". simpl.
           by rewrite Hd, Ht.
      * exists (e_source e, e_target e), (conn_attrs (Netscan.ForeignPort r)). split.
        -- apply (build_graph_edge_attrs _ _ G _ _ Hns HG). right. by exists r.
        -- apply pyvis_edge_Ok. exists "dashed". simpl.
           by rewrite Hd, Ht, conn_attrs_label.
Qed.


Lemma elem_of_dom_get_edge_attributes G name e :
  e ∈ dom (get_edge_attributes G name) ↔
  ∃ a, g_adj G !! e = Some a ∧ is_Some (a !! name).
Proof.
  unfold get_edge_attributes. rewrite elem_of_dom, lookup_omap.
  destruct (g_adj G !! e) as [a|]; simpl.
  - split; [by exists a | by intros (? & [= <-] & ?)].
  - split; [by intros [? ?] | by intros (? & ? & _)].
Qed.

Lemma elem_of_dom_get_node_attributes G name n :
  n ∈ dom (get_node_attributes G name) ↔
  ∃ a, g_node G !! n = Some a ∧ is_Some (a !! name).
Proof.
  unfold get_node_attributes. rewrite elem_of_dom, lookup_omap.
  destruct (g_node G !! n) as [a|]; simpl.
  - split; [by exists a | by intros (? & [= <-] & ?)].
  - split; [by intros [? ?] | by intros (? & ? & _)].
Qed.

(** X9: what the static rendering reads back.  Every edge has a style,
    so the default of [edge_styles.get(edge, "solid")] is never taken:
    an edge into an address is drawn dashed, an edge into a process
    solid.  Edge labels exist exactly on the connection edges, and node
    labels on every listed process and every address, but not on the
    node of a connection whose PID is not listed. *)
Theorem X9_attributes_read_back read_ps read_ns pslist_df netscan_df :
  loads read_ps read_ns pslist_df netscan_df →
  let ps := rows pslist_df in
  let ns := rows netscan_df in
  ∃ G, build_graph ps ns = Ok G ∧
    dom (get_edge_attributes G "style") = dom (g_adj G) ∧
    (∀ u v, (u, v) ∈ dom (g_adj G) →
       drawn_style G (u, v) = match v with NPid _ => "solid" | NIp _ => "dashed" end) ∧
    dom (get_edge_attributes G "label") = conn_edges ns ∧
    dom (get_node_attributes G "label") = pslist_pid_nodes ps ∪ conn_ip_nodes ns.
Proof.
  intros Hl ps ns. destruct (loaded_build _ _ _ _ Hl) as (G & HG & Hns). subst ps ns.
  exists G. split; [done|].
  pose proof (build_graph_edge_exact _ _ _ HG) as Hex.
  split; [|split; [|split]].
  - apply set_eq. intros [u v]. rewrite elem_of_dom_get_edge_attributes, elem_of_dom.
    split; [by intros (a & -> & _)|].
    intros [a Ha]. exists a. split; [done|].
    rewrite (edge_exact_style G u v a Hex Ha). eauto.
  - intros u v [a Ha]%elem_of_dom. unfold drawn_style, get_edge_attributes.
    rewrite lookup_omap, Ha. simpl. by rewrite (edge_exact_style G u v a Hex Ha).
  - apply set_eq. intros e. rewrite elem_of_dom_get_edge_attributes. split.
    + intros (a & Ha & [l Hl']).
      apply (build_graph_edge_attrs _ _ _ _ a Hns HG) in Ha
        as [[Hp ->] | (r & (l1 & l2 & Hsplit & _) & Hk & ->)]; [done|].
      apply (elem_of_conn_edges _ _ Hns). exists r. split; [|done].
      rewrite Hsplit. apply elem_of_app. right. by left.
    + intros He. assert (e ∈ dom (g_adj G)) as [a Ha]%elem_of_dom
        by (rewrite (build_graph_adj_dom _ _ _ Hns HG); set_solver).
      exists a. split; [done|]. destruct e as [u v].
      apply conn_edges_target in He as [s ->].
      destruct (Hex _ _ _ Ha) as [port ->]. rewrite conn_attrs_label. eauto.
  - apply set_eq. intros n.
    rewrite elem_of_dom_get_node_attributes, elem_of_union,
      elem_of_pslist_pid_nodes, elem_of_conn_ip_nodes. split.
    + intros (a & Ha & [l Hl']).
      apply (build_graph_node_attrs _ _ _ n a Hns HG) in Ha
        as [(r & Hlast & -> & ->) | [(r & s & Hr & Hp & Hs & -> & ->) |
                                     (r & _ & _ & _ & _ & ->)]].
      * left. exists r. split; [by apply last_with_pid_elem | done].
      * right. by exists r, s.
      * by rewrite lookup_empty in Hl'.
    + intros [(r & Hr & ->) | (r & s & Hr & Hp & Hs & ->)].
      * destruct (last_with_pid_exists _ r Hr) as (r' & Hlast & Heq).
        exists (proc_attrs (Netscan.PID <$> rows netscan_df) r'). split.
        -- rewrite <- Heq. exact (build_graph_listed _ _ G r' HG Hlast).
        -- rewrite proc_attrs_label. eauto.
      * exists (ip_attrs s). split.
        -- apply (build_graph_node_attrs _ _ G _ _ Hns HG). right. left. by exists r, s.
        -- by exists s.
Qed.


(* ===================================================================== *)
(** * The run as a whole                                                  *)
(* ===================================================================== *)

(** The run, by the outcome of its stages. *)
Lemma main_unfold (e : env) :
  let d1 := debug_of pslist_file (read_csv e pslist_file) in
  let d2 := debug_of netscan_file (read_csv e netscan_file) in
  main e =
  match load_pslist_body (read_csv e pslist_file) with
  | Raise ex => stop (d1 ++ [EvError (error_of pslist_file ex)]) (Exited 1)
  | Ok pslist_df =>
      match load_netscan_body (read_csv e netscan_file) with
      | Raise ex => stop (d1 ++ d2 ++ [EvError (error_of netscan_file ex)]) (Exited 1)
      | Ok netscan_df =>
          match build_graph (rows pslist_df) (rows netscan_df) with
          | Raise ex => stop (d1 ++ d2) (Uncaught ex)
          | Ok G => render e (d1 ++ d2) G
          end
      end
  end.
Proof.
  intros d1 d2. unfold main, load_pslist, load_netscan, load.
  destruct (load_pslist_body (read_csv e pslist_file)) as [tp|ex]; [|done].
  destruct (load_netscan_body (read_csv e netscan_file)) as [tn|ex]; [|done].
  done.
Qed.

Lemma node_colors_cases G :
  (∃ cols, node_colors G = Ok cols) ∨ node_colors G = Raise (KeyError "color").
Proof.
  destruct (node_colors G) as [cols|ex] eqn:Hc; [by left; eexists|]. right.
  destruct (decide (Forall (λ na : node * attrs, is_Some (na.2 !! "color"))
                      (map_to_list (g_node G)))) as [Hall|Hnot].
  - destruct (collect_colors_Ok _ Hall) as [cols Hcols].
    unfold node_colors in Hc. congruence.
  - apply not_Forall_Exists, Exists_exists in Hnot as ([n a] & Hin & Hno); [|apply _].
    apply elem_of_map_to_list in Hin. rewrite <- Hc.
    apply (node_colors_KeyError G n a Hin). simpl in Hno.
    by destruct (a !! "color"); [exfalso; apply Hno; eauto|].
Qed.

Lemma all_listed_cases ps ns :
  all_listed ps ns ∨
  ∃ r, r ∈ ns ∧ Netscan.PID r ≠ 0 ∧ Netscan.PID r ∉ Pslist.PID <$> ps.
Proof.
  induction ns as [|r ns [IH | (r' & Hr' & Hp & Hn)]].
  - left. by intros r ?%not_elem_of_nil.
  - destruct (decide (Netscan.PID r = 0)) as [Hz|Hz];
      [|destruct (decide (Netscan.PID r ∈ Pslist.PID <$> ps)) as [Hin|Hnot]].
    + left. intros x [-> | Hx]%elem_of_cons Hp; [done | by apply IH].
    + left. intros x [-> | Hx]%elem_of_cons Hp; [done | by apply IH].
    + right. exists r. split; [by left | done].
  - right. exists r'. split; [by right | done].
Qed.

Lemma debug_of_pslist read t :
  load_pslist_body read = Ok t →
  debug_of pslist_file read = [EvColumns pslist_file (columns t)].
Proof. by intros (df & -> & _ & ->)%load_pslist_body_inv. Qed.

Lemma debug_of_netscan read t :
  load_netscan_body read = Ok t →
  debug_of netscan_file read = [EvColumns netscan_file (columns t)].
Proof. by intros (df & -> & _ & _ & _ & ->)%load_netscan_body_inv. Qed.

(** Once the graph is built the rest of the run is the rendering. *)
Lemma script_graph_built e pslist_df netscan_df G :
  graph_built e pslist_df netscan_df G →
  script e =
  stop (EvVersion (pyvis_version e) ::
        trace (render e (columns_printed pslist_df netscan_df) G))
       (final (render e (columns_printed pslist_df netscan_df) G)).
Proof.
  intros (Hi & Hm & [Hps Hns] & HG). unfold script.
  rewrite Hi, Hm, main_unfold, Hps, Hns, HG.
  by rewrite (debug_of_pslist _ _ Hps), (debug_of_netscan _ _ Hns).
Qed.

(** On the graph of two loaded tables the colour lookups succeed exactly
    when every connection is listed, and then the lookups of the export
    succeed as well. *)
Lemma graph_built_lookups e pslist_df netscan_df G :
  graph_built e pslist_df netscan_df G →
  ((∃ cols, node_colors G = Ok cols) ↔ all_listed (rows pslist_df) (rows netscan_df)) ∧
  ((∃ cols, node_colors G = Ok cols) ↔ (∃ net, pyvis_export G = Ok net)).
Proof.
  intros (_ & _ & [_ Hns] & HG). apply retained_rows_addr_ok in Hns. split.
  - exact (build_graph_colors _ _ G Hns HG).
  - exact (build_graph_export_iff _ _ G Hns HG).
Qed.

Lemma graph_built_unlisted e pslist_df netscan_df G r :
  graph_built e pslist_df netscan_df G →
  r ∈ rows netscan_df → Netscan.PID r ≠ 0 →
  Netscan.PID r ∉ Pslist.PID <$> rows pslist_df →
  node_colors G = Raise (KeyError "color").
Proof.
  intros Hgb Hr Hp Hnot. destruct (graph_built_lookups _ _ _ _ Hgb) as [Hcol _].
  destruct (node_colors_cases G) as [Hc | Hc]; [|done].
  apply Hcol in Hc. exfalso. apply Hnot. by apply Hc.
Qed.

(** From [net.show] on. *)
Lemma script_reaches_show e d :
  reaches_show e d →
  script e =
  match show_html e with
  | (t', Some ex) => stop (d ++ [EvSavePng] ++ t') (Uncaught ex)
  | (t', None) => stop (d ++ [EvSavePng] ++ t' ++ [EvSaved]) Completed
  end.
Proof.
  intros (tp & tn & G & net & Hgb & -> & Hl & Hall & Hd & Hnet & Hp).
  rewrite (script_graph_built _ _ _ _ Hgb). unfold render, pyvis_fill.
  destruct (graph_built_lookups _ _ _ _ Hgb) as [Hcol _].
  apply Hcol in Hall as [cols Hc]. rewrite Hl, Hc, Hd, Hnet. step_bind. rewrite Hp.
  by destruct (show_html e) as [t' [ex|]].
Qed.

(** Every way of ending is the way the script ends. *)
Lemma outcome_det e r : outcome e r → r = script e.
Proof.
  intros H. destruct H as
    [ex Hi | ex Hi Hm | ex Hi Hm Hps | tp ex Hi Hm Hps Hns
    | tp tn G ex Hgb Hl | tp tn G r Hgb Hl Hr Hp Hnot
    | tp tn G ex Hgb Hl Hall Hd | tp tn G net ex Hgb Hl Hall Hd Hnet Hp
    | d Hrs Hs | d ex Hrs Hs Hf | d ex ex' Hrs Hs Hf].
  - unfold script. by rewrite Hi.
  - unfold script. by rewrite Hi, Hm.
  - unfold script. by rewrite Hi, Hm, main_unfold, Hps.
  - unfold script. rewrite Hi, Hm, main_unfold, Hps, Hns. done.
  - rewrite (script_graph_built _ _ _ _ Hgb). unfold render. by rewrite Hl.
  - rewrite (script_graph_built _ _ _ _ Hgb). unfold render.
    by rewrite Hl, (graph_built_unlisted _ _ _ _ _ Hgb Hr Hp Hnot).
  - rewrite (script_graph_built _ _ _ _ Hgb). unfold render.
    destruct (graph_built_lookups _ _ _ _ Hgb) as [Hcol _].
    apply Hcol in Hall as [cols Hc]. by rewrite Hl, Hc, Hd.
  - rewrite (script_graph_built _ _ _ _ Hgb). unfold render, pyvis_fill.
    destruct (graph_built_lookups _ _ _ _ Hgb) as [Hcol _].
    apply Hcol in Hall as [cols Hc]. rewrite Hl, Hc, Hd, Hnet. step_bind.
    by rewrite Hp.
  - rewrite (script_reaches_show _ _ Hrs). unfold show_html. by rewrite Hs.
  - rewrite (script_reaches_show _ _ Hrs). unfold show_html. by rewrite Hs, Hf.
  - rewrite (script_reaches_show _ _ Hrs). unfold show_html. by rewrite Hs, Hf.
Qed.

(** The script ends in one of these ways. *)
Lemma script_outcome e : outcome e (script e).
Proof.
  unfold script.
  destruct (import_raises e) as [ex|] eqn:Hi; [by apply out_import|].
  destruct (makedirs_raises e) as [ex|] eqn:Hm; [by apply out_makedirs|].
  rewrite main_unfold.
  destruct (load_pslist_body (read_csv e pslist_file)) as [tp|ex] eqn:Hps;
    [|by apply out_pslist].
  destruct (load_netscan_body (read_csv e netscan_file)) as [tn|ex] eqn:Hns;
    [|by apply (out_netscan e tp)].
  destruct (loaded_graph _ _ _ _ (conj Hps Hns)) as [G HG]. rewrite HG.
  rewrite (debug_of_pslist _ _ Hps), (debug_of_netscan _ _ Hns).
  assert (graph_built e tp tn G) as Hgb by done.
  destruct (graph_built_lookups _ _ _ _ Hgb) as [Hcol Hexp].
  change ([EvColumns pslist_file (columns tp)] ++ [EvColumns netscan_file (columns tn)])
    with (columns_printed tp tn).
  unfold render, pyvis_fill.
  destruct (layout_raises e G) as [ex|] eqn:Hl; [exact (out_layout e tp tn G ex Hgb Hl)|].
  destruct (node_colors_cases G) as [Hc | Hc].
  2:{ rewrite Hc.
      destruct (all_listed_cases (rows tp) (rows tn)) as [Hall | (r & Hr & Hp & Hnot)].
      - apply Hcol in Hall as [cols Hcols]. congruence.
      - exact (out_color e tp tn G r Hgb Hl Hr Hp Hnot). }
  pose proof (proj1 Hcol Hc) as Hall. destruct (proj1 Hexp Hc) as [net Hnet].
  destruct Hc as [cols Hc]. rewrite Hc.
  destruct (draw_raises e G) as [ex|] eqn:Hd;
    [exact (out_draw e tp tn G ex Hgb Hl Hall Hd)|].
  rewrite Hnet. step_bind.
  destruct (pyvis_raises e net) as [ex|] eqn:Hp;
    [exact (out_pyvis e tp tn G net ex Hgb Hl Hall Hd Hnet Hp)|].
  assert (reaches_show e (printed e tp tn)) as Hrs by (by exists tp, tn, G, net).
  unfold show_html.
  destruct (show_raises e) as [ex|] eqn:Hs; [|exact (out_show e _ Hrs Hs)].
  destruct (fallback_raises e) as [ex'|] eqn:Hf.
  - exact (out_fallback_raises e _ ex ex' Hrs Hs Hf).
  - exact (out_fallback e _ ex Hrs Hs Hf).
Qed.



(** X10: the script reaches its normal end exactly when the imports and
    the output directory go through, both tables load, every kept
    connection with a nonzero PID comes from a listed process, neither
    the layout, the drawing nor pyvis raises, and [net.show] or, failing
    that, the writing of the HTML by hand goes through; it then printed
    the version and the two column lines, saved the picture, produced
    the HTML one way or the other, and printed the closing line. *)
Theorem X10_completes_iff (e : env) :
  final (script e) = Completed ↔
  ∃ pslist_df netscan_df G net,
    graph_built e pslist_df netscan_df G ∧
    layout_raises e G = None ∧
    all_listed (rows pslist_df) (rows netscan_df) ∧
    draw_raises e G = None ∧
    pyvis_export G = Ok net ∧
    pyvis_raises e net = None ∧
    (show_raises e = None ∨ fallback_raises e = None) ∧
    trace (script e) =
      printed e pslist_df netscan_df ++ [EvSavePng] ++ (show_html e).1 ++ [EvSaved].
Proof.
  split.
  - intros Hfin. pose proof (script_outcome e) as H.
    destruct H as
      [ex Hi | ex Hi Hm | ex Hi Hm Hps | tp ex Hi Hm Hps Hns
      | tp tn G ex Hgb Hl | tp tn G r Hgb Hl Hr Hp Hnot
      | tp tn G ex Hgb Hl Hall Hd | tp tn G net ex Hgb Hl Hall Hd Hnet Hp
      | d Hrs Hs | d ex Hrs Hs Hf | d ex ex' Hrs Hs Hf]; try discriminate.
    + destruct Hrs as (tp & tn & G & net & Hgb & -> & Hl & Hall & Hd & Hnet & Hp).
      exists tp, tn, G, net. repeat (split; [done|]). split; [by left|].
      unfold show_html. by rewrite Hs.
    + destruct Hrs as (tp & tn & G & net & Hgb & -> & Hl & Hall & Hd & Hnet & Hp).
      exists tp, tn, G, net. repeat (split; [done|]). split; [by right|].
      unfold show_html. by rewrite Hs, Hf.
  - intros (tp & tn & G & net & Hgb & Hl & Hall & Hd & Hnet & Hp & Hshow & _).
    assert (reaches_show e (printed e tp tn)) as Hrs by (by exists tp, tn, G, net).
    rewrite (script_reaches_show _ _ Hrs). unfold show_html.
    destruct (show_raises e) as [ex|]; [|done].
    destruct (fallback_raises e) as [ex'|]; [|done].
    by destruct Hshow.
Qed.

(** X11: the exceptions that escape the script.  An exception escapes
    exactly when an import or [os.makedirs] raises, or the graph is
    built and then the layout raises, or the colour lookup of line 88
    raises its [KeyError] because some kept connection with a nonzero
    PID comes from a process that is not listed, or the drawing raises,
    or pyvis raises, or [net.show] and then the writing of the HTML by
    hand both raise.  The [KeyError] of the colour lookup escapes before
    anything is saved, with the version and the two column lines
    printed; an exception of pyvis escapes after the picture is
    saved. *)
Theorem X11_uncaught_iff (e : env) ex :
  (final (script e) = Uncaught ex ↔
   import_raises e = Some ex ∨
   (import_raises e = None ∧ makedirs_raises e = Some ex) ∨
   ∃ pslist_df netscan_df G,
     graph_built e pslist_df netscan_df G ∧
     (layout_raises e G = Some ex ∨
      layout_raises e G = None ∧
      ((ex = KeyError "color" ∧
        ∃ r, r ∈ rows netscan_df ∧ Netscan.PID r ≠ 0 ∧
             Netscan.PID r ∉ Pslist.PID <$> rows pslist_df) ∨
       all_listed (rows pslist_df) (rows netscan_df) ∧
       (draw_raises e G = Some ex ∨
        draw_raises e G = None ∧
        ∃ net, pyvis_export G = Ok net ∧
          (pyvis_raises e net = Some ex ∨
           pyvis_raises e net = None ∧
           (∃ ex0, show_raises e = Some ex0) ∧ fallback_raises e = Some ex))))) ∧
  (∀ pslist_df netscan_df G r,
     graph_built e pslist_df netscan_df G → layout_raises e G = None →
     r ∈ rows netscan_df → Netscan.PID r ≠ 0 →
     Netscan.PID r ∉ Pslist.PID <$> rows pslist_df →
     script e = stop (printed e pslist_df netscan_df) (Uncaught (KeyError "color"))) ∧
  (∀ pslist_df netscan_df G net,
     graph_built e pslist_df netscan_df G → layout_raises e G = None →
     all_listed (rows pslist_df) (rows netscan_df) → draw_raises e G = None →
     pyvis_export G = Ok net → pyvis_raises e net = Some ex →
     script e = stop (printed e pslist_df netscan_df ++ [EvSavePng]) (Uncaught ex)).
Proof.
  split; [split|split].
  - intros Hfin. pose proof (script_outcome e) as H.
    destruct H as
      [ex1 Hi | ex1 Hi Hm | ex1 Hi Hm Hps | tp ex1 Hi Hm Hps Hns
      | tp tn G ex1 Hgb Hl | tp tn G r Hgb Hl Hr Hp Hnot
      | tp tn G ex1 Hgb Hl Hall Hd | tp tn G net ex1 Hgb Hl Hall Hd Hnet Hp
      | d Hrs Hs | d ex1 Hrs Hs Hf | d ex1 ex' Hrs Hs Hf];
      try discriminate; injection Hfin as <-.
    + by left.
    + by right; left.
    + right; right. exists tp, tn, G. split; [done|]. by left.
    + right; right. exists tp, tn, G. split; [done|]. right. split; [done|]. left. eauto.
    + right; right. exists tp, tn, G. split; [done|]. right. split; [done|]. right.
      split; [done|]. by left.
    + right; right. exists tp, tn, G. split; [done|]. right. split; [done|]. right.
      split; [done|]. right. split; [done|]. exists net. split; [done|]. by left.
    + destruct Hrs as (tp & tn & G & net & Hgb & -> & Hl & Hall & Hd & Hnet & Hp).
      right; right. exists tp, tn, G. split; [done|]. right. split; [done|]. right.
      split; [done|]. right. split; [done|]. exists net. split; [done|]. right. eauto.
  - intros [Hi | [[Hi Hm] | (tp & tn & G & Hgb & H)]].
    + by rewrite <- (outcome_det e _ (out_import e ex Hi)).
    + by rewrite <- (outcome_det e _ (out_makedirs e ex Hi Hm)).
    + destruct H as [Hl | [Hl [[-> (r & Hr & Hp & Hnot)] | [Hall H]]]].
      * by rewrite <- (outcome_det e _ (out_layout e tp tn G ex Hgb Hl)).
      * by rewrite <- (outcome_det e _ (out_color e tp tn G r Hgb Hl Hr Hp Hnot)).
      * destruct H as [Hd | [Hd (net & Hnet & [Hp | (Hp & [ex0 Hs] & Hf)])]].
        -- by rewrite <- (outcome_det e _ (out_draw e tp tn G ex Hgb Hl Hall Hd)).
        -- by rewrite <- (outcome_det e _ (out_pyvis e tp tn G net ex Hgb Hl Hall Hd Hnet Hp)).
        -- assert (reaches_show e (printed e tp tn)) as Hrs by (by exists tp, tn, G, net).
           by rewrite <- (outcome_det e _ (out_fallback_raises e _ ex0 ex Hrs Hs Hf)).
  - intros tp tn G r Hgb Hl Hr Hp Hnot.
    by rewrite <- (outcome_det e _ (out_color e tp tn G r Hgb Hl Hr Hp Hnot)).
  - intros tp tn G net Hgb Hl Hall Hd Hnet Hp.
    by rewrite <- (outcome_det e _ (out_pyvis e tp tn G net ex Hgb Hl Hall Hd Hnet Hp)).
Qed.

(** X12: the run exits with a status exactly when a load fails, and the
    status is 1.  When the process table fails to load the connection
    table plays no part: the run is the same whatever that file
    holds. *)
Theorem X12_exit_iff (e : env) :
  (∀ c, final (main e) = Exited c ↔
        c = 1 ∧ ((∃ ex, load_pslist_body (read_csv e pslist_file) = Raise ex) ∨
                 (∃ ex, load_netscan_body (read_csv e netscan_file) = Raise ex))) ∧
  (∀ ex, load_pslist_body (read_csv e pslist_file) = Raise ex →
     main e = stop (debug_of pslist_file (read_csv e pslist_file) ++
                    [EvError (error_of pslist_file ex)]) (Exited 1) ∧
     ∀ e', read_csv e' pslist_file = read_csv e pslist_file → main e' = main e).
Proof.
  split.
  - intros c. rewrite main_unfold.
    destruct (load_pslist_body (read_csv e pslist_file)) as [tp|ex'] eqn:Hps.
    2:{ simpl. split; [intros [= <-]; eauto | by intros [-> _]]. }
    destruct (load_netscan_body (read_csv e netscan_file)) as [tn|ex'] eqn:Hns.
    2:{ simpl. split; [intros [= <-]; eauto | by intros [-> _]]. }
    assert (∀ s, s ≠ Exited c →
                 s = Exited c ↔ c = 1 ∧ ((∃ ex, Ok tp = Raise ex) ∨
                                          (∃ ex, Ok tn = Raise ex))) as Hno.
    { intros s Hs. split; [done | by intros [_ [[? ?] | [? ?]]]]. }
    destruct (build_graph (rows tp) (rows tn)) as [G|?]; [|by apply Hno].
    unfold render.
    destruct (layout_raises e G); [by apply Hno|].
    destruct (node_colors G); [|by apply Hno].
    destruct (draw_raises e G); [by apply Hno|].
    destruct (pyvis_fill e G); [|by apply Hno].
    destruct (show_html e) as [t' [?|]]; by apply Hno.
  - intros ex Hex. split.
    + by rewrite main_unfold, Hex.
    + intros e' He'. rewrite !main_unfold, He', Hex. done.
Qed.


(* ===================================================================== *)
(** * Further properties of loading                                       *)
(* ===================================================================== *)

Lemma filter_sublist {A} (f : A → bool) (l : list A) : List.filter f l `sublist_of` l.
Proof.
  induction l as [|x l IH]; [done|]. simpl.
  destruct (f x); [by apply sublist_skip | by apply sublist_cons].
Qed.

(** X13: loading the process table keeps the columns and every row, in
    file order; a row is never dropped for a missing or unreadable PID
    or PPID, which become zero.  Loading the connection table keeps the
    columns and a subsequence of the rows. *)
Theorem X13_load_keeps_rows (df : DataFrame) :
  (∀ t, load_pslist_body (Ok df) = Ok t →
     columns t = columns df ∧
     length (rows t) = length (rows df) ∧
     ∀ i raw, rows df !! i = Some raw →
       rows t !! i =
       Some {| Pslist.PID := coerce_int (cell_at (columns df) "PID" raw);
               Pslist.PPID := coerce_int (cell_at (columns df) "PPID" raw);
               Pslist.ImageFileName := cell_at (columns df) "ImageFileName" raw |}) ∧
  (∀ t, load_netscan_body (Ok df) = Ok t →
     columns t = columns df ∧
     rows t `sublist_of` (netscan_row_of (columns df) <$> rows df)).
Proof.
  split.
  - intros t (df' & [= <-] & _ & ->)%load_pslist_body_inv. simpl.
    split; [done|]. split; [by rewrite length_fmap|].
    intros i raw Hi. by rewrite list_lookup_fmap, Hi.
  - intros t (df' & [= <-] & _ & _ & _ & ->)%load_netscan_body_inv. simpl.
    split; [done|]. apply (filter_sublist keep_row (netscan_rows df)).
Qed.

(** X14: which error a failed load prints.  A missing file gives the
    not-found message, any other failure of the read is printed as it
    is, and in both cases no column line comes first.  Once the file is
    read the column line is printed, and then the first failing step
    decides, in the order of the source: a missing required column is
    reported as such; then an infinity in a converted column as the
    error of the cast, even when Proto is absent or the address column
    holds no text; then an absent Proto as a key error, even when the
    address column holds no text; and last the refusal of the [.str]
    accessor. *)
Theorem X14_load_errors (df : DataFrame) (ex : exn) :
  load_pslist (Raise FileNotFoundError) = ([EvError (NotFound pslist_file)], ExitWith 1) ∧
  load_netscan (Raise FileNotFoundError) = ([EvError (NotFound netscan_file)], ExitWith 1) ∧
  (ex ≠ FileNotFoundError →
     load_pslist (Raise ex) = ([EvError (LoadFailed pslist_file ex)], ExitWith 1) ∧
     load_netscan (Raise ex) = ([EvError (LoadFailed netscan_file ex)], ExitWith 1)) ∧
  (¬ required_pslist_cols ⊆ columns df →
     load_pslist (Ok df) =
     ([EvColumns pslist_file (columns df);
       EvError (LoadFailed pslist_file (ValueError required_pslist_cols (columns df)))],
      ExitWith 1)) ∧
  (required_pslist_cols ⊆ columns df →
   has_non_finite df "PID" ∨ has_non_finite df "PPID" →
     load_pslist (Ok df) =
     ([EvColumns pslist_file (columns df);
       EvError (LoadFailed pslist_file IntCastingNaNError)],
      ExitWith 1)) ∧
  (¬ required_netscan_cols ⊆ columns df →
     load_netscan (Ok df) =
     ([EvColumns netscan_file (columns df);
       EvError (LoadFailed netscan_file (ValueError required_netscan_cols (columns df)))],
      ExitWith 1)) ∧
  (required_netscan_cols ⊆ columns df →
   has_non_finite df "PID" ∨ has_non_finite df "ForeignPort" →
     load_netscan (Ok df) =
     ([EvColumns netscan_file (columns df);
       EvError (LoadFailed netscan_file IntCastingNaNError)],
      ExitWith 1)) ∧
  (required_netscan_cols ⊆ columns df →
   ¬ has_non_finite df "PID" → ¬ has_non_finite df "ForeignPort" →
   "Proto" ∉ columns df →
     load_netscan (Ok df) =
     ([EvColumns netscan_file (columns df);
       EvError (LoadFailed netscan_file (KeyError "Proto"))],
      ExitWith 1)) ∧
  (required_netscan_cols ⊆ columns df →
   ¬ has_non_finite df "PID" → ¬ has_non_finite df "ForeignPort" →
   "Proto" ∈ columns df → no_text (column df "ForeignAddr") →
     load_netscan (Ok df) =
     ([EvColumns netscan_file (columns df);
       EvError (LoadFailed netscan_file (AttributeError "str"))],
      ExitWith 1)).
Proof.
  assert (Hreq : ∀ req, ¬ req ⊆ columns df → has_columns df req = false).
  { intros req Hn. destruct (has_columns df req) eqn:H; [|done].
    by apply has_columns_spec in H. }
  split; [done|]. split; [done|]. split; [by destruct ex|].
  unfold load_pslist, load_netscan, load.
  rewrite load_pslist_body_checks, load_netscan_body_checks.
  split; [|split; [|split; [|split; [|split]]]].
  - intros Hn. by rewrite (Hreq _ Hn).
  - intros Hsub%has_columns_spec Hnf. rewrite Hsub. cbv beta iota delta [negb].
    case_bool_decide; [done|]. case_bool_decide; [done|]. tauto.
  - intros Hn. by rewrite (Hreq _ Hn).
  - intros Hsub%has_columns_spec Hnf. rewrite Hsub. cbv beta iota delta [negb].
    case_bool_decide; [done|]. case_bool_decide; [done|]. tauto.
  - intros Hsub%has_columns_spec Hpid Hport Hp. rewrite Hsub.
    cbv beta iota delta [negb].
    by rewrite (bool_decide_eq_false_2 _ Hpid), (bool_decide_eq_false_2 _ Hport),
      (bool_decide_eq_true_2 _ Hp).
  - intros Hsub%has_columns_spec Hpid Hport Hp Hnt. rewrite Hsub.
    cbv beta iota delta [negb].
    rewrite (bool_decide_eq_false_2 _ Hpid), (bool_decide_eq_false_2 _ Hport).
    rewrite (bool_decide_eq_false_2 ("Proto" ∉ columns df)) by (by intros ?).
    by rewrite (bool_decide_eq_true_2 _ Hnt).
Qed.

(** X15: the address filter accepts exactly the texts made of four
    non-empty runs of digits separated by dots, possibly followed by one
    newline; it puts no bound on the four numbers. *)
Theorem X15_address_pattern (s : string) :
  ipv4_match s = true ↔
  ∃ w, Regex.dotted_quad w ∧
       (list_ascii_of_string s = w ∨ list_ascii_of_string s = w ++ [Regex.newline]).
Proof.
  rewrite ipv4_match_spec. unfold Regex.MatchesDollar.
  split; intros (w & Hw & Hs); exists w; (split; [by apply ipv4_body_spec | done]).
Qed.


Lemma startswith_spec s p :
  startswith s p = true ↔
  ∃ t, list_ascii_of_string s = list_ascii_of_string p ++ t.
Proof.
  revert s. induction p as [|a p IH]; intros s.
  - destruct s; simpl; (split; [eauto | done]).
  - destruct s as [|b s]; simpl.
    + split; [done | by intros [t ?]].
    + rewrite andb_true_iff, IH. split.
      * intros [->%Ascii.eqb_eq [t ->]]. by exists t.
      * intros [t [= -> ->]]. split; [apply Ascii.eqb_refl | by exists t].
Qed.

Lemma digits_no_dot a : Regex.digits a → Forall (λ c, c ≠ "."%char) a.
Proof.
  intros [_ Ha]. eapply Forall_impl; [exact Ha|]. by intros c Hc ->.
Qed.

(** Two texts cut at their first dot agree piece by piece. *)
Lemma split_at_dot a a' r r' :
  Forall (λ c, c ≠ "."%char) a → Forall (λ c, c ≠ "."%char) a' →
  a ++ "."%char :: r = a' ++ "."%char :: r' → a = a' ∧ r = r'.
Proof.
  intros Ha. revert a'. induction Ha as [|c a Hc _ IH]; intros a' Ha' Heq.
  - destruct Ha' as [|c' a' Hc' _]; simpl in Heq; [by injection Heq as ->|].
    injection Heq as <- _. done.
  - destruct Ha' as [|c' a' Hc' Ha']; simpl in Heq.
    + injection Heq as -> _. done.
    + injection Heq as -> Heq. destruct (IH a' Ha' Heq) as [-> ->]. done.
Qed.

(** X16: on a dotted address the two prefix tests read octets: the node
    is lightgreen exactly when the first octet is written 10, or the
    first two are written 192 and 168, and orange otherwise; other
    private ranges, and the same numbers written with leading zeros,
    count as external. *)
Theorem X16_local_by_octets (s : string) a b rest :
  list_ascii_of_string s = a ++ "."%char :: b ++ "."%char :: rest →
  Regex.digits a → Regex.digits b →
  let local := a = list_ascii_of_string "10" ∨
               (a = list_ascii_of_string "192" ∧ b = list_ascii_of_string "168") in
  (ip_color s = "lightgreen" ↔ local) ∧ (ip_color s = "orange" ↔ ¬ local).
Proof.
  clear str_to_num. intros Hs Ha%digits_no_dot Hb%digits_no_dot local.
  assert (H10 : startswith s "10." = true ↔ a = list_ascii_of_string "10").
  { rewrite startswith_spec, Hs. split.
    - intros [t Ht].
      apply (split_at_dot a (list_ascii_of_string "10")) in Ht as [-> _]; [done | done |].
      by repeat constructor.
    - intros ->. by eexists. }
  assert (H192 : startswith s "192.168." = true ↔
                 a = list_ascii_of_string "192" ∧ b = list_ascii_of_string "168").
  { rewrite startswith_spec, Hs. split.
    - intros [t Ht].
      apply (split_at_dot a (list_ascii_of_string "192")) in Ht as [-> Ht];
        [| done | by repeat constructor].
      apply (split_at_dot b (list_ascii_of_string "168")) in Ht as [-> _];
        [done | done | by repeat constructor].
    - intros [-> ->]. by eexists. }
  unfold ip_color. subst local.
  destruct (startswith s "192.168.") eqn:E1, (startswith s "10.") eqn:E2; simpl.
  - split; split; try done; intros; [tauto | exfalso; tauto].
  - split; split; try done; intros; [tauto | exfalso; tauto].
  - split; split; try done; intros; [tauto | exfalso; tauto].
  - split; split; try done; intros H; [|intros [H' | H']].
    + destruct H as [H | H]; [by apply H10 in H | by apply H192 in H].
    + by apply H10 in H'.
    + by apply H192 in H'.
Qed.

(** X17: the script ends in exactly one of eleven ways, each decided by
    the first stage that fails: an import, [os.makedirs], the load of
    the process table, the load of the connection table, the layout,
    the colour lookup, the drawing, pyvis, or the writing of the HTML by
    hand after [net.show] has failed; or it ends normally, with the HTML
    written by [net.show] or by hand. *)
Theorem X17_outcomes (e : env) (r : run) : outcome e r ↔ r = script e.
Proof. split; [apply outcome_det | intros ->; apply script_outcome]. Qed.

(** X18: the conversion of a column to integers.  It raises exactly
    when a cell of the column is an infinity or a text that reads as
    one; otherwise it keeps the length of the column and turns every
    cell into its integer, a missing value and a text that is not a
    number into zero. *)
Theorem X18_int_column (df : DataFrame) (c : string) :
  (has_non_finite df c ↔ int_column df c = Raise IntCastingNaNError) ∧
  (¬ has_non_finite df c ↔ ∃ l, int_column df c = Ok l) ∧
  (∀ l, int_column df c = Ok l →
     length l = length (rows df) ∧
     ∀ i raw, rows df !! i = Some raw →
       l !! i = Some (coerce_int (cell_at (columns df) c raw)) ∧
       (not_numeric (cell_at (columns df) c raw) → l !! i = Some 0) ∧
       (∀ z, cell_at (columns df) c raw = CNum z → l !! i = Some z)).
Proof.
  destruct (int_column_cases df c) as [[Hn H] | [Hn H]]; rewrite H.
  - split; [split; [done | discriminate]|]. split; [split; eauto|].
    intros l [= <-]. split; [by rewrite length_fmap|].
    intros i raw Hi. rewrite list_lookup_fmap, Hi. simpl.
    split; [done|]. split.
    + intros Hc. by rewrite (coerce_not_numeric _ Hc).
    + by intros z ->.
  - split; [done|]. split; [|discriminate].
    split; [done | by intros [l ?]].
Qed.

End Script.

(* ===================================================================== *)
(** * The properties on the example inputs                                *)
(* ===================================================================== *)

Example ex_retained :
  load_netscan_body decimal_to_num (Ok ex_netscan) =
  Ok {| columns := ["Proto"; "ForeignAddr"; "ForeignPort"; "PID"];
        rows := [ Netscan.Build_row 612 (CStr "93.184.216.34") 443 (CStr "TCPv4");
                  Netscan.Build_row 612 (CStr "192.168.1.10") 445 (CStr "TCPv4");
                  Netscan.Build_row 0 (CStr "10.0.0.5") 80 (CStr "TCPv4");
                  Netscan.Build_row 612 (CStr "93.184.216.34") 80 (CStr "TCPv4") ] |}.
Proof. vm_compute. reflexivity. Qed.

Example ex_labels :
  proc_label (CStr "evil.exe") 700 = "evil.exe (700)" ∧
  conn_attrs 443 !! "label" = Some "Port: 443".
Proof. split; vm_compute; reflexivity. Qed.


Example ex_run_unlisted :
  final (script decimal_to_num ex_env_unlisted) = Uncaught (KeyError "color").
Proof. vm_compute. reflexivity. Qed.

Example ex_run_pyvis_fails :
  script decimal_to_num ex_env_pyvis_fails =
  {| trace := [EvVersion "0.3.2";
               EvColumns pslist_file ["PID"; "PPID"; "ImageFileName"; "Threads"];
               EvColumns netscan_file ["Proto"; "ForeignAddr"; "ForeignPort"; "PID"];
               EvSavePng];
     final := Uncaught (LibraryError "pyvis add_node") |}.
Proof. vm_compute. reflexivity. Qed.

Example ex_load_inf :
  load_pslist decimal_to_num (Ok ex_pslist_inf) =
  ([EvColumns pslist_file ["PID"; "PPID"; "ImageFileName"];
    EvError (LoadFailed pslist_file IntCastingNaNError)], ExitWith 1).
Proof. vm_compute. reflexivity. Qed.

Lemma C1_process_color_witness :
  ∃ pslist_df netscan_df G,
    loads decimal_to_num (Ok ex_pslist) (Ok ex_netscan) pslist_df netscan_df ∧
    build_graph (rows pslist_df) (rows netscan_df) = Ok G ∧
    has_attr G (NPid 612) "color" "red" ∧
    has_attr G (NPid 4) "color" "lightblue".
Proof.
  destruct (C1_process_color decimal_to_num (Ok ex_pslist) (Ok ex_netscan) _ _
              (conj eq_refl eq_refl)) as (G & HG & Hc).
  eexists _, _, G. split; [split; reflexivity|]. split; [exact HG|]. split.
  - apply (Hc (Pslist.Build_row 612 500 (CStr "chrome.exe"))); in_list.
  - apply (Hc (Pslist.Build_row 4 0 (CStr "System"))); [in_list | not_in_list].
Defined.

Lemma C2_netscan_filter_witness :
  ∃ netscan_df df keep,
    load_netscan_body decimal_to_num (Ok ex_netscan) = Ok netscan_df ∧
    Ok ex_netscan = Ok df ∧
    (∀ r, keep r = true ↔ retained_row r) ∧
    rows netscan_df = List.filter keep (netscan_rows decimal_to_num df) ∧
    length (rows netscan_df) = 4%nat.
Proof.
  destruct (C2_netscan_filter decimal_to_num (Ok ex_netscan) _ eq_refl)
    as (df & keep & Hdf & Hkeep & Hrows & _).
  eexists _, df, keep. split; [reflexivity|]. split; [exact Hdf|].
  split; [exact Hkeep|]. split; [exact Hrows | vm_compute; reflexivity].
Defined.



Lemma C4_graph_shape_witness :
  ∃ pslist_df netscan_df G,
    loads decimal_to_num (Ok ex_pslist) (Ok ex_netscan) pslist_df netscan_df ∧
    build_graph (rows pslist_df) (rows netscan_df) = Ok G ∧
    dom (g_node G) =
      pslist_pid_nodes (rows pslist_df) ∪ conn_ip_nodes (rows netscan_df) ∪
      conn_pid_nodes (rows netscan_df) ∧
    dom (g_adj G) = parent_edges (rows pslist_df) ∪ conn_edges (rows netscan_df).
Proof.
  destruct (C4_graph_shape decimal_to_num (Ok ex_pslist) (Ok ex_netscan) _ _
              (conj eq_refl eq_refl)) as (G & HG & Hn & He).
  eexists _, _, G. split; [split; reflexivity|]. split; [exact HG|].
  split; [exact Hn | exact He].
Defined.

Lemma C5_load_exit_witness :
  (load_netscan decimal_to_num (Ok ex_netscan_no_proto)).2 = ExitWith 1 ∧
  (load_pslist decimal_to_num (Raise FileNotFoundError)).2 = ExitWith 1 ∧
  (load_pslist decimal_to_num (Ok ex_pslist_inf)).2 = ExitWith 1 ∧
  ∀ t, (load_pslist decimal_to_num (Ok ex_pslist)).2 = Loaded t →
       required_pslist_cols ⊆ columns t.
Proof.
  destruct (C5_load_exit decimal_to_num (Ok ex_netscan_no_proto)) as (_ & Hn & _).
  destruct (C5_load_exit decimal_to_num (Raise FileNotFoundError)) as (Hp & _).
  destruct (C5_load_exit decimal_to_num (Ok ex_pslist_inf)) as (Hi & _).
  destruct (C5_load_exit decimal_to_num (Ok ex_pslist)) as (_ & _ & _ & _ & Hl & _).
  split; [|split; [|split; [|exact Hl]]].
  - apply Hn. right. exists ex_netscan_no_proto. split; [reflexivity|].
    right. right. right. left. not_in_list.
  - apply Hp. left. by exists FileNotFoundError.
  - apply Hi. right. exists ex_pslist_inf. split; [reflexivity|].
    right. left. apply Exists_cons_tl, Exists_cons_hd. vm_compute. reflexivity.
Defined.

(** C5 as it is worded fails: the file is there, it parses, and its
    columns include PID, ForeignAddr and ForeignPort; the filter then
    asks for the Proto column, and the load prints an error and exits
    with status 1. *)
Lemma C5_counterexample :
  required_netscan_cols ⊆ columns ex_netscan_no_proto ∧
  load_netscan decimal_to_num (Ok ex_netscan_no_proto) =
    ([EvColumns netscan_file ["PID"; "ForeignAddr"; "ForeignPort"];
      EvError (LoadFailed netscan_file (KeyError "Proto"))],
     ExitWith 1).
Proof.
  split; [|vm_compute; reflexivity].
  apply has_columns_spec. vm_compute. reflexivity.
Qed.

Lemma C6_ip_color_witness :
  ∃ pslist_df netscan_df G,
    loads decimal_to_num (Ok ex_pslist) (Ok ex_netscan) pslist_df netscan_df ∧
    build_graph (rows pslist_df) (rows netscan_df) = Ok G ∧
    has_attr G (NIp "93.184.216.34") "color" "orange" ∧
    has_attr G (NIp "192.168.1.10") "color" "lightgreen".
Proof.
  destruct (C6_ip_color decimal_to_num (Ok ex_pslist) (Ok ex_netscan) _ _
              (conj eq_refl eq_refl)) as (G & HG & Hc).
  eexists _, _, G. split; [split; reflexivity|]. split; [exact HG|]. split.
  - destruct (Hc (Netscan.Build_row 612 (CStr "93.184.216.34") 443 (CStr "TCPv4")))
      as (ip & Hip & Hcol); [in_list | done |].
    injection Hip as <-. exact Hcol.
  - destruct (Hc (Netscan.Build_row 612 (CStr "192.168.1.10") 445 (CStr "TCPv4")))
      as (ip & Hip & Hcol); [in_list | done |].
    injection Hip as <-. exact Hcol.
Defined.

Lemma C7_last_row_wins_witness :
  ∃ pslist_df netscan_df G,
    loads decimal_to_num (Ok ex_pslist) (Ok ex_netscan) pslist_df netscan_df ∧
    build_graph (rows pslist_df) (rows netscan_df) = Ok G ∧
    has_attr G (NPid 700) "label" "evil.exe (700)" ∧
    has_attr G (NPid 700) "color" "lightblue".
Proof.
  destruct (C7_last_row_wins decimal_to_num (Ok ex_pslist) (Ok ex_netscan) _ _
              [Pslist.Build_row 4 0 (CStr "System");
               Pslist.Build_row 500 4 (CStr "smss.exe");
               Pslist.Build_row 612 500 (CStr "chrome.exe")]
              (Pslist.Build_row 700 4 (CStr "svchost.exe"))
              []
              (Pslist.Build_row 700 9999 (CStr "evil.exe"))
              [Pslist.Build_row 0 0 (CStr "ghost")]
              (conj eq_refl eq_refl) eq_refl eq_refl)
    as (G & HG & Hlabel & Hcolor).
  { repeat constructor. simpl. lia. }
  eexists _, _, G. split; [split; reflexivity|]. split; [exact HG|].
  split; [exact Hlabel | exact Hcolor].
Defined.


Lemma C9_skip_is_pid_zero_witness :
  ∃ netscan_df,
    load_netscan_body decimal_to_num (Ok ex_netscan) = Ok netscan_df ∧
    ∀ r, r ∈ rows netscan_df →
      (∃ ip, Netscan.ForeignAddr r = CStr ip ∧ ip ≠ "") ∧
      truthy (Netscan.ForeignAddr r) = true ∧
      skip r = (Netscan.PID r =? 0)%Z.
Proof.
  eexists. split; [reflexivity|].
  exact (C9_skip_is_pid_zero decimal_to_num (Ok ex_netscan) _ eq_refl).
Defined.

Lemma C10_parent_edges_witness :
  ∃ pslist_df netscan_df G,
    loads decimal_to_num (Ok ex_pslist) (Ok ex_netscan) pslist_df netscan_df ∧
    build_graph (rows pslist_df) (rows netscan_df) = Ok G ∧
    (NPid 4, NPid 500) ∈ dom (g_adj G) ∧
    ((NPid 9999, NPid 700) ∉ dom (g_adj G)) ∧
    ((NPid 0, NPid 4) ∉ dom (g_adj G)) ∧
    has_parent (Pslist.PID <$> rows pslist_df)
      (pslist_row_of decimal_to_num (columns ex_pslist) [CNaN; CNaN; CStr "ghost"; CNaN])
    = false.
Proof.
  destruct (C10_parent_edges decimal_to_num (Ok ex_pslist) (Ok ex_netscan) _ _
              (conj eq_refl eq_refl)) as (G & HG & _ & _ & Hdom & _ & Hnan).
  eexists _, _, G. split; [split; reflexivity|]. split; [exact HG|].
  split; [|split; [|split]].
  - apply Hdom. exists (Pslist.Build_row 500 4 (CStr "smss.exe")).
    split; [in_list|]. repeat split; [done | in_list].
  - intros (r & _ & _ & _ & _ & Hin)%Hdom. revert Hin. not_in_list.
  - intros (r & _ & _ & _ & Hz & _)%Hdom. done.
  - apply (Hnan ex_pslist [CNaN; CNaN; CStr "ghost"; CNaN] eq_refl); [in_list|].
    by left.
Defined.


(* ===================================================================== *)
(** * The further properties on the example inputs                        *)
(* ===================================================================== *)

Lemma X1_node_attributes_witness :
  ∃ pslist_df netscan_df G,
    loads decimal_to_num (Ok ex_pslist) (Ok ex_netscan) pslist_df netscan_df ∧
    build_graph (rows pslist_df) (rows netscan_df) = Ok G ∧
    g_node G !! NPid 700 =
      Some {[ "label" := "evil.exe (700)"; "color" := "lightblue"; "shape" := "circle" ]} ∧
    g_node G !! NIp "192.168.1.10" =
      Some {[ "label" := "192.168.1.10"; "color" := "lightgreen"; "shape" := "box" ]}.
Proof.
  destruct (X1_node_attributes decimal_to_num (Ok ex_pslist) (Ok ex_netscan) _ _
              (conj eq_refl eq_refl)) as (G & HG & Hattr).
  eexists _, _, G. split; [split; reflexivity|]. split; [exact HG|]. split.
  - apply Hattr. left. exists (Pslist.Build_row 700 9999 (CStr "evil.exe")).
    split; [|split; [reflexivity | vm_compute; reflexivity]].
    exists [Pslist.Build_row 4 0 (CStr "System");
            Pslist.Build_row 500 4 (CStr "smss.exe");
            Pslist.Build_row 612 500 (CStr "chrome.exe");
            Pslist.Build_row 700 4 (CStr "svchost.exe")],
           [Pslist.Build_row 0 0 (CStr "ghost")].
    split; [reflexivity|]. repeat constructor. simpl. lia.
  - apply Hattr. right. left.
    exists (Netscan.Build_row 612 (CStr "192.168.1.10") 445 (CStr "TCPv4")), "192.168.1.10".
    split; [in_list|]. split; [done|]. split; [reflexivity|].
    split; [reflexivity | vm_compute; reflexivity].
Defined.

Lemma X2_edge_attributes_witness :
  ∃ pslist_df netscan_df G,
    loads decimal_to_num (Ok ex_pslist) (Ok ex_netscan) pslist_df netscan_df ∧
    build_graph (rows pslist_df) (rows netscan_df) = Ok G ∧
    g_adj G !! (NPid 612, NIp "93.184.216.34") =
      Some {[ "style" := "dashed"; "label" := "Port: 80" ]}.
Proof.
  destruct (X2_edge_attributes decimal_to_num (Ok ex_pslist) (Ok ex_netscan) _ _
              (conj eq_refl eq_refl)) as (G & HG & Hattr).
  eexists _, _, G. split; [split; reflexivity|]. split; [exact HG|].
  apply Hattr. right.
  exists (Netscan.Build_row 612 (CStr "93.184.216.34") 80 (CStr "TCPv4")).
  split; [|split; [reflexivity | vm_compute; reflexivity]].
  exists [Netscan.Build_row 612 (CStr "93.184.216.34") 443 (CStr "TCPv4");
          Netscan.Build_row 612 (CStr "192.168.1.10") 445 (CStr "TCPv4");
          Netscan.Build_row 0 (CStr "10.0.0.5") 80 (CStr "TCPv4")], [].
  split; [reflexivity|]. split; [by eexists | constructor].
Defined.

Lemma X3_edges_closed_witness :
  ∃ pslist_df netscan_df G,
    loads decimal_to_num (Ok ex_pslist) (Ok ex_netscan) pslist_df netscan_df ∧
    build_graph (rows pslist_df) (rows netscan_df) = Ok G ∧
    ∀ u v, (u, v) ∈ dom (g_adj G) →
      u ∈ dom (g_node G) ∧ v ∈ dom (g_node G) ∧ ∃ pid, u = NPid pid.
Proof.
  destruct (X3_edges_closed decimal_to_num (Ok ex_pslist) (Ok ex_netscan) _ _
              (conj eq_refl eq_refl)) as (G & HG & H).
  eexists _, _, G. split; [split; reflexivity|]. split; [exact HG | exact H].
Defined.

Lemma X4_red_iff_connected_witness :
  ∃ pslist_df netscan_df G,
    loads decimal_to_num (Ok ex_pslist) (Ok ex_netscan) pslist_df netscan_df ∧
    build_graph (rows pslist_df) (rows netscan_df) = Ok G ∧
    (has_attr G (NPid 612) "color" "red" ↔ ∃ ip, (NPid 612, NIp ip) ∈ dom (g_adj G)) ∧
    (∀ ip, (NPid 0, NIp ip) ∉ dom (g_adj G)).
Proof.
  destruct (X4_red_iff_connected decimal_to_num (Ok ex_pslist) (Ok ex_netscan) _ _
              (conj eq_refl eq_refl)) as (G & HG & Hred & Hzero).
  eexists _, _, G. split; [split; reflexivity|]. split; [exact HG|].
  split; [|exact Hzero].
  apply (Hred (Pslist.Build_row 612 500 (CStr "chrome.exe"))); [in_list | done].
Defined.

Lemma X5_order_independent_witness :
  ∃ G G',
    build_graph [Pslist.Build_row 4 0 (CStr "System"); Pslist.Build_row 500 4 (CStr "smss.exe")]
                [Netscan.Build_row 500 (CStr "8.8.8.8") 53 (CStr "TCPv4")] = Ok G ∧
    build_graph [Pslist.Build_row 500 4 (CStr "smss.exe"); Pslist.Build_row 4 0 (CStr "System")]
                [Netscan.Build_row 500 (CStr "8.8.8.8") 53 (CStr "TCPv4")] = Ok G' ∧
    dom (g_node G) = dom (g_node G') ∧
    dom (g_adj G) = dom (g_adj G') ∧
    ∀ n c, has_attr G n "color" c ↔ has_attr G' n "color" c.
Proof.
  eexists _, _. split; [reflexivity|]. split; [reflexivity|].
  apply (X5_order_independent decimal_to_num
           [Pslist.Build_row 4 0 (CStr "System"); Pslist.Build_row 500 4 (CStr "smss.exe")]
           [Pslist.Build_row 500 4 (CStr "smss.exe"); Pslist.Build_row 4 0 (CStr "System")]
           [Netscan.Build_row 500 (CStr "8.8.8.8") 53 (CStr "TCPv4")]
           [Netscan.Build_row 500 (CStr "8.8.8.8") 53 (CStr "TCPv4")]).
  - apply perm_swap.
  - reflexivity.
  - repeat constructor. by exists "8.8.8.8".
  - reflexivity.
  - reflexivity.
Defined.

Lemma X6_graph_size_witness :
  ∃ pslist_df netscan_df G,
    loads decimal_to_num (Ok ex_pslist) (Ok ex_netscan) pslist_df netscan_df ∧
    build_graph (rows pslist_df) (rows netscan_df) = Ok G ∧
    (size (dom (g_node G)) ≤ 6 + 2 * 4)%nat ∧
    (size (dom (g_adj G)) ≤ 6 + 4)%nat.
Proof.
  destruct (X6_graph_size decimal_to_num (Ok ex_pslist) (Ok ex_netscan) _ _
              (conj eq_refl eq_refl)) as (G & HG & Hn & He).
  eexists _, _, G. split; [split; reflexivity|]. split; [exact HG|].
  split; [exact Hn | exact He].
Defined.

Lemma X7_export_safe_witness :
  ∃ pslist_df netscan_df G,
    loads decimal_to_num (Ok ex_pslist) (Ok ex_netscan) pslist_df netscan_df ∧
    build_graph (rows pslist_df) (rows netscan_df) = Ok G ∧
    ((∃ cols, node_colors G = Ok cols) ↔ (∃ net, pyvis_export G = Ok net)).
Proof.
  destruct (X7_export_safe decimal_to_num (Ok ex_pslist) (Ok ex_netscan) _ _
              (conj eq_refl eq_refl)) as (G & HG & H).
  eexists _, _, G. split; [split; reflexivity|]. split; [exact HG | exact H].
Defined.

Lemma X8_export_content_witness :
  ∃ pslist_df netscan_df G,
    loads decimal_to_num (Ok ex_pslist) (Ok ex_netscan) pslist_df netscan_df ∧
    build_graph (rows pslist_df) (rows netscan_df) = Ok G ∧
    ∀ net, pyvis_export G = Ok net →
      NoDup (v_id <$> net_nodes net) ∧
      NoDup ((λ e, (e_source e, e_target e)) <$> net_edges net).
Proof.
  destruct (X8_export_content decimal_to_num (Ok ex_pslist) (Ok ex_netscan) _ _
              (conj eq_refl eq_refl)) as (G & HG & H).
  eexists _, _, G. split; [split; reflexivity|]. split; [exact HG|].
  intros net Hnet. destruct (H net Hnet) as (Hn & _ & He & _). by split.
Defined.

Lemma X9_attributes_read_back_witness :
  ∃ pslist_df netscan_df G,
    loads decimal_to_num (Ok ex_pslist) (Ok ex_netscan) pslist_df netscan_df ∧
    build_graph (rows pslist_df) (rows netscan_df) = Ok G ∧
    dom (get_edge_attributes G "style") = dom (g_adj G) ∧
    dom (get_edge_attributes G "label") = conn_edges (rows netscan_df).
Proof.
  destruct (X9_attributes_read_back decimal_to_num (Ok ex_pslist) (Ok ex_netscan) _ _
              (conj eq_refl eq_refl)) as (G & HG & Hs & _ & Hl & _).
  eexists _, _, G. split; [split; reflexivity|]. split; [exact HG|].
  split; [exact Hs | exact Hl].
Defined.

Lemma X10_completes_iff_witness :
  ∃ pslist_df netscan_df G,
    graph_built decimal_to_num ex_env_show_fails pslist_df netscan_df G ∧
    all_listed (rows pslist_df) (rows netscan_df) ∧
    trace (script decimal_to_num ex_env_show_fails) =
      printed ex_env_show_fails pslist_df netscan_df ++
      [EvSavePng; EvWarning (ShowError "no browser"); EvWriteHtml; EvSaved].
Proof.
  destruct (proj1 (X10_completes_iff decimal_to_num ex_env_show_fails))
    as (tp & tn & G & net & Hgb & _ & Hall & _ & _ & _ & _ & Ht);
    [vm_compute; reflexivity|].
  exists tp, tn, G. split; [exact Hgb|]. split; [exact Hall | exact Ht].
Defined.

Lemma X11_uncaught_iff_witness :
  final (script decimal_to_num ex_env_unlisted) = Uncaught (KeyError "color") ∧
  (∃ pslist_df netscan_df,
     script decimal_to_num ex_env_unlisted =
     stop (printed ex_env_unlisted pslist_df netscan_df) (Uncaught (KeyError "color"))) ∧
  final (script decimal_to_num ex_env_pyvis_fails) =
    Uncaught (LibraryError "pyvis add_node").
Proof.
  destruct (X11_uncaught_iff decimal_to_num ex_env_unlisted (KeyError "color"))
    as (Hiff & Hcol & _).
  destruct (X11_uncaught_iff decimal_to_num ex_env_pyvis_fails
              (LibraryError "pyvis add_node")) as (Hiff' & _).
  destruct (loaded_graph decimal_to_num (Ok ex_pslist) (Ok ex_netscan_unlisted) _ _
              (conj eq_refl eq_refl)) as [G HG].
  pose proof (conj eq_refl (conj eq_refl (conj (conj eq_refl eq_refl) HG))
              : graph_built decimal_to_num ex_env_unlisted _ _ G) as Hgb.
  pose proof (Hcol _ _ G (Netscan.Build_row 999 (CStr "8.8.8.8") 53 (CStr "TCPv4"))
                Hgb eq_refl) as H.
  split; [|split].
  - apply Hiff. right; right. eexists _, _, G. split; [exact Hgb|].
    right. split; [reflexivity|]. left. split; [reflexivity|].
    exists (Netscan.Build_row 999 (CStr "8.8.8.8") 53 (CStr "TCPv4")).
    split; [in_list|]. split; [discriminate | not_in_list].
  - eexists _, _. apply H; [in_list | discriminate | not_in_list].
  - destruct (proj1 Hiff') as [Hi | _]; [vm_compute; reflexivity| |vm_compute; reflexivity].
    discriminate Hi.
Defined.

Lemma X12_exit_iff_witness :
  main decimal_to_num ex_env_no_pslist =
    stop [EvError (NotFound pslist_file)] (Exited 1) ∧
  ∀ e', read_csv e' pslist_file = Raise FileNotFoundError →
        main decimal_to_num e' = main decimal_to_num ex_env_no_pslist.
Proof.
  destruct (X12_exit_iff decimal_to_num ex_env_no_pslist) as (_ & H).
  exact (H FileNotFoundError eq_refl).
Defined.

Lemma X13_load_keeps_rows_witness :
  ∃ t, load_pslist_body decimal_to_num (Ok ex_pslist) = Ok t ∧
       columns t = columns ex_pslist ∧ length (rows t) = 6%nat ∧
       rows t !! 5%nat = Some (Pslist.Build_row 0 0 (CStr "ghost")).
Proof.
  destruct (X13_load_keeps_rows decimal_to_num ex_pslist) as (Hps & _).
  eexists. split; [reflexivity|].
  destruct (Hps _ eq_refl) as (Hc & Hlen & Hrow).
  split; [exact Hc|]. split; [exact Hlen|].
  exact (Hrow 5%nat [CNaN; CNaN; CStr "ghost"; CNaN] eq_refl).
Defined.

Lemma X14_load_errors_witness :
  load_netscan decimal_to_num (Ok ex_netscan_no_proto) =
    ([EvColumns netscan_file ["PID"; "ForeignAddr"; "ForeignPort"];
      EvError (LoadFailed netscan_file (KeyError "Proto"))], ExitWith 1) ∧
  load_pslist decimal_to_num (Ok ex_netscan_no_proto) =
    ([EvColumns pslist_file ["PID"; "ForeignAddr"; "ForeignPort"];
      EvError (LoadFailed pslist_file
                 (ValueError required_pslist_cols ["PID"; "ForeignAddr"; "ForeignPort"]))],
     ExitWith 1) ∧
  load_pslist decimal_to_num (Raise (ReadError "bad quoting")) =
    ([EvError (LoadFailed pslist_file (ReadError "bad quoting"))], ExitWith 1) ∧
  load_netscan decimal_to_num (Ok ex_netscan_inf) =
    ([EvColumns netscan_file ["PID"; "ForeignAddr"; "ForeignPort"];
      EvError (LoadFailed netscan_file IntCastingNaNError)], ExitWith 1).
Proof.
  destruct (X14_load_errors decimal_to_num ex_netscan_no_proto (ReadError "bad quoting"))
    as (_ & _ & Hread & Hps & _ & _ & _ & Hproto & _).
  destruct (X14_load_errors decimal_to_num ex_netscan_inf FileNotFoundError)
    as (_ & _ & _ & _ & _ & _ & Hcast & _).
  split; [|split; [|split]].
  - apply Hproto; [|not_exists|not_exists|not_in_list].
    apply has_columns_spec. vm_compute. reflexivity.
  - apply Hps. intros H%has_columns_spec. vm_compute in H. discriminate.
  - apply Hread. discriminate.
  - apply Hcast; [apply has_columns_spec; vm_compute; reflexivity|].
    right. apply Exists_cons_hd. vm_compute. reflexivity.
Defined.

Lemma X15_address_pattern_witness :
  ∃ w, Regex.dotted_quad w ∧
       (list_ascii_of_string "999.1.22.333" = w ∨
        list_ascii_of_string "999.1.22.333" = w ++ [Regex.newline]).
Proof.
  apply (proj1 (X15_address_pattern "999.1.22.333")). vm_compute. reflexivity.
Defined.

Lemma X16_local_by_octets_witness :
  ip_color "192.168.1.10" = "lightgreen" ∧ ip_color "172.16.0.1" = "orange".
Proof.
  split.
  - apply (X16_local_by_octets "192.168.1.10"
             (list_ascii_of_string "192") (list_ascii_of_string "168")
             (list_ascii_of_string "1.10")); [reflexivity | | | ].
    + split; [discriminate | by repeat constructor].
    + split; [discriminate | by repeat constructor].
    + right. by split.
  - apply (X16_local_by_octets "172.16.0.1"
             (list_ascii_of_string "172") (list_ascii_of_string "16")
             (list_ascii_of_string "0.1")); [reflexivity | | | ].
    + split; [discriminate | by repeat constructor].
    + split; [discriminate | by repeat constructor].
    + intros [H | [H _]]; discriminate H.
Defined.

Lemma X17_outcomes_witness :
  script decimal_to_num ex_env_no_pslist =
  stop [EvVersion "0.3.2"; EvError (NotFound pslist_file)] (Exited 1).
Proof.
  symmetry.
  apply (proj1 (X17_outcomes decimal_to_num ex_env_no_pslist _)).
  exact (out_pslist decimal_to_num ex_env_no_pslist FileNotFoundError
           eq_refl eq_refl eq_refl).
Defined.

Lemma X18_int_column_witness :
  int_column decimal_to_num ex_netscan "PID" = Ok [612; 612; 0; 4; 700; 4; 612] ∧
  int_column decimal_to_num ex_pslist_inf "PID" = Raise IntCastingNaNError.
Proof.
  destruct (X18_int_column decimal_to_num ex_pslist_inf "PID") as (Hinf & _).
  destruct (X18_int_column decimal_to_num ex_netscan "PID") as (_ & Hfin & _).
  split.
  - destruct (proj1 Hfin) as [l Hl]; [not_exists|].
    rewrite Hl. vm_compute in Hl. injection Hl as <-. reflexivity.
  - apply Hinf. apply Exists_cons_tl, Exists_cons_hd. vm_compute. reflexivity.
Defined.
